(** * stockalert: divergence pipeline, shallow embedding

    Embedding of the real-time divergence pipeline of the stockalert
    repository:

    - [Pandas]      the pandas/numpy operations the code relies on
                    (series with an index, NaN, [ewm], [bfill], ...);
    - [Config]      app/config.py (the settings read by the pipeline);
    - [Divergence]  app/divergence.py (pivots, trend gate, detectors);
    - [Indicators]  app/indicators/{base,rsi,tsi,macd}.py;
    - [Loader]      app/services/historical_loader.py;
    - [Monitor]     app/services/monitor_service.py (rolling buffers);
    - [Manager]     app/services/monitor_manager.py (registry);
    - [Streamer]    app/streamer.py (the frame of a tracker).

    The modules [PandasFacts], [DivergenceFacts], [IndicatorFacts],
    [LoaderFacts], [MonitorFacts] and [ManagerFacts] hold the properties
    of the main path; [PivotFacts], [DetectorFacts], [SmoothingFacts],
    [OscillatorFacts], [LoaderPaths], [CacheFacts], [PipelineFacts],
    [RegistryFacts] and [TrackerFacts] those of the code around it.

    Floating point numbers of series are modelled by exact rationals
    ([Q]) together with a distinguished NaN ([None] in [fval]);
    comparisons of floats are exact, arithmetic on finite values is
    idealised (no rounding, no overflow).  The two float settings can also
    be an infinity or nan ([pyfloat]), and a [datetime] has the range of
    Python's.  Python exceptions are explicit ([result]); the I/O of the
    loader runs in a small monad that can raise and that records which
    tier was touched. *)

From Stdlib Require Import ZArith QArith Qround Qminmax Qabs Lia Lqa Bool.
From Stdlib Require Import Strings.String.
From stdpp Require Import base list gmap strings sorting.

(* ===================================================================== *)
(** * Pandas: the library operations used by the code *)
(* ===================================================================== *)

Module Pandas.

(** A float: a finite value or NaN. *)
Abbreviation fval := (option Q).
Abbreviation NaN := (@None Q).

(** Timestamps used as index labels (an instant, in seconds). *)
Abbreviation label := Z.

(** A [pd.Series]: an ordered sequence of (index label, value) rows. *)
Abbreviation Series V := (list (Z * V)).

Definition index {V} (s : Series V) : list label := fmap fst s.
Definition values {V} (s : Series V) : list V := fmap snd s.

(** Python exceptions: a computation returns a value or raises. *)
Inductive result (A : Type) : Type :=
| Ok (a : A)
| Raise (e : string).
Global Arguments Ok {A} a.
Global Arguments Raise {A} e.

#[global] Instance result_ret : MRet result := fun _ a => Ok a.
#[global] Instance result_bind : MBind result := fun _ _ f r =>
  match r with
  | Ok a => f a
  | Raise e => Raise e
  end.

(** ** Comparisons of floats (false as soon as one side is NaN) *)

Definition Qltb (a b : Q) : bool := negb (Qle_bool b a).

Definition flt (a b : fval) : bool :=
  match a, b with
  | Some x, Some y => Qltb x y
  | _, _ => false
  end.

Definition fgt (a b : fval) : bool := flt b a.

Definition feq (a b : fval) : bool :=
  match a, b with
  | Some x, Some y => Qeq_bool x y
  | _, _ => false
  end.

(** ** NaN-propagating arithmetic *)

Definition flift2 (f : Q -> Q -> Q) (a b : fval) : fval :=
  match a, b with
  | Some x, Some y => Some (f x y)
  | _, _ => NaN
  end.

Definition fadd : fval -> fval -> fval := flift2 Qplus.
Definition fsub : fval -> fval -> fval := flift2 Qminus.
Definition fmul : fval -> fval -> fval := flift2 Qmult.

Definition fabs (a : fval) : fval :=
  match a with
  | Some x => Some (Qabs x)
  | None => NaN
  end.

(** Division.  A float division by zero yields an infinity or NaN and no
    exception; the value model has no infinity, so the quotient by an
    exact zero is left as NaN here and the theorems about the indicators
    show that no divisor is ever zero. *)
Definition fdiv (a b : fval) : fval :=
  match a, b with
  | Some x, Some y => if Qeq_bool y 0 then NaN else Some (x / y)%Q
  | _, _ => NaN
  end.

(** ** Positional slices *)

(** [s.iloc[a:b]] for [0 <= a], [0 <= b]. *)
Definition iloc_slice {A} (s : list A) (a b : nat) : list A :=
  take (b - a) (drop a s).

(** [s.tail(n)] and [s.iloc[-n:]] for [n >= 1]: the last [n] rows. *)
Definition lastn {A} (n : nat) (s : list A) : list A :=
  drop (length s - n) s.

(** [s.tail(n)], [n >= 0]. *)
Definition tail {A} (s : list A) (n : nat) : list A := lastn n s.

(** [s.iloc[-n:]]: Python reads [-0] as [0], so [n = 0] keeps every row. *)
Definition iloc_from_neg {A} (s : list A) (n : nat) : list A :=
  match n with
  | O => s
  | _ => lastn n s
  end.

(** ** Reductions: [min()] and [max()] (NaN on an empty series) *)

Fixpoint series_min (l : list Q) : fval :=
  match l with
  | [] => NaN
  | x :: r =>
      match series_min r with
      | None => Some x
      | Some m => Some (Qmin x m)
      end
  end.

Fixpoint series_max (l : list Q) : fval :=
  match l with
  | [] => NaN
  | x :: r =>
      match series_max r with
      | None => Some x
      | Some m => Some (Qmax x m)
      end
  end.

(** ** Label lookup *)

Definition rows_at {V} (s : Series V) (p : label) : list V :=
  values (filter (fun r => fst r = p) s).

(** [s.loc[p]] used as a scalar: [KeyError] when the label is absent; with
    a duplicated label pandas returns a sub-series, whose use in a
    comparison under [and]/[if] raises [ValueError]. *)
Definition loc {V} (s : Series V) (p : label) : result V :=
  match rows_at s p with
  | [] => Raise "KeyError"
  | [v] => Ok v
  | _ => Raise "ValueError"
  end.

(** [ind.reindex(target)]: the identical index is returned as is; otherwise
    a duplicated source label raises, and a label absent from the source
    gives NaN. *)
Definition reindex (s : Series Q) (target : list label)
  : result (Series fval) :=
  if decide (index s = target)
  then Ok (fmap (fun r => (fst r, Some (snd r))) s)
  else if decide (NoDup (index s)) then
    Ok (fmap (fun p => (p, match rows_at s p with
                           | v :: _ => Some v
                           | [] => NaN
                           end)) target)
  else Raise "ValueError".

(** ** diff, ewm, bfill, fillna *)

(** [s.diff()]: NaN first, then consecutive differences. *)
Fixpoint diff_from (prev : Q) (l : list Q) : list fval :=
  match l with
  | [] => []
  | x :: r => Some (x - prev)%Q :: diff_from x r
  end.

Definition diff (l : list Q) : list fval :=
  match l with
  | [] => []
  | x :: r => NaN :: diff_from x r
  end.

(** [span] to smoothing weight: alpha = 2 / (span + 1). *)
Definition alpha_of_span (span : Z) : Q := 2 # (Z.to_pos (span + 1)).

(** One iteration of the loop of pandas' [ewm] kernel with
    [adjust=False, ignore_na=False]: the state is [(weighted, old_wt)]. *)
Definition ewm_step (alpha : Q) (st : fval * Q) (cur : fval) : fval * Q :=
  let '(weighted, old_wt) := st in
  match weighted with
  | Some w =>
      let old_wt' := (old_wt * (1 - alpha))%Q in
      match cur with
      | Some c =>
          if Qeq_bool w c then (Some w, 1%Q)
          else (Some ((old_wt' * w + alpha * c) / (old_wt' + alpha))%Q, 1%Q)
      | None => (Some w, old_wt')
      end
  | None => (cur, old_wt)
  end.

Fixpoint ewm_loop (alpha : Q) (st : fval * Q) (l : list fval) : list fval :=
  match l with
  | [] => []
  | cur :: r =>
      let st' := ewm_step alpha st cur in
      fst st' :: ewm_loop alpha st' r
  end.

(** [s.ewm(span=span, adjust=False).mean()]; [span < 1] raises. *)
Definition ewm_mean (span : Z) (l : list fval) : result (list fval) :=
  if (span <? 1)%Z then Raise "ValueError"
  else
    match l with
    | [] => Ok []
    | x :: r => Ok (x :: ewm_loop (alpha_of_span span) (x, 1%Q) r)
    end.

(** [s.replace(0, np.nan)]. *)
Definition replace_zero_nan (l : list fval) : list fval :=
  fmap (fun v => match v with
                 | Some x => if Qeq_bool x 0 then NaN else Some x
                 | None => NaN
                 end) l.

(** [s.bfill()]: every NaN takes the next valid value, when there is one. *)
Fixpoint bfill (l : list fval) : list fval :=
  match l with
  | [] => []
  | v :: r =>
      let r' := bfill r in
      match v with
      | Some x => Some x :: r'
      | None => match r' with
                | nxt :: _ => nxt :: r'
                | [] => [NaN]
                end
      end
  end.

(** [s.fillna(d)]. *)
Definition fillna (d : Q) (l : list fval) : list Q :=
  fmap (fun v => match v with Some x => x | None => d end) l.

End Pandas.

(* ===================================================================== *)
(** * Config: app/config.py *)
(* ===================================================================== *)

Module Config.

(** A Python [float] of the configuration: a finite value (an exact
    rational), an infinity or nan.  [float(os.getenv(...))] accepts the
    texts "inf" and "nan", and nothing validates the result. *)
Inductive pyfloat : Type :=
| Finite (q : Q)
| Infinite (negative : bool)
| NotANumber.

(** The fields of [Settings] read by the pipeline.  Counts are natural
    numbers; the two float settings are Python floats. *)
Record Settings : Type := {
  pivot_k : nat;
  lookback_bars : nat;
  ema_period : nat;
  use_trend_filter : bool;
  monitor_preload_bars : nat;
  monitor_preload_days : nat;
  backfill_default_days : nat;
  fetch_safety_margin : pyfloat;
  data_sufficiency_threshold : pyfloat;
  use_parquet_cache : bool;
  data_provider : string
}.

(** The defaults of app/config.py (no environment override). *)
Definition default_settings : Settings := {|
  pivot_k := 3;
  lookback_bars := 60;
  ema_period := 50;
  use_trend_filter := true;
  monitor_preload_bars := 200;
  monitor_preload_days := 5;
  backfill_default_days := 30;
  fetch_safety_margin := Finite (13 # 10);
  data_sufficiency_threshold := Finite (8 # 10);
  use_parquet_cache := false;
  data_provider := "alpaca"
|}.

(** The settings with another sufficiency threshold
    ([DATA_SUFFICIENCY_THRESHOLD]). *)
Definition with_threshold (s : Q) (settings : Settings) : Settings := {|
  pivot_k := pivot_k settings;
  lookback_bars := lookback_bars settings;
  ema_period := ema_period settings;
  use_trend_filter := use_trend_filter settings;
  monitor_preload_bars := monitor_preload_bars settings;
  monitor_preload_days := monitor_preload_days settings;
  backfill_default_days := backfill_default_days settings;
  fetch_safety_margin := fetch_safety_margin settings;
  data_sufficiency_threshold := Finite s;
  use_parquet_cache := use_parquet_cache settings;
  data_provider := data_provider settings
|}.

(** The settings with the trend filter switched on or off
    ([USE_TREND_FILTER]). *)
Definition with_trend_filter (b : bool) (settings : Settings) : Settings := {|
  pivot_k := pivot_k settings;
  lookback_bars := lookback_bars settings;
  ema_period := ema_period settings;
  use_trend_filter := b;
  monitor_preload_bars := monitor_preload_bars settings;
  monitor_preload_days := monitor_preload_days settings;
  backfill_default_days := backfill_default_days settings;
  fetch_safety_margin := fetch_safety_margin settings;
  data_sufficiency_threshold := data_sufficiency_threshold settings;
  use_parquet_cache := use_parquet_cache settings;
  data_provider := data_provider settings
|}.

End Config.

(* ===================================================================== *)
(** * Divergence: app/divergence.py *)
(* ===================================================================== *)

Module Divergence.
Import Pandas Config.

(** [_ema(series, period)]. *)
Definition _ema (series : list Q) (period : nat) : result (list fval) :=
  ewm_mean (Z.of_nat period) (fmap Some series).

(** The body of the loop of [find_pivot_lows] at position [i]: the test
    that decides whether [close.index[i]] is appended. *)
Definition pivot_low_at (close : Series Q) (k : nat) (strict : bool)
    (i : nat) : bool :=
  let vals := values close in
  let left := iloc_slice vals (i - k) i in
  let right := iloc_slice vals (i + 1) (i + k + 1) in
  match vals !! i with
  | None => false
  | Some c =>
      feq (Some c) (series_min (iloc_slice vals (i - k) (i + k + 1)))
      && (negb strict
          || (flt (Some c) (series_min left) && flt (Some c) (series_min right)))
  end.

(** [find_pivot_lows(close, k, strict)]: [for i in range(k, n - k)]. *)
Definition find_pivot_lows (close : Series Q) (k : nat) (strict : bool)
  : list label :=
  foldl (fun idxs i =>
           if pivot_low_at close k strict i then idxs ++ [index close !!! i]
           else idxs)
        [] (seq k (length close - k - k)).

(** The body of the loop of [find_pivot_highs] at position [i]. *)
Definition pivot_high_at (close : Series Q) (k : nat) (strict : bool)
    (i : nat) : bool :=
  let vals := values close in
  let left := iloc_slice vals (i - k) i in
  let right := iloc_slice vals (i + 1) (i + k + 1) in
  match vals !! i with
  | None => false
  | Some c =>
      feq (Some c) (series_max (iloc_slice vals (i - k) (i + k + 1)))
      && (negb strict
          || (fgt (Some c) (series_max left) && fgt (Some c) (series_max right)))
  end.

(** [find_pivot_highs(close, k, strict)]. *)
Definition find_pivot_highs (close : Series Q) (k : nat) (strict : bool)
  : list label :=
  foldl (fun idxs i =>
           if pivot_high_at close k strict i then idxs ++ [index close !!! i]
           else idxs)
        [] (seq k (length close - k - k)).

(** [close.dropna()]: prices are finite, nothing is dropped. *)
Definition dropna (close : Series Q) : Series Q := close.

(** [s.iloc[-1]]. *)
Definition iloc_last {A} (l : list A) : result A :=
  match last l with
  | Some x => Ok x
  | None => Raise "IndexError"
  end.

(** [_bull_trend_ok(close)]. *)
Definition _bull_trend_ok (settings : Settings) (close : Series Q)
  : result bool :=
  if negb (use_trend_filter settings) then Ok true
  else
    let s := dropna close in
    if (length s <? ema_period settings + 5)%nat then Ok false
    else
      e ← _ema (values s) (ema_period settings);
      s_last ← iloc_last (values s);
      e_last ← iloc_last e;
      Ok (fgt (Some s_last) e_last).

(** [_bear_trend_ok(close)]. *)
Definition _bear_trend_ok (settings : Settings) (close : Series Q)
  : result bool :=
  if negb (use_trend_filter settings) then Ok true
  else
    let s := dropna close in
    if (length s <? ema_period settings + 5)%nat then Ok false
    else
      e ← _ema (values s) (ema_period settings);
      s_last ← iloc_last (values s);
      e_last ← iloc_last e;
      Ok (flt (Some s_last) e_last).

(** The dictionary returned by a detector. *)
Record detection : Type := {
  p1_ts : label;
  p2_ts : label;
  price : Q;
  indicator_value : fval
}.

(** [piv[-2], piv[-1]] once [len(piv) >= 2]. *)
Definition last_two (piv : list label) : option (label * label) :=
  match reverse piv with
  | p2 :: p1 :: _ => Some (p1, p2)
  | _ => None
  end.

(** [detect_hidden_bullish(close, ind, lookback, k)]. *)
Definition detect_hidden_bullish (settings : Settings)
    (close : Series Q) (ind : Series Q) (lookback k : nat)
  : result (option detection) :=
  let sub_close := tail close lookback in
  sub_ind ← reindex ind (index sub_close);
  let piv := find_pivot_lows sub_close k true in
  match last_two piv with
  | None => Ok None
  | Some (p1, p2) =>
      c2 ← loc sub_close p2;
      c1 ← loc sub_close p1;
      if Qltb c1 c2 then
        i2 ← loc sub_ind p2;
        i1 ← loc sub_ind p1;
        if flt i2 i1 then
          ok ← _bull_trend_ok settings sub_close;
          if negb ok then Ok None
          else Ok (Some {| p1_ts := p1; p2_ts := p2;
                           price := c2; indicator_value := i2 |})
        else Ok None
      else Ok None
  end.

(** [detect_hidden_bearish(close, ind, lookback, k)]. *)
Definition detect_hidden_bearish (settings : Settings)
    (close : Series Q) (ind : Series Q) (lookback k : nat)
  : result (option detection) :=
  let sub_close := tail close lookback in
  sub_ind ← reindex ind (index sub_close);
  let piv := find_pivot_highs sub_close k true in
  match last_two piv with
  | None => Ok None
  | Some (p1, p2) =>
      c2 ← loc sub_close p2;
      c1 ← loc sub_close p1;
      if Qltb c2 c1 then
        i2 ← loc sub_ind p2;
        i1 ← loc sub_ind p1;
        if fgt i2 i1 then
          ok ← _bear_trend_ok settings sub_close;
          if negb ok then Ok None
          else Ok (Some {| p1_ts := p1; p2_ts := p2;
                           price := c2; indicator_value := i2 |})
        else Ok None
      else Ok None
  end.

(** [detect_regular_bullish(close, ind, lookback, k)]. *)
Definition detect_regular_bullish (settings : Settings)
    (close : Series Q) (ind : Series Q) (lookback k : nat)
  : result (option detection) :=
  let sub_close := tail close lookback in
  sub_ind ← reindex ind (index sub_close);
  let piv := find_pivot_lows sub_close k true in
  match last_two piv with
  | None => Ok None
  | Some (p1, p2) =>
      c2 ← loc sub_close p2;
      c1 ← loc sub_close p1;
      if Qltb c2 c1 then
        i2 ← loc sub_ind p2;
        i1 ← loc sub_ind p1;
        if fgt i2 i1 then
          ok ← _bull_trend_ok settings sub_close;
          if negb ok then Ok None
          else Ok (Some {| p1_ts := p1; p2_ts := p2;
                           price := c2; indicator_value := i2 |})
        else Ok None
      else Ok None
  end.

(** [detect_regular_bearish(close, ind, lookback, k)]. *)
Definition detect_regular_bearish (settings : Settings)
    (close : Series Q) (ind : Series Q) (lookback k : nat)
  : result (option detection) :=
  let sub_close := tail close lookback in
  sub_ind ← reindex ind (index sub_close);
  let piv := find_pivot_highs sub_close k true in
  match last_two piv with
  | None => Ok None
  | Some (p1, p2) =>
      c2 ← loc sub_close p2;
      c1 ← loc sub_close p1;
      if Qltb c1 c2 then
        i2 ← loc sub_ind p2;
        i1 ← loc sub_ind p1;
        if flt i2 i1 then
          ok ← _bear_trend_ok settings sub_close;
          if negb ok then Ok None
          else Ok (Some {| p1_ts := p1; p2_ts := p2;
                           price := c2; indicator_value := i2 |})
        else Ok None
      else Ok None
  end.

End Divergence.

(* ===================================================================== *)
(** * Indicators: app/indicators/{base,rsi,tsi,macd}.py *)
(* ===================================================================== *)

Module Indicators.
Import Pandas.

(** [np.where(delta > 0, delta, 0.0)] at one position. *)
Definition gain_of (d : fval) : Q :=
  match d with
  | Some x => if Qltb 0 x then x else 0%Q
  | None => 0%Q
  end.

(** [np.where(delta < 0, -delta, 0.0)] at one position. *)
Definition loss_of (d : fval) : Q :=
  match d with
  | Some x => if Qltb x 0 then (- x)%Q else 0%Q
  | None => 0%Q
  end.

(** [100 - (100 / (1 + rs))] at one position. *)
Definition rsi_of_rs (rs : fval) : fval :=
  fsub (Some 100%Q) (fdiv (Some 100%Q) (fadd (Some 1%Q) rs)).

(** The variable [loss_ema] of [RSI.compute]. *)
Definition rsi_loss_ema (period : Z) (close : list Q) : result (list fval) :=
  ewm_mean period (fmap Some (fmap loss_of (diff close))).

(** The variable [gain_ema] of [RSI.compute]. *)
Definition rsi_gain_ema (period : Z) (close : list Q) : result (list fval) :=
  ewm_mean period (fmap Some (fmap gain_of (diff close))).

(** The series [rsi] of [RSI.compute] before the final fill. *)
Definition rsi_raw (period : Z) (close : list Q) : result (list fval) :=
  gain_ema ← rsi_gain_ema period close;
  loss_ema ← rsi_loss_ema period close;
  let rs := zip_with fdiv gain_ema (replace_zero_nan loss_ema) in
  Ok (fmap rsi_of_rs rs).

(** [RSI(period).compute(close)], on the values of the series (the index
    of the result is the index of [close]). *)
Definition rsi_compute (period : Z) (close : list Q) : result (list Q) :=
  rsi ← rsi_raw period close;
  Ok (fillna 50 (bfill rsi)).

(** The variable [ema2_momentum] of [TSI.compute]. *)
Definition tsi_ema2_momentum (long short : Z) (close : list Q)
  : result (list fval) :=
  let momentum := diff close in
  ema1_momentum ← ewm_mean long momentum;
  ewm_mean short ema1_momentum.

(** The variable [ema2_abs_momentum] of [TSI.compute]: the doubly-smoothed
    absolute momentum. *)
Definition tsi_ema2_abs_momentum (long short : Z) (close : list Q)
  : result (list fval) :=
  let momentum := diff close in
  let abs_momentum := fmap fabs momentum in
  ema1_abs_momentum ← ewm_mean long abs_momentum;
  ewm_mean short ema1_abs_momentum.

(** The series [tsi] of [TSI.compute] before the final fill. *)
Definition tsi_raw (long short : Z) (close : list Q) : result (list fval) :=
  ema2_momentum ← tsi_ema2_momentum long short close;
  ema2_abs_momentum ← tsi_ema2_abs_momentum long short close;
  Ok (fmap (fmul (Some 100%Q))
           (zip_with fdiv ema2_momentum (replace_zero_nan ema2_abs_momentum))).

(** [TSI(long, short).compute(close)]: the source ends with
    [tsi.bfill().fillna(0)]. *)
Definition tsi_compute (long short : Z) (close : list Q) : result (list Q) :=
  tsi ← tsi_raw long short close;
  Ok (fillna 0 (bfill tsi)).

(** [MACD(fast, slow, signal).compute(close)]: the MACD line. *)
Definition macd_compute (fast slow : Z) (close : list Q) : result (list Q) :=
  ema_fast ← ewm_mean fast (fmap Some close);
  ema_slow ← ewm_mean slow (fmap Some close);
  Ok (fillna 0 (bfill (zip_with fsub ema_fast ema_slow))).

(** The abstract base class [Indicator] of app/indicators/base.py: a name
    and a [compute] method, here on the values of the close series ([high]
    and [low] are not used by any of the three indicators). *)
Class Indicator (I : Type) : Type := {
  name : I -> string;
  compute : I -> list Q -> result (list Q)
}.

(** [RSI(period=14)]. *)
Record RSI : Type := { period : Z }.
Definition RSI_default : RSI := {| period := 14 |}.

#[global] Instance RSI_Indicator : Indicator RSI := {|
  name := fun _ => "rsi";
  compute := fun self => rsi_compute (period self)
|}.

(** [TSI(long=25, short=13)]. *)
Record TSI : Type := { long : Z; short : Z }.
Definition TSI_default : TSI := {| long := 25; short := 13 |}.

#[global] Instance TSI_Indicator : Indicator TSI := {|
  name := fun _ => "tsi";
  compute := fun self => tsi_compute (long self) (short self)
|}.

(** [MACD(fast=12, slow=26, signal=9)]. *)
Record MACD : Type := { fast : Z; slow : Z; signal : Z }.
Definition MACD_default : MACD := {| fast := 12; slow := 26; signal := 9 |}.

#[global] Instance MACD_Indicator : Indicator MACD := {|
  name := fun _ => "macd";
  compute := fun self => macd_compute (fast self) (slow self)
|}.

(** [indicator.compute(df['close'], ...)] on a series: the result has the
    index of the input. *)
Definition on_series (f : list Q -> result (list Q)) (close : Series Q)
  : result (Series Q) :=
  v ← f (values close);
  Ok (zip (index close) v).

(** ** The other components of the MACD *)

(** [MACD.compute_signal(close)]: the signal line, the smoothed MACD line. *)
Definition macd_compute_signal (fast slow signal : Z) (close : list Q)
  : result (list Q) :=
  macd_line ← macd_compute fast slow close;
  signal_line ← ewm_mean signal (Some <$> macd_line);
  Ok (fillna 0 (bfill signal_line)).

(** [MACD.compute_histogram(close)]: MACD line minus signal line. *)
Definition macd_compute_histogram (fast slow signal : Z) (close : list Q)
  : result (list Q) :=
  macd_line ← macd_compute fast slow close;
  signal_line ← macd_compute_signal fast slow signal close;
  let histogram := zip_with fsub (Some <$> macd_line) (Some <$> signal_line) in
  Ok (fillna 0 (bfill histogram)).

(** [MACD.compute_full(close)]: the three components at once. *)
Definition macd_compute_full (fast slow signal : Z) (close : list Q)
  : result (list Q * list Q * list Q) :=
  macd_line ← macd_compute fast slow close;
  signal_line ← ewm_mean signal (Some <$> macd_line);
  let histogram := zip_with fsub (Some <$> macd_line) signal_line in
  Ok (fillna 0 (bfill (Some <$> macd_line)),
      fillna 0 (bfill signal_line),
      fillna 0 (bfill histogram)).

End Indicators.

(* ===================================================================== *)
(** * Loader: app/services/historical_loader.py *)
(* ===================================================================== *)

Module Loader.
Import Pandas Config.

(** One OHLCV row of a bar data frame; the frame is indexed by [ts]. *)
Record Bar : Type := {
  ts : Z;
  open : Q;
  high : Q;
  low : Q;
  close : Q;
  volume : Z
}.

Abbreviation DataFrame := (list Bar).

(** [df.empty]. *)
Definition empty (df : DataFrame) : bool :=
  match df with
  | [] => true
  | _ => false
  end.

(** [int(x)] on a float: truncation towards zero. *)
Definition py_int (x : Q) : Z := Z.quot (Qnum x) (Z.pos (Qden x)).

Definition Q_of_nat (n : nat) : Q := inject_Z (Z.of_nat n).

(** [n] converted to a float, as in [n * x] for an integer [n]. *)
Definition float_of_nat (n : nat) : pyfloat := Finite (Q_of_nat n).

(** [x - y] on floats. *)
Definition float_sub (x y : pyfloat) : pyfloat :=
  match x, y with
  | NotANumber, _ | _, NotANumber => NotANumber
  | Finite a, Finite b => Finite (a - b)
  | Finite _, Infinite s => Infinite (negb s)
  | Infinite s, Finite _ => Infinite s
  | Infinite s, Infinite s' => if Bool.eqb s s' then NotANumber else Infinite s
  end.

(** [x * y] on floats: zero times an infinity is nan. *)
Definition float_mul (x y : pyfloat) : pyfloat :=
  match x, y with
  | NotANumber, _ | _, NotANumber => NotANumber
  | Finite a, Finite b => Finite (a * b)
  | Finite a, Infinite s | Infinite s, Finite a =>
      match (a ?= 0)%Q with
      | Eq => NotANumber
      | Gt => Infinite s
      | Lt => Infinite (negb s)
      end
  | Infinite s, Infinite s' => Infinite (xorb s s')
  end.

(** [int(x)] on a float: [OverflowError] on an infinity and [ValueError]
    on nan. *)
Definition int_of_float (x : pyfloat) : result Z :=
  match x with
  | Finite q => Ok (py_int q)
  | Infinite _ => Raise "OverflowError"
  | NotANumber => Raise "ValueError"
  end.

Definition seconds_per_day : Z := 86400.

(** The range of [datetime], in seconds since the epoch: from
    0001-01-01 00:00:00 to 9999-12-31 23:59:59. *)
Definition datetime_min : Z := -62135596800.
Definition datetime_max : Z := 253402300799.

(** [timedelta(days=n)]: more than 999999999 days raise. *)
Definition timedelta_days (n : Z) : result Z :=
  if (Z.abs n <=? 999999999)%Z then Ok (n * seconds_per_day)%Z
  else Raise "OverflowError".

(** [dt - delta]: the difference has to be a [datetime] again. *)
Definition datetime_sub (dt delta : Z) : result Z :=
  let r := (dt - delta)%Z in
  if ((datetime_min <=? r) && (r <=? datetime_max))%Z then Ok r
  else Raise "OverflowError".

(** The tiers a call can touch, in the order it touches them. *)
Inductive event : Type :=
| DbQuery (symbol : string) (fetch_limit : Z) (start end_ : Z)
| DbSave (symbol : string) (rows : DataFrame)
| ParquetRead (symbol : string)
| ParquetSave (symbol : string) (rows : DataFrame)
| ProviderFetch (symbol : string) (start end_ : Z).

(** The collaborators of the loader.  Each operation either answers or
    fails with an I/O error ([Raise]).
    - [db_rows symbol start end_]: the stored bars of [symbol] with
      [start <= ts <= end_], in increasing [ts] (the store keeps
      [(symbol, ts)] unique);
    - [parquet_file symbol]: the content of the cache file, [None] when the
      file does not exist;
    - [historical_df symbol start end_]: the answer of the provider. *)
Record World : Type := {
  now : Z;
  db_rows : string -> Z -> Z -> result DataFrame;
  db_insert : string -> DataFrame -> result unit;
  parquet_file : string -> result (option DataFrame);
  parquet_write : string -> DataFrame -> result unit;
  historical_df : string -> Z -> Z -> result DataFrame
}.

(** Computations of the loader: they may raise and they extend the trace
    of tier events. *)
Definition IO (A : Type) : Type := list event -> result A * list event.

#[global] Instance IO_ret : MRet IO := fun _ a tr => (Ok a, tr).
#[global] Instance IO_bind : MBind IO := fun _ _ f m tr =>
  match m tr with
  | (Ok a, tr') => f a tr'
  | (Raise e, tr') => (Raise e, tr')
  end.

(** A computation that touches no tier. *)
Definition lift {A} (r : result A) : IO A := fun tr => (r, tr).

(** Perform one collaborator call: log the event, then answer or raise. *)
Definition perform {A} (ev : event) (r : result A) : IO A :=
  fun tr => (r, tr ++ [ev]).

(** [try: body except Exception as e: handler]. *)
Definition try_except {A} (body : IO A) (handler : string -> IO A) : IO A :=
  fun tr =>
    match body tr with
    | (Ok a, tr') => (Ok a, tr')
    | (Raise e, tr') => handler e tr'
    end.

(** The loader object: [use_parquet_cache] as resolved by [__init__]. *)
Record HistoricalDataLoader : Type := {
  world : World;
  loader_use_parquet_cache : bool
}.

Definition new_loader (settings : Settings) (w : World)
    (use_parquet_cache_arg : option bool) : HistoricalDataLoader :=
  {| world := w;
     loader_use_parquet_cache :=
       match use_parquet_cache_arg with
       | Some b => b
       | None => use_parquet_cache settings
       end |}.

(** The query of [_load_from_database]:
    [ORDER BY ts DESC LIMIT fetch_limit] over the rows in range. *)
Definition db_execute (w : World) (symbol : string) (fetch_limit : Z)
    (start end_ : Z) : IO DataFrame :=
  rows ← perform (DbQuery symbol fetch_limit start end_)
                 (db_rows w symbol start end_);
  mret (take (Z.to_nat fetch_limit) (reverse rows)).

(** [_load_from_database]. *)
Definition _load_from_database (self : HistoricalDataLoader)
    (symbol : string) (limit : nat) (start end_ : Z) : IO DataFrame :=
  try_except
    (let fetch_limit := py_int (Q_of_nat limit * (12 # 10)) in
     bars ← db_execute (world self) symbol fetch_limit start end_;
     if empty bars then mret []
     else mret (reverse bars))
    (fun _ => mret []).

(** [_load_from_parquet]. *)
Definition _load_from_parquet (self : HistoricalDataLoader)
    (symbol : string) (start end_ : Z) : IO DataFrame :=
  try_except
    (file ← perform (ParquetRead symbol) (parquet_file (world self) symbol);
     match file with
     | None => mret []
     | Some df =>
         mret (filter (fun b => (start <= ts b)%Z /\ (ts b <= end_)%Z) df)
     end)
    (fun _ => mret []).

(** [_fetch_from_provider]. *)
Definition _fetch_from_provider (self : HistoricalDataLoader)
    (symbol : string) (start end_ : Z) : IO DataFrame :=
  try_except
    (perform (ProviderFetch symbol start end_)
             (historical_df (world self) symbol start end_))
    (fun _ => mret []).

(** [_save_to_database]: insert, conflicts ignored; failures are logged. *)
Definition _save_to_database (self : HistoricalDataLoader)
    (symbol : string) (df : DataFrame) : IO unit :=
  if empty df then mret tt
  else
    try_except
      (perform (DbSave symbol df) (db_insert (world self) symbol df))
      (fun _ => mret tt).

(** [_save_to_parquet]: the read-merge-write of the cache file is one
    collaborator call here; any failure of it is logged. *)
Definition _save_to_parquet (self : HistoricalDataLoader)
    (symbol : string) (df : DataFrame) : IO unit :=
  if empty df then mret tt
  else
    try_except
      (perform (ParquetSave symbol df) (parquet_write (world self) symbol df))
      (fun _ => mret tt).

(** The per-purpose defaults of [load_bars]. *)
Definition default_limit (settings : Settings) (purpose : string) : nat :=
  if String.eqb purpose "monitor" then monitor_preload_bars settings
  else if String.eqb purpose "backfill" then monitor_preload_bars settings
  else if String.eqb purpose "research" then 1000%nat
  else monitor_preload_bars settings.

Definition default_days (settings : Settings) (purpose : string) : nat :=
  if String.eqb purpose "monitor" then monitor_preload_days settings
  else if String.eqb purpose "backfill" then backfill_default_days settings
  else if String.eqb purpose "research" then 30%nat
  else monitor_preload_days settings.

(** [len(df) >= required_bars]. *)
Definition sufficient (df : DataFrame) (required_bars : Z) : bool :=
  negb (empty df) && (required_bars <=? Z.of_nat (length df))%Z.

(** The cache tier of [load_bars]: [Some df] when it returns from there. *)
Definition parquet_tier (self : HistoricalDataLoader) (symbol : string)
    (limit : nat) (start end_ : Z) (required_bars : Z) : IO (option DataFrame) :=
  if loader_use_parquet_cache self then
    df ← _load_from_parquet self symbol start end_;
    if sufficient df required_bars then
      _ ← _save_to_database self symbol df;
      mret (Some (iloc_from_neg df limit))
    else mret None
  else mret None.

(** [start - timedelta(days=int(days_lookback * (fetch_safety_margin - 1)))],
    the start of the window asked of the provider.  Nothing of it is inside
    a [try].  The product of finite values is the exact one: the number of
    days can be one more than the float product of the code gives once
    truncated, and the start one day earlier. *)
Definition extended_start (settings : Settings) (days_lookback : nat)
    (start : Z) : result Z :=
  margin_days ← int_of_float
                  (float_mul (float_of_nat days_lookback)
                             (float_sub (fetch_safety_margin settings)
                                        (Finite 1)));
  delta ← timedelta_days margin_days;
  datetime_sub start delta.

(** The provider tier of [load_bars]. *)
Definition provider_tier (settings : Settings) (self : HistoricalDataLoader)
    (symbol : string) (limit days_lookback : nat) (start end_ : Z) : IO DataFrame :=
  extended_start ← lift (extended_start settings days_lookback start);
  df ← _fetch_from_provider self symbol extended_start end_;
  if empty df then mret df
  else
    _ ← _save_to_database self symbol df;
    _ ← (if loader_use_parquet_cache self then _save_to_parquet self symbol df
         else mret tt);
    mret (if (limit <? length df)%nat then iloc_from_neg df limit else df).

(** [load_bars] after the store tier: the cache tier, then the provider. *)
Definition lower_tiers (settings : Settings) (self : HistoricalDataLoader)
    (symbol : string) (limit days_lookback : nat) (start end_ : Z)
    (required_bars : Z) : IO DataFrame :=
  cached ← parquet_tier self symbol limit start end_ required_bars;
  match cached with
  | Some df => mret df
  | None => provider_tier settings self symbol limit days_lookback start end_
  end.

(** [end - timedelta(days=days_lookback)], the start of a request that
    names none. *)
Definition default_start (days_lookback : nat) (end_ : Z) : result Z :=
  delta ← timedelta_days (Z.of_nat days_lookback);
  datetime_sub end_ delta.

(** [if start is None: start = end - timedelta(days=days_lookback)]. *)
Definition request_start (days_lookback : nat) (end_ : Z) (start : option Z)
  : result Z :=
  match start with
  | Some start => Ok start
  | None => default_start days_lookback end_
  end.

(** [int(limit * settings.data_sufficiency_threshold)], outside every
    [try].  The product of finite values is the exact one. *)
Definition required_bars (settings : Settings) (limit : nat) : result Z :=
  int_of_float (float_mul (float_of_nat limit)
                          (data_sufficiency_threshold settings)).

(** [load_bars(symbol, limit, start, end, days_lookback, purpose)].  The
    date arithmetic and the computation of [required_bars] are outside
    every [try]: what they raise reaches the caller. *)
Definition load_bars (settings : Settings) (self : HistoricalDataLoader)
    (symbol : string) (limit : option nat) (start end_ : option Z)
    (days_lookback : option nat) (purpose : string) : IO DataFrame :=
  let limit := from_option id (default_limit settings purpose) limit in
  let days_lookback := from_option id (default_days settings purpose) days_lookback in
  let end_ := from_option id (now (world self)) end_ in
  start ← lift (request_start days_lookback end_ start);
  df ← _load_from_database self symbol limit start end_;
  required_bars ← lift (required_bars settings limit);
  if sufficient df required_bars then mret (iloc_from_neg df limit)
  else lower_tiers settings self symbol limit days_lookback start end_
                   required_bars.

(** ** The content of the cache file *)

(** [df[~df.index.duplicated(keep='last')]]: of the rows that share a
    timestamp only the last one is kept. *)
Fixpoint drop_duplicated_keep_last (df : DataFrame) : DataFrame :=
  match df with
  | [] => []
  | b :: rest =>
      if decide (ts b ∈ ts <$> rest) then drop_duplicated_keep_last rest
      else b :: drop_duplicated_keep_last rest
  end.

Definition ts_le (a b : Bar) : Prop := (ts a <= ts b)%Z.

#[global] Instance ts_le_dec : RelDecision ts_le.
Proof. intros a b. unfold ts_le. apply _. Defined.

(** [df.sort_index()], called once the duplicated timestamps are dropped:
    no two rows share a timestamp, so the result does not depend on the
    sorting algorithm. *)
Definition sort_index (df : DataFrame) : DataFrame := merge_sort ts_le df.

(** The frame [_save_to_parquet] passes to [to_parquet]: the new rows
    merged into the content of the cache file, or the new rows as they are
    when there is no file yet. *)
Definition parquet_content (existing : option DataFrame) (df : DataFrame)
  : DataFrame :=
  match existing with
  | Some existing => sort_index (drop_duplicated_keep_last (existing ++ df))
  | None => df
  end.

End Loader.

(* ===================================================================== *)
(** * Monitor: app/services/monitor_service.py *)
(* ===================================================================== *)

Module Monitor.
Import Pandas Config.

(** A [datetime]: wall-clock seconds and, when aware, the UTC offset. *)
Record datetime : Type := {
  wall : Z;
  tzinfo : option Z
}.

(** [ts.replace(tzinfo=timezone.utc)]. *)
Definition replace_utc (d : datetime) : datetime :=
  {| wall := wall d; tzinfo := Some 0%Z |}.

(** [if ts.tzinfo is None: ts = ts.replace(tzinfo=timezone.utc)]. *)
Definition ensure_aware (ts : datetime) : datetime :=
  match tzinfo ts with
  | None => replace_utc ts
  | Some _ => ts
  end.

(** The instant an aware [datetime] denotes; a naive one is read as UTC. *)
Definition instant (d : datetime) : Z :=
  (wall d - from_option id 0 (tzinfo d))%Z.

(** A bar as delivered by the feed. *)
Record feed_bar : Type := {
  symbol : string;
  timestamp : datetime;
  open : Q;
  high : Q;
  low : Q;
  close : Q;
  volume : Z
}.

(** An entry of a rolling buffer ([bar_dict]). *)
Record bar_dict : Type := {
  bd_timestamp : datetime;
  bd_open : Q;
  bd_high : Q;
  bd_low : Q;
  bd_close : Q;
  bd_volume : Z
}.

(** The mutable state of a service. *)
Record state : Type := {
  buffers : gmap string (list bar_dict);
  last_bar_time : gmap string datetime
}.

Definition capacity_ceiling : nat := 3000.
Definition retained_size : nat := 2200.

(** [INDICATOR_MAP[name]()]: the indicator classes with their default
    parameters. *)
Definition INDICATOR_MAP (name : string)
  : option (list Q -> result (list Q)) :=
  if String.eqb name "rsi"
  then Some (Indicators.compute Indicators.RSI_default)
  else if String.eqb name "macd"
  then Some (Indicators.compute Indicators.MACD_default)
  else if String.eqb name "tsi"
  then Some (Indicators.compute Indicators.TSI_default)
  else None.

Definition detector_fn : Type :=
  Settings -> Series Q -> Series Q -> nat -> nat
  -> result (option Divergence.detection).

(** [DETECTOR_MAP]. *)
Definition DETECTOR_MAP (name : string) : option detector_fn :=
  if String.eqb name "hidden_bullish_divergence"
  then Some Divergence.detect_hidden_bullish
  else if String.eqb name "hidden_bearish_divergence"
  then Some Divergence.detect_hidden_bearish
  else if String.eqb name "regular_bullish_divergence"
  then Some Divergence.detect_regular_bullish
  else if String.eqb name "regular_bearish_divergence"
  then Some Divergence.detect_regular_bearish
  else None.

(** The immutable part of a service, fixed by [__init__]. *)
Record MonitorService : Type := {
  indicator_name : string;
  signal_type : string;
  indicator : list Q -> result (list Q);
  detector : detector_fn
}.

(** [MonitorService.__init__]: unknown names raise [ValueError]. *)
Definition new_service (indicator_name signal_type : string)
  : result MonitorService :=
  match INDICATOR_MAP indicator_name with
  | None => Raise ("Unknown indicator: " +:+ indicator_name)
  | Some ind =>
      match DETECTOR_MAP signal_type with
      | None => Raise ("Unknown signal type: " +:+ signal_type)
      | Some det =>
          Ok {| indicator_name := indicator_name;
                signal_type := signal_type;
                indicator := ind;
                detector := det |}
      end
  end.

(** How far [_process_bar] got with a bar: the early return while the
    buffer is short, a detector that found nothing, or a detection, with
    which the branch [if result:] is entered. *)
Inductive outcome : Type :=
| Collecting
| NoSignal
| SignalDetected (d : Divergence.detection).

Definition make_bar_dict (ts : datetime) (bar : feed_bar) : bar_dict :=
  {| bd_timestamp := ts;
     bd_open := open bar; bd_high := high bar; bd_low := low bar;
     bd_close := close bar; bd_volume := volume bar |}.

(** [self.buffers[symbol].append(bar_dict)] followed by the trim. *)
Definition append_and_trim (buffer : list bar_dict) (b : bar_dict)
  : list bar_dict :=
  let buffer := buffer ++ [b] in
  if (capacity_ceiling <? length buffer)%nat then lastn retained_size buffer
  else buffer.

(** [pd.DataFrame(buffer).set_index('timestamp')['close']]. *)
Definition close_series (buffer : list bar_dict) : Series Q :=
  fmap (fun b => (instant (bd_timestamp b), bd_close b)) buffer.

(** [_process_bar(bar)], up to the return of the detector: the new state
    and either the outcome or the exception that [on_bar] catches.
    [asyncio.create_task(self._persist_bar(...))] only schedules a task.
    The two awaits of the branch [if result:] ([_persist_signal] and
    [broadcast_cb]) come after the last access to the state and are not
    modelled: [Ok (SignalDetected d)] says that the branch is entered with
    [d], not that the awaits in it return. *)
Definition _process_bar (settings : Settings) (self : MonitorService)
    (st : state) (bar : feed_bar) : result outcome * state :=
  let symbol := symbol bar in
  let ts := ensure_aware (timestamp bar) in
  let st := {| buffers := buffers st;
               last_bar_time := <[symbol := ts]> (last_bar_time st) |} in
  match buffers st !! symbol with
  | None => (Raise "KeyError", st)
  | Some buffer =>
      let buffer := append_and_trim buffer (make_bar_dict ts bar) in
      let st := {| buffers := <[symbol := buffer]> (buffers st);
                   last_bar_time := last_bar_time st |} in
      if (length buffer <? lookback_bars settings)%nat then (Ok Collecting, st)
      else
        let closes := close_series buffer in
        (ind_values ← Indicators.on_series (indicator self) closes;
         res ← detector self settings closes ind_values
                 (lookback_bars settings) (pivot_k settings);
         match res with
         | Some d => Ok (SignalDetected d)
         | None => Ok NoSignal
         end, st)
  end.

(** The feed: bars are processed one after the other, in delivery order;
    an exception of one bar is logged by [on_bar] and the next bar is
    processed. *)
Definition process_all (settings : Settings) (self : MonitorService)
    (st : state) (bars : list feed_bar) : state :=
  foldl (fun st bar => snd (_process_bar settings self st bar)) st bars.

(** Warm start of one symbol in [monitor]: a fresh buffer filled with the
    rows returned by the loader. *)
Definition bar_dict_of_row (row : Loader.Bar) : bar_dict :=
  {| bd_timestamp := {| wall := Loader.ts row; tzinfo := Some 0%Z |};
     bd_open := Loader.open row; bd_high := Loader.high row;
     bd_low := Loader.low row; bd_close := Loader.close row;
     bd_volume := Loader.volume row |}.

Definition warm_start (st : state) (symbol : string) (now : datetime)
    (df : Loader.DataFrame) : state :=
  {| buffers := <[symbol := fmap bar_dict_of_row df]> (buffers st);
     last_bar_time :=
       <[symbol := match last df with
                   | Some row => bd_timestamp (bar_dict_of_row row)
                   | None => now
                   end]> (last_bar_time st) |}.

(** The timestamps of a buffer, as instants. *)
Definition buffer_instants (buffer : list bar_dict) : list Z :=
  fmap (fun b => instant (bd_timestamp b)) buffer.

(** ** The warm start of [monitor] *)

(** The warm start of [monitor(tickers)] for one ticker: the buffer of the
    ticker is reset, the loader is asked for the bars of purpose "monitor"
    with every other argument left to its default, and the rows it returns
    fill the buffer. *)
Definition preload_symbol (settings : Settings)
    (historical_loader : Loader.HistoricalDataLoader) (st : state)
    (symbol : string) : Loader.IO state :=
  let now := {| wall := Loader.now (Loader.world historical_loader);
                tzinfo := Some 0%Z |} in
  df ← Loader.load_bars settings historical_loader symbol
         None None None None "monitor";
  mret (warm_start st symbol now df).

(** [for symbol in tickers: ...], the first loop of [monitor(tickers)]. *)
Fixpoint preload (settings : Settings)
    (historical_loader : Loader.HistoricalDataLoader) (st : state)
    (tickers : list string) : Loader.IO state :=
  match tickers with
  | [] => mret st
  | symbol :: rest =>
      st ← preload_symbol settings historical_loader st symbol;
      preload settings historical_loader st rest
  end.

End Monitor.

(* ===================================================================== *)
(** * Manager: app/services/monitor_manager.py *)
(* ===================================================================== *)

Module Manager.
Import Pandas Config.

(** An asyncio task running [monitor_service.monitor(tickers)]. *)
Record task : Type := {
  task_service : Monitor.MonitorService;
  task_tickers : list string;
  done : bool
}.

(** A value of the registry; [mi_task] is the handle of the task in the
    task table of the event loop. *)
Record monitor_info : Type := {
  mi_task : nat;
  mi_tickers : list string;
  mi_indicator : string;
  mi_signal_type : string
}.

Inductive provider_kind : Type := AlpacaProvider | PolygonProvider.

(** The manager together with the task table of the event loop; a task
    handle held by the registry and the loop's task are the same object. *)
Record system : Type := {
  monitors : gmap string monitor_info;
  provider : option provider_kind;
  tasks : list task
}.

Definition initial : system :=
  {| monitors := ∅; provider := None; tasks := [] |}.

(** [get_provider()]. *)
Definition get_provider (settings : Settings) : result provider_kind :=
  if String.eqb (data_provider settings) "alpaca" then Ok AlpacaProvider
  else if String.eqb (data_provider settings) "polygon" then Ok PolygonProvider
  else Raise ("Unsupported provider: " +:+ data_provider settings).

(** [sorted(tickers)]: strings ordered by code point. *)
Definition str_le (a b : string) : Prop := String.leb a b = true.

#[global] Instance str_le_dec : RelDecision str_le.
Proof. intros a b. unfold str_le. apply _. Defined.

Definition sorted (tickers : list string) : list string :=
  merge_sort str_le tickers.

(** [_get_key(tickers, indicator, signal_type)]. *)
Definition _get_key (tickers : list string) (indicator signal_type : string)
  : string :=
  String.concat "," (sorted tickers)
  +:+ ":" +:+ indicator +:+ ":" +:+ signal_type.

(** [task.done()]. *)
Definition task_done (s : system) (id : nat) : bool :=
  match tasks s !! id with
  | Some t => done t
  | None => true
  end.

(** The dictionary returned by [start_monitor]. *)
Inductive response : Type :=
| AlreadyRunning (key : string) (tickers : list string)
| Error (message : string)
| Started (key : string) (tickers : list string)
          (indicator signal_type : string).

Definition status (r : response) : string :=
  match r with
  | AlreadyRunning _ _ => "already_running"
  | Error _ => "error"
  | Started _ _ _ _ => "started"
  end.

(** [start_monitor] from "Initialize provider if needed" on. *)
Definition start_fresh (settings : Settings) (s : system) (key : string)
    (tickers : list string) (indicator signal_type : string)
  : result response * system :=
  let init :=
    match provider s with
    | Some p => Ok s
    | None =>
        p ← get_provider settings;
        Ok {| monitors := monitors s; provider := Some p; tasks := tasks s |}
    end in
  match init with
  | Raise e => (Raise e, s)
  | Ok s =>
      match Monitor.new_service indicator signal_type with
      | Raise e => (Ok (Error e), s)
      | Ok monitor_service =>
          let id := length (tasks s) in
          let t := {| task_service := monitor_service;
                      task_tickers := tickers;
                      done := false |} in
          let info := {| mi_task := id; mi_tickers := tickers;
                         mi_indicator := indicator;
                         mi_signal_type := signal_type |} in
          (Ok (Started key tickers indicator signal_type),
           {| monitors := <[key := info]> (monitors s);
              provider := provider s;
              tasks := tasks s ++ [t] |})
      end
  end.

(** [start_monitor(tickers, indicator, signal_type)]. *)
Definition start_monitor (settings : Settings) (s : system)
    (tickers : list string) (indicator signal_type : string)
  : result response * system :=
  let key := _get_key tickers indicator signal_type in
  match monitors s !! key with
  | Some info =>
      if negb (task_done s (mi_task info)) then
        (Ok (AlreadyRunning key tickers), s)
      else
        start_fresh settings
          {| monitors := delete key (monitors s);
             provider := provider s; tasks := tasks s |}
          key tickers indicator signal_type
  | None => start_fresh settings s key tickers indicator signal_type
  end.

(** The event loop runs: a task terminates. *)
Definition finish_task (s : system) (id : nat) : system :=
  {| monitors := monitors s; provider := provider s;
     tasks := alter (fun t => {| task_service := task_service t;
                                 task_tickers := task_tickers t;
                                 done := true |}) id (tasks s) |}.

(** ** Stopping a monitor *)

(** The calls [stop_monitor] makes on the task and on the provider. *)
Inductive effect : Type :=
| CancelTask (id : nat)
| UnsubscribeBars (tickers : list string).

(** The dictionary returned by [stop_monitor]. *)
Inductive stop_response : Type :=
| NotFound (key : string)
| Stopped (key : string) (tickers : list string).

(** [stop_monitor(tickers, indicator, signal_type)].  [task.cancel()] only
    requests the cancellation: the task table is left as it is and the
    task ends when the event loop runs it ([finish_task]).  A failure of
    [unsubscribe_bars] is logged. *)
Definition stop_monitor (s : system) (tickers : list string)
    (indicator signal_type : string) : stop_response * system * list effect :=
  let key := _get_key tickers indicator signal_type in
  match monitors s !! key with
  | None => (NotFound key, s, [])
  | Some monitor_info =>
      let cancel :=
        if negb (task_done s (mi_task monitor_info))
        then [CancelTask (mi_task monitor_info)] else [] in
      let unsubscribe :=
        match provider s with
        | Some _ => [UnsubscribeBars (mi_tickers monitor_info)]
        | None => []
        end in
      (Stopped key tickers,
       {| monitors := delete key (monitors s);
          provider := provider s; tasks := tasks s |},
       cancel ++ unsubscribe)
  end.

End Manager.

(* ===================================================================== *)
(** * Streamer: app/streamer.py *)
(* ===================================================================== *)

Module Streamer.
Import Pandas Config.

(** The columns of a row of [DivergenceTracker.df]. *)
Record row : Type := {
  r_open : Q;
  r_high : Q;
  r_low : Q;
  r_close : Q;
  r_volume : Z
}.

(** [df.loc[ts] = row]: the rows under the label are overwritten, and a
    label the index does not have is appended. *)
Definition loc_set (df : Series row) (ts : label) (r : row) : Series row :=
  if decide (ts ∈ index df)
  then fmap (fun old => if decide (fst old = ts) then (ts, r) else old) df
  else df ++ [(ts, r)].

Definition row_of_bar (bar : Monitor.feed_bar) : row :=
  {| r_open := Monitor.open bar; r_high := Monitor.high bar;
     r_low := Monitor.low bar; r_close := Monitor.close bar;
     r_volume := Monitor.volume bar |}.

(** A tracker, as [__init__] leaves it; its frame is the state. *)
Record DivergenceTracker : Type := {
  tracker_symbol : string;
  tracker_signal_type : string;
  tracker_indicator : list Q -> result (list Q)
}.

(** [DivergenceTracker.__init__]: an unknown indicator name is a
    [KeyError]; the frame starts empty. *)
Definition new_tracker (symbol indicator_name signal_type : string)
  : result DivergenceTracker :=
  match Monitor.INDICATOR_MAP indicator_name with
  | None => Raise "KeyError"
  | Some ind =>
      Ok {| tracker_symbol := symbol; tracker_signal_type := signal_type;
            tracker_indicator := ind |}
  end.

(** The first two statements of [on_bar] on the frame: the row is stored
    under the (timezone-aware) timestamp of the bar, and a frame of more
    than 3000 rows is cut to its last 2200. *)
Definition store_bar (df : Series row) (bar : Monitor.feed_bar) : Series row :=
  let ts := Monitor.ensure_aware (Monitor.timestamp bar) in
  let df := loc_set df (Monitor.instant ts) (row_of_bar bar) in
  if (3000 <? length df)%nat then lastn 2200 df else df.

(** [df["close"]]. *)
Definition close_column (df : Series row) : Series Q :=
  fmap (fun r => (fst r, r_close (snd r))) df.

(** [on_bar(bar)]: the new frame, and the detection or the exception.
    Persisting the signal and the bar and the broadcast are left out. *)
Definition on_bar (settings : Settings) (self : DivergenceTracker)
    (df : Series row) (bar : Monitor.feed_bar)
  : result (option Divergence.detection) * Series row :=
  let df := store_bar df bar in
  (ind ← Indicators.on_series (tracker_indicator self) (close_column df);
   match Monitor.DETECTOR_MAP (tracker_signal_type self) with
   | None => Raise "KeyError"
   | Some detector =>
       detector settings (close_column df) ind
                (lookback_bars settings) (pivot_k settings)
   end, df).

(** The frame after a sequence of bars, whatever [on_bar] raised. *)
Definition frame_after (df : Series row) (bars : list Monitor.feed_bar)
  : Series row :=
  foldl store_bar df bars.

End Streamer.

(* ===================================================================== *)
(** * Facts about the pandas operations *)
(* ===================================================================== *)

Module PandasFacts.
Import Pandas.

Lemma Qltb_lt (a b : Q) : Qltb a b = true <-> (a < b)%Q.
Proof.
  unfold Qltb. rewrite negb_true_iff. split.
  - intros H. apply Qnot_le_lt. intros Hle.
    apply Qle_bool_iff in Hle. congruence.
  - intros H. destruct (Qle_bool b a) eqn:E; [|reflexivity].
    apply Qle_bool_iff in E. exfalso. exact (Qlt_not_le _ _ H E).
Qed.

Lemma Qltb_ge (a b : Q) : Qltb a b = false <-> (b <= a)%Q.
Proof.
  unfold Qltb. rewrite negb_false_iff. apply Qle_bool_iff.
Qed.

Lemma series_min_None (l : list Q) : series_min l = None <-> l = [].
Proof.
  destruct l as [|x r]; simpl; [tauto|].
  destruct (series_min r); split; discriminate.
Qed.

Lemma series_max_None (l : list Q) : series_max l = None <-> l = [].
Proof.
  destruct l as [|x r]; simpl; [tauto|].
  destruct (series_max r); split; discriminate.
Qed.

(** The minimum is a lower bound and is attained. *)
Lemma series_min_Some (l : list Q) (m : Q) :
  series_min l = Some m ->
  (forall v, v ∈ l -> (m <= v)%Q) /\ (exists v, v ∈ l /\ (v == m)%Q).
Proof.
  revert m. induction l as [|x r IH]; intros m; simpl; [discriminate|].
  destruct (series_min r) as [m'|] eqn:E.
  - intros [= <-]. destruct (IH m' eq_refl) as [Hlb [w [Hw Hwm]]]. split.
    + intros v Hv. apply elem_of_cons in Hv as [->|Hv].
      * apply Q.le_min_l.
      * eapply Qle_trans; [apply Q.le_min_r|]. auto.
    + destruct (Q.min_dec x m') as [H|H].
      * exists x. split; [left|]. symmetry. exact H.
      * exists w. split; [right; exact Hw|]. rewrite Hwm. symmetry. exact H.
  - intros [= <-]. apply series_min_None in E. subst r. split.
    + intros v Hv. apply list_elem_of_singleton in Hv. subst. apply Qle_refl.
    + exists x. split; [left|reflexivity].
Qed.

Lemma series_max_Some (l : list Q) (m : Q) :
  series_max l = Some m ->
  (forall v, v ∈ l -> (v <= m)%Q) /\ (exists v, v ∈ l /\ (v == m)%Q).
Proof.
  revert m. induction l as [|x r IH]; intros m; simpl; [discriminate|].
  destruct (series_max r) as [m'|] eqn:E.
  - intros [= <-]. destruct (IH m' eq_refl) as [Hub [w [Hw Hwm]]]. split.
    + intros v Hv. apply elem_of_cons in Hv as [->|Hv].
      * apply Q.le_max_l.
      * eapply Qle_trans; [|apply Q.le_max_r]. auto.
    + destruct (Q.max_dec x m') as [H|H].
      * exists x. split; [left|]. symmetry. exact H.
      * exists w. split; [right; exact Hw|]. rewrite Hwm. symmetry. exact H.
  - intros [= <-]. apply series_max_None in E. subst r. split.
    + intros v Hv. apply list_elem_of_singleton in Hv. subst. apply Qle_refl.
    + exists x. split; [left|reflexivity].
Qed.

(** [c == w.min()] for a value [c] of the window [w]. *)
Lemma feq_series_min (c : Q) (w : list Q) :
  c ∈ w ->
  feq (Some c) (series_min w) = true <-> (forall v, v ∈ w -> (c <= v)%Q).
Proof.
  intros Hc. unfold feq. destruct (series_min w) as [m|] eqn:E.
  - destruct (series_min_Some _ _ E) as [Hlb [x [Hx Hxm]]].
    rewrite Qeq_bool_iff. split.
    + intros Heq v Hv. rewrite Heq. auto.
    + intros H. apply Qle_antisym; [|auto].
      rewrite <- Hxm. auto.
  - apply series_min_None in E. subst w. inversion Hc.
Qed.

Lemma feq_series_max (c : Q) (w : list Q) :
  c ∈ w ->
  feq (Some c) (series_max w) = true <-> (forall v, v ∈ w -> (v <= c)%Q).
Proof.
  intros Hc. unfold feq. destruct (series_max w) as [m|] eqn:E.
  - destruct (series_max_Some _ _ E) as [Hub [x [Hx Hxm]]].
    rewrite Qeq_bool_iff. split.
    + intros Heq v Hv. rewrite Heq. auto.
    + intros H. apply Qle_antisym; [auto|].
      rewrite <- Hxm. auto.
  - apply series_max_None in E. subst w. inversion Hc.
Qed.

(** [c < w.min()]: false on an empty window, whose minimum is NaN. *)
Lemma flt_series_min (c : Q) (w : list Q) :
  flt (Some c) (series_min w) = true <->
  w <> [] /\ (forall v, v ∈ w -> (c < v)%Q).
Proof.
  unfold flt. destruct (series_min w) as [m|] eqn:E.
  - destruct (series_min_Some _ _ E) as [Hlb [x [Hx Hxm]]].
    rewrite Qltb_lt. split.
    + intros Hlt. split; [intros ->; inversion Hx|].
      intros v Hv. eapply Qlt_le_trans; [exact Hlt|auto].
    + intros [_ H]. rewrite <- Hxm. auto.
  - apply series_min_None in E. subst w. split; [discriminate|].
    intros [H _]. congruence.
Qed.

Lemma fgt_series_max (c : Q) (w : list Q) :
  fgt (Some c) (series_max w) = true <->
  w <> [] /\ (forall v, v ∈ w -> (v < c)%Q).
Proof.
  unfold fgt, flt. destruct (series_max w) as [m|] eqn:E.
  - destruct (series_max_Some _ _ E) as [Hub [x [Hx Hxm]]].
    rewrite Qltb_lt. split.
    + intros Hlt. split; [intros ->; inversion Hx|].
      intros v Hv. eapply Qle_lt_trans; [|exact Hlt]. auto.
    + intros [_ H]. rewrite <- Hxm. auto.
  - apply series_max_None in E. subst w. split; [discriminate|].
    intros [H _]. congruence.
Qed.

(** The rows of a positional slice. *)
Lemma elem_of_iloc_slice {A} (s : list A) (a b : nat) (v : A) :
  v ∈ iloc_slice s a b <-> exists j, (a <= j < b)%nat /\ s !! j = Some v.
Proof.
  unfold iloc_slice. rewrite elem_of_take. split.
  - intros [i [Hi Hlt]]. rewrite lookup_drop in Hi.
    exists (a + i)%nat. split; [lia|exact Hi].
  - intros [j [Hj Hv]]. exists (j - a)%nat. rewrite lookup_drop.
    replace (a + (j - a))%nat with j by lia. split; [exact Hv|lia].
Qed.

Lemma iloc_slice_nil {A} (s : list A) (a b : nat) :
  iloc_slice s a b = [] <-> (b <= a \/ length s <= a)%nat.
Proof.
  unfold iloc_slice. split.
  - intros H. apply (f_equal length) in H.
    rewrite length_take, length_drop in H. simpl in H. lia.
  - intros H. apply length_zero_iff_nil.
    rewrite length_take, length_drop. lia.
Qed.

(** ** Exponential smoothing *)

Lemma bind_Ok {A B} (a : A) (f : A -> result B) : (Ok a ≫= f) = f a.
Proof. reflexivity. Qed.

Lemma ewm_loop_length alpha st l : length (ewm_loop alpha st l) = length l.
Proof.
  revert st. induction l as [|x l IH]; intros st; simpl; [done|]. by rewrite IH.
Qed.

Lemma ewm_mean_Ok (span : Z) (l : list fval) :
  (1 <= span)%Z -> exists e, ewm_mean span l = Ok e /\ length e = length l.
Proof.
  intros Hs. unfold ewm_mean.
  destruct (span <? 1)%Z eqn:E; [apply Z.ltb_lt in E; lia|].
  destruct l as [|x l]; eexists; (split; [reflexivity|]); simpl; [done|].
  by rewrite ewm_loop_length.
Qed.


End PandasFacts.

(* ===================================================================== *)
(** * Pivots and the hidden bullish detector *)
(* ===================================================================== *)

Module DivergenceFacts.
Import Pandas Config Divergence PandasFacts.

(** ** The loops of the pivot finders as filters *)

Lemma foldl_append_filter {A B} (f : A -> bool) (g : A -> B)
    (l : list A) (acc : list B) :
  foldl (fun idxs i => if f i then idxs ++ [g i] else idxs) acc l
  = acc ++ (g <$> filter (fun i => f i = true) l).
Proof.
  revert acc. induction l as [|x l IH]; intros acc; simpl.
  - by rewrite app_nil_r.
  - rewrite IH. rewrite filter_cons. destruct (f x) eqn:E.
    + rewrite decide_True by reflexivity. rewrite fmap_cons.
      by rewrite <- app_assoc.
    + rewrite decide_False by discriminate. reflexivity.
Qed.

(** The positions at which the loop of [find_pivot_lows] appends. *)
Definition pivot_low_positions (close : Series Q) (k : nat) (strict : bool)
  : list nat :=
  filter (fun i => pivot_low_at close k strict i = true)
         (seq k (length close - k - k)).

Definition pivot_high_positions (close : Series Q) (k : nat) (strict : bool)
  : list nat :=
  filter (fun i => pivot_high_at close k strict i = true)
         (seq k (length close - k - k)).

Definition label_at (close : Series Q) (i : nat) : label := index close !!! i.

Lemma find_pivot_lows_positions close k strict :
  find_pivot_lows close k strict
  = label_at close <$> pivot_low_positions close k strict.
Proof. unfold find_pivot_lows. by rewrite foldl_append_filter. Qed.

Lemma find_pivot_highs_positions close k strict :
  find_pivot_highs close k strict
  = label_at close <$> pivot_high_positions close k strict.
Proof. unfold find_pivot_highs. by rewrite foldl_append_filter. Qed.

Lemma StronglySorted_filter_seq (P : nat -> Prop) `{!forall i, Decision (P i)}
    (a n : nat) :
  StronglySorted lt (filter P (seq a n)).
Proof.
  revert a. induction n as [|n IH]; intros a; simpl; [constructor|].
  rewrite filter_cons. destruct (decide (P a)); [|apply IH].
  constructor; [apply IH|].
  apply Forall_forall. intros x Hx.
  apply list_elem_of_filter in Hx as [_ Hx]. apply elem_of_seq in Hx. lia.
Qed.

Lemma elem_of_pivot_low_positions close k strict i :
  i ∈ pivot_low_positions close k strict <->
  (k <= i /\ i + k < length close)%nat /\ pivot_low_at close k strict i = true.
Proof.
  unfold pivot_low_positions. rewrite list_elem_of_filter, elem_of_seq.
  split; intros [H1 H2]; split; first [lia | assumption].
Qed.

Lemma elem_of_pivot_high_positions close k strict i :
  i ∈ pivot_high_positions close k strict <->
  (k <= i /\ i + k < length close)%nat /\ pivot_high_at close k strict i = true.
Proof.
  unfold pivot_high_positions. rewrite list_elem_of_filter, elem_of_seq.
  split; intros [H1 H2]; split; first [lia | assumption].
Qed.

(** ** The pivot conditions in the words of the specification *)

(** [value(i)] equals the minimum of the window [[i-k, i+k]]. *)
Definition window_minimum (close : Series Q) (k i : nat) : Prop :=
  exists c, values close !! i = Some c /\
    forall j v, (i - k <= j <= i + k)%nat -> values close !! j = Some v ->
                (c <= v)%Q.

(** [value(i)] is strictly less than every value in the [k] positions
    before [i] and every value in the [k] positions after [i]. *)
Definition strictly_lowest (close : Series Q) (k i : nat) : Prop :=
  exists c, values close !! i = Some c /\
    (forall j v, (i - k <= j < i)%nat -> values close !! j = Some v -> (c < v)%Q) /\
    (forall j v, (i < j <= i + k)%nat -> values close !! j = Some v -> (c < v)%Q).

Definition window_maximum (close : Series Q) (k i : nat) : Prop :=
  exists c, values close !! i = Some c /\
    forall j v, (i - k <= j <= i + k)%nat -> values close !! j = Some v ->
                (v <= c)%Q.

Definition strictly_highest (close : Series Q) (k i : nat) : Prop :=
  exists c, values close !! i = Some c /\
    (forall j v, (i - k <= j < i)%nat -> values close !! j = Some v -> (v < c)%Q) /\
    (forall j v, (i < j <= i + k)%nat -> values close !! j = Some v -> (v < c)%Q).

(** Position [i] is interior and satisfies the pivot-low condition. *)
Definition pivot_low_spec (close : Series Q) (k : nat) (strict : bool)
    (i : nat) : Prop :=
  (k <= i /\ i + k < length close)%nat /\
  if strict then strictly_lowest close k i else window_minimum close k i.

Lemma values_length {V} (s : Series V) : length (values s) = length s.
Proof. unfold values. apply length_fmap. Qed.

Lemma pivot_low_at_nonstrict close k i :
  pivot_low_at close k false i = true <-> window_minimum close k i.
Proof.
  unfold pivot_low_at, window_minimum. cbv zeta.
  destruct (values close !! i) as [c|] eqn:Hc.
  - change (negb false) with true. rewrite orb_true_l, andb_true_r.
    rewrite feq_series_min.
    + split.
      * intros H. exists c. split; [reflexivity|]. intros j v Hj Hv.
        apply H. apply elem_of_iloc_slice. exists j. split; [lia|exact Hv].
      * intros [c' [[= <-] H]] v Hv.
        apply elem_of_iloc_slice in Hv as [j [Hj Hv]].
        apply (H j); [lia|exact Hv].
    + apply elem_of_iloc_slice. exists i. split; [lia|exact Hc].
  - split; [discriminate|]. intros [c [H _]]. discriminate.
Qed.

Lemma pivot_low_at_strict close k i :
  (1 <= k)%nat -> (k <= i)%nat -> (i + k < length close)%nat ->
  pivot_low_at close k true i = true <-> strictly_lowest close k i.
Proof.
  intros Hk Hik Hin. unfold pivot_low_at, strictly_lowest. cbv zeta.
  change (negb true) with false.
  destruct (values close !! i) as [c|] eqn:Hc.
  2:{ split; [discriminate|]. intros [c [H _]]. discriminate. }
  assert (Hin' : c ∈ iloc_slice (values close) (i - k) (i + k + 1)).
  { apply elem_of_iloc_slice. exists i. split; [lia|exact Hc]. }
  rewrite orb_false_l, andb_true_iff, andb_true_iff.
  rewrite feq_series_min by exact Hin'.
  rewrite !flt_series_min. split.
  - intros [_ [[_ Hl] [_ Hr]]]. exists c. split; [reflexivity|]. split.
    + intros j v Hj Hv. apply Hl. apply elem_of_iloc_slice. eauto.
    + intros j v Hj Hv. apply Hr. apply elem_of_iloc_slice.
      exists j. split; [lia|exact Hv].
  - intros [c' [[= <-] [Hl Hr]]]. split; [|split; split].
    + intros v Hv. apply elem_of_iloc_slice in Hv as [j [Hj Hv]].
      destruct (lt_eq_lt_dec j i) as [[Hlt|Heq]|Hgt].
      * apply Qlt_le_weak. apply (Hl j); [lia|exact Hv].
      * subst j. rewrite Hc in Hv. injection Hv as <-. apply Qle_refl.
      * apply Qlt_le_weak. apply (Hr j); [lia|exact Hv].
    + rewrite iloc_slice_nil, values_length. lia.
    + intros v Hv. apply elem_of_iloc_slice in Hv as [j [Hj Hv]]. eauto.
    + rewrite iloc_slice_nil, values_length. lia.
    + intros v Hv. apply elem_of_iloc_slice in Hv as [j [Hj Hv]].
      apply (Hr j); [lia|exact Hv].
Qed.

(** The claim on [find_pivot_lows]: the labels returned are those of the
    positions, in increasing order, that satisfy the condition. *)
Definition pivot_lows_claim (close : Series Q) (k : nat) (strict : bool) : Prop :=
  exists ps : list nat,
    find_pivot_lows close k strict = label_at close <$> ps /\
    StronglySorted lt ps /\
    forall i, i ∈ ps <-> pivot_low_spec close k strict i.

(** Claim C2, as amended.  For every series of length [n] and every window
    size [k] (at least 1 when [strict] is true), [find_pivot_lows] returns
    exactly the labels of the interior positions [i] of [[k, n-k)], in
    increasing position, at which the value is the minimum of the window
    [[i-k, i+k]] (non-strict) or is strictly less than every value of the
    [k] positions before [i] and of the [k] positions after [i] (strict);
    the first [k] and the last [k] positions are never returned. *)
Theorem find_pivot_lows_exact (close : Series Q) (k : nat) (strict : bool) :
  strict = false \/ (1 <= k)%nat ->
  pivot_lows_claim close k strict
  /\ (forall i, i ∈ pivot_low_positions close k strict ->
                (k <= i < length close - k)%nat).
Proof.
  intros Hdom. split.
  - exists (pivot_low_positions close k strict). split; [|split].
    + apply find_pivot_lows_positions.
    + apply StronglySorted_filter_seq.
    + intros i. rewrite elem_of_pivot_low_positions. unfold pivot_low_spec.
      destruct strict.
      * destruct Hdom as [?|Hk]; [discriminate|].
        split; intros [Hi H]; (split; [exact Hi|]);
          apply pivot_low_at_strict; (lia || assumption).
      * by rewrite pivot_low_at_nonstrict.
  - intros i Hi. apply elem_of_pivot_low_positions in Hi. lia.
Qed.

Definition one_bar : Series Q := [(0%Z, 5%Q)].

(** Claim C2 as stated fails for [k = 0] in strict mode: on the one-bar
    series position 0 is interior and vacuously below its (empty) side
    windows, and the code returns nothing, the minimum of an empty side
    window being NaN. *)
Lemma find_pivot_lows_k0_strict_counterexample :
  find_pivot_lows one_bar 0 true = [] /\ ~ pivot_lows_claim one_bar 0 true.
Proof.
  split; [reflexivity|].
  intros [ps [Heq [_ Hps]]].
  assert (H0 : 0%nat ∈ ps).
  { apply Hps. split; [simpl; lia|]. exists 5%Q. split; [reflexivity|].
    split; intros j v Hj; lia. }
  destruct ps as [|p ps]; [inversion H0|]. discriminate Heq.
Qed.

Lemma find_pivot_lows_exact_witness :
  (true = false \/ (1 <= 1)%nat)
  /\ pivot_lows_claim [(0%Z, 5%Q); (1%Z, 3%Q); (2%Z, 4%Q)] 1 true.
Proof.
  split; [right; lia|].
  apply (find_pivot_lows_exact [(0%Z, 5%Q); (1%Z, 3%Q); (2%Z, 4%Q)] 1 true).
  right. lia.
Defined.

Lemma filter_sublist_impl {A} (P1 P2 : A -> Prop)
    `{!forall x, Decision (P1 x)} `{!forall x, Decision (P2 x)} (l : list A) :
  (forall x, P1 x -> P2 x) -> sublist (filter P1 l) (filter P2 l).
Proof.
  intros Himp. induction l as [|x l IH]; [constructor|].
  rewrite !filter_cons. destruct (decide (P1 x)) as [H1|H1].
  - rewrite decide_True by auto. by constructor.
  - destruct (decide (P2 x)); [by constructor|exact IH].
Qed.

Lemma pivot_low_at_relax close k i :
  pivot_low_at close k true i = true -> pivot_low_at close k false i = true.
Proof.
  unfold pivot_low_at. cbv zeta. destruct (values close !! i); [|done].
  rewrite !andb_true_iff. intros [H _]. split; [exact H|reflexivity].
Qed.

Lemma pivot_high_at_relax close k i :
  pivot_high_at close k true i = true -> pivot_high_at close k false i = true.
Proof.
  unfold pivot_high_at. cbv zeta. destruct (values close !! i); [|done].
  rewrite !andb_true_iff. intros [H _]. split; [exact H|reflexivity].
Qed.

(** Claim C10.  For every series, every window size and both pivot kinds,
    the positions returned with [strict = true] form a sub-sequence of the
    positions returned with [strict = false], and so do the returned
    labels: relaxing strictness only adds pivots. *)
Theorem strict_pivots_subset (close : Series Q) (k : nat) :
  (sublist (pivot_low_positions close k true) (pivot_low_positions close k false)
   /\ sublist (find_pivot_lows close k true) (find_pivot_lows close k false))
  /\ (sublist (pivot_high_positions close k true)
              (pivot_high_positions close k false)
      /\ sublist (find_pivot_highs close k true) (find_pivot_highs close k false)).
Proof.
  assert (Hl : sublist (pivot_low_positions close k true)
                       (pivot_low_positions close k false)).
  { apply filter_sublist_impl. apply pivot_low_at_relax. }
  assert (Hh : sublist (pivot_high_positions close k true)
                       (pivot_high_positions close k false)).
  { apply filter_sublist_impl. apply pivot_high_at_relax. }
  split; (split; [assumption|]).
  - rewrite !find_pivot_lows_positions. by apply fmap_sublist.
  - rewrite !find_pivot_highs_positions. by apply fmap_sublist.
Qed.

(** ** Label lookups on series with unique labels *)

(** The value stored under label [p] (in its first row). *)
Definition at_label {V} (s : Series V) (p : label) : option V :=
  head (rows_at s p).

Lemma rows_at_cons {V} (r : label * V) (s : Series V) (p : label) :
  rows_at (r :: s) p = if decide (fst r = p) then snd r :: rows_at s p
                       else rows_at s p.
Proof.
  unfold rows_at, values. rewrite filter_cons.
  destruct (decide (fst r = p)); reflexivity.
Qed.

Lemma rows_at_absent {V} (s : Series V) (p : label) :
  p ∉ index s -> rows_at s p = [].
Proof.
  induction s as [|r s IH]; [reflexivity|].
  unfold index. rewrite fmap_cons, not_elem_of_cons. intros [Hne Hni].
  rewrite rows_at_cons, decide_False by congruence. by apply IH.
Qed.

Lemma rows_at_unique {V} (s : Series V) (p : label) :
  NoDup (index s) -> p ∈ index s -> exists v, rows_at s p = [v].
Proof.
  induction s as [|r s IH]; [intros _ H; inversion H|].
  unfold index. rewrite fmap_cons, NoDup_cons, elem_of_cons.
  intros [Hni Hnd] Hin. rewrite rows_at_cons.
  destruct (decide (fst r = p)) as [<-|Hne].
  - exists (snd r). by rewrite (rows_at_absent s (fst r)).
  - destruct Hin as [->|Hin]; [congruence|]. by apply IH.
Qed.

Lemma loc_at_label {V} (s : Series V) (p : label) :
  NoDup (index s) -> p ∈ index s ->
  exists v, loc s p = Ok v /\ at_label s p = Some v.
Proof.
  intros Hnd Hin. destruct (rows_at_unique s p Hnd Hin) as [v Hv].
  exists v. unfold loc, at_label. by rewrite Hv.
Qed.

Lemma index_tail {V} (s : Series V) (n : nat) :
  index (tail s n) = lastn n (index s).
Proof.
  unfold tail, lastn, index. by rewrite fmap_drop, length_fmap.
Qed.

Lemma NoDup_lastn {A} (n : nat) (l : list A) : NoDup l -> NoDup (lastn n l).
Proof.
  intros H. unfold lastn. rewrite <- (take_drop (length l - n) l) in H.
  by apply NoDup_app in H as (_ & _ & H).
Qed.

Lemma index_reindexed {V} (g : label -> V) (target : list label) :
  index (fmap (fun q => (q, g q)) target) = target.
Proof.
  unfold index. induction target as [|q l IH]; [reflexivity|].
  rewrite !fmap_cons. simpl. by rewrite IH.
Qed.

Lemma rows_at_reindexed (g : label -> fval) (target : list label) (p : label) :
  NoDup target -> p ∈ target ->
  rows_at (fmap (fun q => (q, g q)) target) p = [g p].
Proof.
  intros Hnd Hin.
  destruct (rows_at_unique (fmap (fun q => (q, g q)) target) p) as [v Hv].
  - by rewrite index_reindexed.
  - by rewrite index_reindexed.
  - rewrite Hv. f_equal.
    assert (Hm : v ∈ rows_at (fmap (fun q => (q, g q)) target) p)
      by (rewrite Hv; left).
    unfold rows_at, values in Hm.
    apply list_elem_of_fmap in Hm as [[q w] [-> Hm]].
    apply list_elem_of_filter in Hm as [Hq Hm]. simpl in Hq. subst q.
    apply list_elem_of_fmap in Hm as [q [[= <- ->] _]]. reflexivity.
Qed.

Lemma rows_at_fmap_Some (s : Series Q) (p : label) :
  rows_at (fmap (fun r => (fst r, Some (snd r))) s) p = Some <$> rows_at s p.
Proof.
  induction s as [|r s IH]; [reflexivity|].
  rewrite fmap_cons, !rows_at_cons. simpl.
  destruct (decide (fst r = p)); rewrite IH; reflexivity.
Qed.

(** Reindexing a series with unique labels on unique target labels: every
    target label carries the value the source has for it, NaN if none. *)
Lemma reindex_unique (ind : Series Q) (target : list label) :
  NoDup (index ind) -> NoDup target ->
  exists sub_ind, reindex ind target = Ok sub_ind /\
    forall p, p ∈ target -> loc sub_ind p = Ok (at_label ind p).
Proof.
  intros Hi Ht. unfold reindex. destruct (decide (index ind = target)) as [E|E].
  - eexists. split; [reflexivity|]. intros p Hp. unfold loc, at_label.
    rewrite rows_at_fmap_Some. subst target.
    destruct (rows_at_unique ind p Hi Hp) as [v ->]. reflexivity.
  - rewrite decide_True by exact Hi. eexists. split; [reflexivity|].
    intros p Hp. unfold loc.
    rewrite (rows_at_reindexed
               (fun q => match rows_at ind q with v :: _ => Some v | [] => NaN end))
      by assumption.
    unfold at_label. destruct (rows_at ind p); reflexivity.
Qed.

Lemma last_two_Some (piv : list label) (p1 p2 : label) :
  last_two piv = Some (p1, p2) <-> exists earlier, piv = earlier ++ [p1; p2].
Proof.
  unfold last_two. split.
  - destruct (reverse piv) as [|a [|b r]] eqn:E; try discriminate.
    intros [= <- <-]. exists (reverse r).
    rewrite <- (reverse_involutive piv), E.
    rewrite 2!reverse_cons, <- app_assoc. reflexivity.
  - intros [earlier ->]. rewrite reverse_app. reflexivity.
Qed.

Lemma last_two_None (piv : list label) :
  last_two piv = None <-> (length piv < 2)%nat.
Proof.
  unfold last_two. rewrite <- (length_reverse piv).
  destruct (reverse piv) as [|a [|b r]]; simpl; split; try done; lia.
Qed.

Lemma label_at_in_index (close : Series Q) (i : nat) :
  (i < length close)%nat -> label_at close i ∈ index close.
Proof.
  intros Hi. unfold label_at. apply list_elem_of_lookup_total_2.
  unfold index. by rewrite length_fmap.
Qed.

Lemma find_pivot_lows_in_index close k strict p :
  p ∈ find_pivot_lows close k strict -> p ∈ index close.
Proof.
  rewrite find_pivot_lows_positions. intros H.
  apply list_elem_of_fmap in H as [i [-> Hi]].
  apply elem_of_pivot_low_positions in Hi. apply label_at_in_index. lia.
Qed.

Lemma flt_true (a b : fval) :
  flt a b = true <-> exists x y, a = Some x /\ b = Some y /\ (x < y)%Q.
Proof.
  unfold flt. destruct a as [x|], b as [y|].
  - rewrite Qltb_lt. split; [eauto|]. by intros (? & ? & [= <-] & [= <-] & ?).
  - split; [done|]. by intros (? & ? & _ & ? & _).
  - split; [done|]. by intros (? & ? & ? & _).
  - split; [done|]. by intros (? & ? & ? & _).
Qed.

(** ** The trend gate *)

Lemma last_cons_is_Some {A} (x : A) (l : list A) : is_Some (last (x :: l)).
Proof.
  revert x. induction l as [|y l IH]; intros x; [by eexists|].
  change (last (x :: y :: l)) with (last (y :: l)). apply IH.
Qed.

Lemma bull_trend_ok_disabled settings close :
  use_trend_filter settings = false -> _bull_trend_ok settings close = Ok true.
Proof. intros H. unfold _bull_trend_ok. by rewrite H. Qed.

Lemma bull_trend_ok_short settings close :
  use_trend_filter settings = true ->
  (length close < ema_period settings + 5)%nat ->
  _bull_trend_ok settings close = Ok false.
Proof.
  intros H Hlen. unfold _bull_trend_ok, dropna. rewrite H. simpl.
  apply Nat.ltb_lt in Hlen. by rewrite Hlen.
Qed.

Lemma iloc_last_Ok {A} (l : list A) :
  (0 < length l)%nat -> exists x, iloc_last l = Ok x.
Proof.
  destruct l as [|x l]; simpl; [lia|]. intros _.
  destruct (last_cons_is_Some x l) as [y Hy].
  exists y. unfold iloc_last. by rewrite Hy.
Qed.

Lemma bull_trend_ok_total settings close :
  (use_trend_filter settings = true -> (1 <= ema_period settings)%nat) ->
  exists b, _bull_trend_ok settings close = Ok b.
Proof.
  intros Hp. unfold _bull_trend_ok, dropna.
  destruct (use_trend_filter settings); simpl; [|by eexists].
  destruct (length close <? ema_period settings + 5)%nat eqn:E; [by eexists|].
  apply Nat.ltb_ge in E. unfold _ema.
  destruct (ewm_mean_Ok (Z.of_nat (ema_period settings)) (Some <$> values close))
    as [e [-> He]]; [specialize (Hp eq_refl); lia|].
  rewrite length_fmap, values_length in He.
  destruct (iloc_last_Ok (values close)) as [x Hx];
    [rewrite values_length; lia|].
  destruct (iloc_last_Ok e) as [y Hy]; [lia|].
  simpl. rewrite Hx. simpl. rewrite Hy. simpl. by eexists.
Qed.


(** A window with pivot lows 3 and 4 at labels 1 and 3, with the indicator
    falling from 3 to 2, and the trend filter switched off. *)
Definition filter_off : Settings := with_trend_filter false default_settings.

Definition higher_low : Series Q :=
  [(0%Z, 5%Q); (1%Z, 3%Q); (2%Z, 5%Q); (3%Z, 4%Q); (4%Z, 6%Q); (5%Z, 7%Q)].

Definition lower_low : Series Q :=
  [(0%Z, 5%Q); (1%Z, 3%Q); (2%Z, 5%Q); (3%Z, 2%Q); (4%Z, 6%Q); (5%Z, 7%Q)].


(** Claim C1 for one input, as stated, with no condition on the
    timestamps: a detection is returned exactly when the window has at
    least two pivot lows, the last two of them, at positions [i1] and
    [i2], have a higher price and a lower indicator at [i2], and the gate
    passes. *)
Definition hidden_bullish_claim (settings : Settings) (close ind : Series Q)
    (lookback k : nat) : Prop :=
  let window := tail close lookback in
  let wind := tail ind lookback in
  (exists d, detect_hidden_bullish settings close ind lookback k = Ok (Some d))
  <-> exists earlier i1 i2 c1 c2 v1 v2,
        pivot_low_positions window k true = earlier ++ [i1; i2] /\
        values window !! i1 = Some c1 /\ values window !! i2 = Some c2 /\
        (c1 < c2)%Q /\
        values wind !! i1 = Some v1 /\ values wind !! i2 = Some v2 /\
        (v2 < v1)%Q /\
        _bull_trend_ok settings window = Ok true.

(** A series in which the bar of instant 60 occurs twice, at positions 1
    and 3, with the same price and the same indicator value. *)
Definition replayed_close : Series Q :=
  [(0%Z, 3%Q); (60%Z, 1%Q); (120%Z, 3%Q); (60%Z, 1%Q); (240%Z, 3%Q);
   (300%Z, 2%Q); (360%Z, 3%Q)].

Definition replayed_ind : Series Q :=
  [(0%Z, 50%Q); (60%Z, 40%Q); (120%Z, 50%Q); (60%Z, 40%Q); (240%Z, 50%Q);
   (300%Z, 30%Q); (360%Z, 50%Q)].


End DivergenceFacts.

(* ===================================================================== *)
(** * RSI and TSI *)
(* ===================================================================== *)

Module IndicatorFacts.
Import Pandas Indicators PandasFacts.

Lemma alpha_range (span : Z) :
  (1 <= span)%Z -> (0 < alpha_of_span span)%Q /\ (alpha_of_span span <= 1)%Q.
Proof.
  intros H. unfold alpha_of_span, Qlt, Qle. simpl.
  rewrite Z2Pos.id by lia. lia.
Qed.

(** One smoothing step on non-negative data stays non-negative. *)
Lemma ewm_step_nonneg (alpha w c : Q) :
  (0 < alpha)%Q -> (alpha <= 1)%Q -> (0 <= w)%Q -> (0 <= c)%Q ->
  exists w', ewm_step alpha (Some w, 1%Q) (Some c) = (Some w', 1%Q)
             /\ (0 <= w')%Q.
Proof.
  intros Ha0 Ha1 Hw Hc. unfold ewm_step.
  destruct (Qeq_bool w c); [by exists w|].
  eexists. split; [reflexivity|].
  apply Qle_shift_div_l; [lra|].
  assert (0 <= (1 - alpha) * w)%Q by (apply Qmult_le_0_compat; lra).
  assert (0 <= alpha * c)%Q by (apply Qmult_le_0_compat; lra).
  lra.
Qed.

Lemma ewm_loop_nonneg (alpha w : Q) (l : list Q) :
  (0 < alpha)%Q -> (alpha <= 1)%Q -> (0 <= w)%Q -> Forall (Qle 0) l ->
  exists e, ewm_loop alpha (Some w, 1%Q) (Some <$> l) = Some <$> e
            /\ Forall (Qle 0) e.
Proof.
  intros Ha0 Ha1 Hw Hl. revert w Hw.
  induction Hl as [|c l Hc Hl IH]; intros w Hw.
  - by exists [].
  - destruct (ewm_step_nonneg alpha w c Ha0 Ha1 Hw Hc) as [w' [Hs Hw']].
    destruct (IH w' Hw') as [e [He Hpos]].
    exists (w' :: e). rewrite fmap_cons. cbn [ewm_loop]. rewrite Hs. simpl.
    rewrite He. split; [reflexivity|]. by constructor.
Qed.

Lemma ewm_mean_nonneg (span : Z) (l : list Q) :
  (1 <= span)%Z -> Forall (Qle 0) l ->
  exists e, ewm_mean span (Some <$> l) = Ok (Some <$> e)
            /\ Forall (Qle 0) e /\ length e = length l.
Proof.
  intros Hs Hl. destruct (alpha_range span Hs) as [Ha0 Ha1].
  unfold ewm_mean. destruct (span <? 1)%Z eqn:E; [apply Z.ltb_lt in E; lia|].
  destruct Hl as [|x l Hx Hl]; [by exists []|].
  destruct (ewm_loop_nonneg (alpha_of_span span) x l Ha0 Ha1 Hx Hl)
    as [e [He Hpos]].
  exists (x :: e). rewrite !fmap_cons. cbv iota beta. rewrite He.
  split; [reflexivity|]. split; [by constructor|].
  apply (f_equal length) in He. rewrite ewm_loop_length in He.
  simpl. rewrite !length_fmap in He. by rewrite He.
Qed.


(** Smoothing a series of zeros gives zeros. *)
Lemma ewm_loop_zeros (alpha : Q) (n : nat) :
  ewm_loop alpha (Some 0%Q, 1%Q) (replicate n (Some 0%Q))
  = replicate n (Some 0%Q).
Proof.
  induction n as [|n IH]; [reflexivity|]. simpl. by rewrite IH.
Qed.

Lemma ewm_mean_zeros (span : Z) (n : nat) :
  (1 <= span)%Z ->
  ewm_mean span (replicate n (Some 0%Q)) = Ok (replicate n (Some 0%Q)).
Proof.
  intros Hs. unfold ewm_mean.
  destruct (span <? 1)%Z eqn:E; [apply Z.ltb_lt in E; lia|].
  destruct n as [|n]; [reflexivity|]. simpl. by rewrite ewm_loop_zeros.
Qed.

Lemma diff_from_length prev l : length (diff_from prev l) = length l.
Proof.
  revert prev. induction l as [|x l IH]; intros prev; simpl; [done|].
  by rewrite IH.
Qed.

Lemma diff_length l : length (diff l) = length l.
Proof. destruct l; simpl; [done|]. by rewrite diff_from_length. Qed.

(** A delta that is not a loss. *)
Definition no_loss (d : fval) : Prop := forall x, d = Some x -> (0 <= x)%Q.

Lemma loss_of_no_loss (d : fval) : no_loss d -> loss_of d = 0%Q.
Proof.
  intros H. unfold loss_of. destruct d as [x|]; [|reflexivity].
  destruct (Qltb x 0) eqn:E; [|reflexivity].
  apply Qltb_lt in E. specialize (H x eq_refl). lra.
Qed.

Lemma loss_no_loss (deltas : list fval) :
  Forall no_loss deltas ->
  Some <$> (loss_of <$> deltas) = replicate (length deltas) (Some 0%Q).
Proof.
  induction 1 as [|d l Hd Hl IH]; [reflexivity|].
  rewrite !fmap_cons, IH, loss_of_no_loss by exact Hd. reflexivity.
Qed.

Lemma bfill_all_nan (n : nat) : bfill (replicate n NaN) = replicate n NaN.
Proof.
  induction n as [|n IH]; [reflexivity|]. simpl. rewrite IH.
  destruct n; reflexivity.
Qed.

Lemma gain_of_nonneg (d : fval) : (0 <= gain_of d)%Q.
Proof.
  unfold gain_of. destruct d as [x|]; [|lra].
  destruct (Qltb 0 x) eqn:E; [|lra]. apply Qltb_lt in E. lra.
Qed.

Lemma loss_of_nonneg (d : fval) : (0 <= loss_of d)%Q.
Proof.
  unfold loss_of. destruct d as [x|]; [|lra].
  destruct (Qltb x 0) eqn:E; [|lra]. apply Qltb_lt in E. lra.
Qed.

Lemma rsi_gain_ema_nonneg (period : Z) (close : list Q) :
  (1 <= period)%Z ->
  exists e, rsi_gain_ema period close = Ok (Some <$> e)
            /\ Forall (Qle 0) e /\ length e = length close.
Proof.
  intros Hp. unfold rsi_gain_ema.
  destruct (ewm_mean_nonneg period (gain_of <$> diff close) Hp)
    as [e [He [Hpos Hlen]]].
  { apply Forall_fmap, Forall_forall. intros d _. apply gain_of_nonneg. }
  exists e. rewrite length_fmap, diff_length in Hlen. done.
Qed.

Lemma rsi_loss_ema_nonneg (period : Z) (close : list Q) :
  (1 <= period)%Z ->
  exists e, rsi_loss_ema period close = Ok (Some <$> e)
            /\ Forall (Qle 0) e /\ length e = length close.
Proof.
  intros Hp. unfold rsi_loss_ema.
  destruct (ewm_mean_nonneg period (loss_of <$> diff close) Hp)
    as [e [He [Hpos Hlen]]].
  { apply Forall_fmap, Forall_forall. intros d _. apply loss_of_nonneg. }
  exists e. rewrite length_fmap, diff_length in Hlen. done.
Qed.

(** A raw RSI value: NaN, or a number of [[0, 100]]. *)
Definition in_range (v : fval) : Prop :=
  forall x, v = Some x -> (0 <= x)%Q /\ (x <= 100)%Q.

(** One position of [rsi]: the divisor is NaN or positive, [1 + rs] is at
    least 1, and the value is in range. *)
Lemma rsi_position_in_range (g l : Q) :
  (0 <= g)%Q -> (0 <= l)%Q ->
  in_range (rsi_of_rs (fdiv (Some g) (if Qeq_bool l 0 then NaN else Some l))).
Proof.
  intros Hg Hl x. destruct (Qeq_bool l 0) eqn:E; [discriminate|].
  simpl. rewrite E. unfold rsi_of_rs. simpl.
  assert (Hl0 : ~ (l == 0)%Q) by (intros H; apply Qeq_bool_iff in H; congruence).
  assert (Hlpos : (0 < l)%Q).
  { destruct (Qlt_le_dec 0 l); [done|]. exfalso. apply Hl0. lra. }
  assert (Hrs : (0 <= g / l)%Q) by (apply Qle_shift_div_l; lra).
  destruct (Qeq_bool (1 + g / l) 0) eqn:E1.
  { apply Qeq_bool_iff in E1. lra. }
  intros [= <-].
  assert (H1 : (0 < 1 + g / l)%Q) by lra.
  assert (H2 : (0 <= 100 / (1 + g / l))%Q) by (apply Qle_shift_div_l; lra).
  assert (H3 : (100 / (1 + g / l) <= 100)%Q) by (apply Qle_shift_div_r; lra).
  lra.
Qed.

Lemma rsi_positions_in_range (ge le : list Q) :
  Forall (Qle 0) ge -> Forall (Qle 0) le ->
  Forall in_range
    (rsi_of_rs <$> zip_with fdiv (Some <$> ge) (replace_zero_nan (Some <$> le))).
Proof.
  intros Hg. revert le. induction Hg as [|g ge Hg0 Hg IH]; intros le Hl.
  - constructor.
  - destruct Hl as [|l le Hl0 Hl]; [constructor|].
    unfold replace_zero_nan. rewrite !fmap_cons. cbn [zip_with]. rewrite fmap_cons.
    constructor; [by apply rsi_position_in_range|].
    by apply IH.
Qed.

Lemma bfill_length (l : list fval) : length (bfill l) = length l.
Proof.
  induction l as [|v l IH]; [reflexivity|]. simpl.
  destruct v; simpl; [by rewrite IH|].
  destruct (bfill l) eqn:E; simpl in *; by rewrite <- IH.
Qed.

Lemma bfill_Forall (P : fval -> Prop) (l : list fval) :
  P NaN -> Forall P l -> Forall P (bfill l).
Proof.
  intros HN. induction 1 as [|v l Hv Hl IH]; [constructor|]. simpl.
  destruct v; [by constructor|].
  destruct (bfill l) as [|nxt r'] eqn:E; [by constructor|].
  constructor; [|exact IH]. by inversion IH.
Qed.

Lemma fillna_length d l : length (fillna d l) = length l.
Proof. unfold fillna. apply length_fmap. Qed.

Lemma fillna_in_range (d : Q) (l : list fval) :
  (0 <= d)%Q /\ (d <= 100)%Q -> Forall in_range l ->
  Forall (fun x => (0 <= x)%Q /\ (x <= 100)%Q) (fillna d l).
Proof.
  intros Hd Hl. unfold fillna. apply Forall_fmap.
  eapply Forall_impl; [exact Hl|]. intros [x|] Hx; simpl; [by apply Hx|exact Hd].
Qed.

Lemma rsi_raw_in_range (period : Z) (close : list Q) :
  (1 <= period)%Z ->
  exists raw, rsi_raw period close = Ok raw
              /\ length raw = length close /\ Forall in_range raw.
Proof.
  intros Hp. unfold rsi_raw.
  destruct (rsi_gain_ema_nonneg period close Hp) as [ge [-> [Hg Hgl]]].
  destruct (rsi_loss_ema_nonneg period close Hp) as [le [-> [Hl Hll]]].
  simpl. eexists. split; [reflexivity|]. split.
  - unfold replace_zero_nan.
    rewrite length_fmap, length_zip_with, !length_fmap. lia.
  - by apply rsi_positions_in_range.
Qed.

(** Every value of [RSI.compute] is in [[0, 100]] (exact arithmetic). *)
Lemma rsi_compute_bounded (period : Z) (close : list Q) :
  (1 <= period)%Z ->
  exists r, rsi_compute period close = Ok r
            /\ length r = length close
            /\ Forall (fun x => (0 <= x)%Q /\ (x <= 100)%Q) r.
Proof.
  intros Hp. unfold rsi_compute.
  destruct (rsi_raw_in_range period close Hp) as [raw [-> [Hlen Hr]]].
  simpl. eexists. split; [reflexivity|]. split.
  - by rewrite fillna_length, bfill_length.
  - apply fillna_in_range; [lra|]. apply bfill_Forall; [|exact Hr].
    intros x. discriminate.
Qed.

Lemma replace_zero_nan_zeros (n : nat) :
  replace_zero_nan (replicate n (Some 0%Q)) = replicate n NaN.
Proof.
  unfold replace_zero_nan. by rewrite fmap_replicate.
Qed.

Lemma zip_with_fdiv_nan (l : list fval) (n : nat) :
  length l = n -> zip_with fdiv l (replicate n NaN) = replicate n NaN.
Proof.
  revert n. induction l as [|a l IH]; intros [|n] Hlen; simpl in *; try done.
  rewrite IH by lia. by destruct a.
Qed.

Lemma fmap_rsi_of_rs_nan (n : nat) :
  rsi_of_rs <$> replicate n NaN = replicate n NaN.
Proof. by rewrite fmap_replicate. Qed.

Lemma fillna_nan (d : Q) (n : nat) :
  fillna d (replicate n NaN) = replicate n d.
Proof.
  unfold fillna. by rewrite fmap_replicate.
Qed.

(** Without any loss in the series the smoothed loss is 0 everywhere, the
    ratio is NaN everywhere, and the final fill puts 50 everywhere. *)
Lemma rsi_compute_no_loss (period : Z) (close : list Q) :
  (1 <= period)%Z -> Forall no_loss (diff close) ->
  rsi_loss_ema period close = Ok (replicate (length close) (Some 0%Q))
  /\ rsi_compute period close = Ok (replicate (length close) 50%Q).
Proof.
  intros Hp Hd.
  assert (Hloss : rsi_loss_ema period close
                  = Ok (replicate (length close) (Some 0%Q))).
  { unfold rsi_loss_ema. rewrite loss_no_loss by exact Hd.
    rewrite diff_length. by apply ewm_mean_zeros. }
  split; [exact Hloss|].
  unfold rsi_compute, rsi_raw. rewrite Hloss.
  destruct (rsi_gain_ema_nonneg period close Hp) as [ge [-> [_ Hgl]]].
  simpl. rewrite replace_zero_nan_zeros.
  rewrite zip_with_fdiv_nan by (by rewrite length_fmap).
  by rewrite fmap_rsi_of_rs_nan, bfill_all_nan, fillna_nan.
Qed.

(** [replace(0, np.nan)] leaves no zero divisor. *)
Lemma replace_zero_nan_nonzero (l : list fval) :
  Forall (fun v => forall x, v = Some x -> ~ (x == 0)%Q) (replace_zero_nan l).
Proof.
  unfold replace_zero_nan. apply Forall_fmap, Forall_forall.
  intros [x|] _ y; simpl; [|discriminate].
  destruct (Qeq_bool x 0) eqn:E; [discriminate|]. intros [= <-] H.
  apply Qeq_bool_iff in H. congruence.
Qed.

Definition rising : list Q := [100; 101; 102]%Q.

(** Claim C3 at a rising series: every delta of [100, 101, 102] is
    non-negative, the smoothed loss is 0 at every position, and
    [RSI(14).compute] returns 50 at every position, where the claim (and
    the docstring of the method) says 100. *)
Lemma rsi_rising_is_50 :
  Forall no_loss (diff rising)
  /\ rsi_loss_ema 14 rising = Ok [Some 0; Some 0; Some 0]%Q
  /\ rsi_compute 14 rising = Ok [50; 50; 50]%Q.
Proof.
  split; [|split]; [|reflexivity|reflexivity].
  repeat constructor; intros x [= <-]; by vm_compute.
Qed.

(** ** TSI *)

Definition flat_then_up : list Q := [1; 1; 2]%Q.

(** Claim C4 at the series [1, 1, 2]: position 0 has no momentum yet and
    at position 1 the doubly-smoothed absolute momentum is 0, and
    [TSI(25, 13).compute] returns 100 at both positions, the value of
    position 2 propagated backward, where the claim (and the comment of the
    method) says 0. *)
Lemma tsi_flat_then_up_backfilled :
  exists d v0 v1 v2,
    tsi_ema2_abs_momentum 25 13 flat_then_up = Ok [NaN; Some 0%Q; Some d]
    /\ tsi_compute 25 13 flat_then_up = Ok [v0; v1; v2]
    /\ (v0 == 100)%Q /\ (v1 == 100)%Q /\ (v2 == 100)%Q.
Proof.
  do 4 eexists. split; [reflexivity|]. split; [reflexivity|].
  repeat split; reflexivity.
Qed.

Lemma ewm_mean_leading_nan (span : Z) (m : Q) (l : list fval) :
  (1 <= span)%Z ->
  exists r, ewm_mean span (NaN :: Some m :: l) = Ok (NaN :: Some m :: r)
            /\ length r = length l.
Proof.
  intros Hs. unfold ewm_mean.
  destruct (span <? 1)%Z eqn:E; [apply Z.ltb_lt in E; lia|].
  simpl. eexists. split; [reflexivity|]. apply ewm_loop_length.
Qed.

(** The first position of the TSI has no momentum (its delta is NaN); it
    receives the value of the second position, which is 100 or -100 as soon
    as the first two prices differ. *)
Lemma tsi_compute_first_backfilled (long short : Z) (c0 c1 : Q) (rest : list Q) :
  (1 <= long)%Z -> (1 <= short)%Z -> ~ (c0 == c1)%Q ->
  exists v r, tsi_compute long short (c0 :: c1 :: rest) = Ok (v :: v :: r)
              /\ ((v == 100)%Q \/ (v == -100)%Q).
Proof.
  intros Hl Hs Hne. unfold tsi_compute, tsi_raw.
  unfold tsi_ema2_momentum, tsi_ema2_abs_momentum. cbn [diff diff_from fmap list_fmap fabs].
  destruct (ewm_mean_leading_nan long (c1 - c0) (diff_from c1 rest) Hl)
    as [r1 [-> _]].
  rewrite bind_Ok.
  destruct (ewm_mean_leading_nan short (c1 - c0) r1 Hs) as [r2 [-> _]].
  rewrite bind_Ok.
  destruct (ewm_mean_leading_nan long (Qabs (c1 - c0)) (fabs <$> diff_from c1 rest) Hl)
    as [r3 [-> _]].
  rewrite bind_Ok.
  destruct (ewm_mean_leading_nan short (Qabs (c1 - c0)) r3 Hs) as [r4 [-> _]].
  rewrite !bind_Ok.
  cbn [replace_zero_nan fmap list_fmap zip_with].
  assert (Habs : ~ (Qabs (c1 - c0) == 0)%Q).
  { intros H. apply Hne. 
    destruct (Qlt_le_dec (c1 - c0) 0) as [Hneg|Hpos].
    - rewrite Qabs_neg in H by lra. lra.
    - rewrite Qabs_pos in H by lra. lra. }
  assert (E : Qeq_bool (Qabs (c1 - c0)) 0 = false).
  { destruct (Qeq_bool _ _) eqn:E; [|done]. apply Qeq_bool_iff in E. done. }
  rewrite E. cbn [fdiv]. rewrite E. cbn [fmul flift2 bfill fillna fmap list_fmap].
  do 2 eexists. split; [reflexivity|].
  destruct (Qlt_le_dec (c1 - c0) 0) as [Hneg|Hpos].
  - right. rewrite Qabs_neg by lra. field. lra.
  - left. rewrite Qabs_pos by lra. field. lra.
Qed.

End IndicatorFacts.

(* ===================================================================== *)
(** * The tiered loader *)
(* ===================================================================== *)

Module LoaderFacts.
Import Pandas Config Loader PandasFacts.

(** Expose the first computation of a sequence [x ← m; k]. *)
Ltac run_first := unfold mbind at 1; unfold IO_bind at 1.

(** ** Rounding *)

Lemma py_int_nonneg (x : Q) : (0 <= Qnum x)%Z -> py_int x = Qfloor x.
Proof.
  intros H. unfold py_int. destruct x as [n d]. simpl in *.
  apply Z.quot_div_nonneg; lia.
Qed.

Lemma py_int_le_ceiling (x : Q) : (py_int x <= Qceiling x)%Z.
Proof.
  destruct (Z_le_gt_dec 0 (Qnum x)) as [H|H].
  - rewrite py_int_nonneg by exact H.
    pose proof (Qle_floor_ceiling x) as Hfc. unfold Qle in Hfc. simpl in Hfc. lia.
  - unfold py_int, Qceiling. destruct x as [n d]. simpl in *.
    replace n with (- (- n))%Z at 1 by lia.
    rewrite Z.quot_opp_l by lia.
    rewrite Z.quot_div_nonneg by lia. lia.
Qed.

Lemma fetch_limit_ge (limit : nat) :
  (Z.of_nat limit <= py_int (Q_of_nat limit * (12 # 10)))%Z.
Proof.
  rewrite py_int_nonneg by (simpl; lia).
  unfold Qfloor, Q_of_nat. simpl.
  apply Z.div_le_lower_bound; lia.
Qed.

Lemma required_bars_le_fetch (limit : nat) (s : Q) :
  (0 <= s)%Q -> (s <= 12 # 10)%Q ->
  (py_int (Q_of_nat limit * s) <= py_int (Q_of_nat limit * (12 # 10)))%Z.
Proof.
  intros Hs0 Hs1.
  assert (Hl : (0 <= Q_of_nat limit)%Q) by (unfold Q_of_nat, Qle; simpl; lia).
  rewrite !py_int_nonneg.
  - apply Qfloor_resp_le. nra.
  - simpl. lia.
  - unfold Qle in Hs0. simpl in *. nia.
Qed.

Lemma ceiling_positive (limit : nat) (s : Q) :
  (1 <= limit)%nat -> (0 < s)%Q -> (1 <= Qceiling (Q_of_nat limit * s))%Z.
Proof.
  intros Hl Hs.
  assert (H : (0 < Q_of_nat limit * s)%Q).
  { apply Qmult_lt_0_compat; [|exact Hs]. unfold Q_of_nat, Qlt. simpl. lia. }
  pose proof (Qle_ceiling (Q_of_nat limit * s)) as Hc.
  assert (Hlt : (0 < inject_Z (Qceiling (Q_of_nat limit * s)))%Q) by lra.
  unfold Qlt in Hlt. simpl in Hlt. lia.
Qed.

(** ** Floats and dates *)

Lemma required_bars_finite settings limit s :
  data_sufficiency_threshold settings = Finite s ->
  required_bars settings limit = Ok (py_int (Q_of_nat limit * s)).
Proof. intros H. unfold required_bars. by rewrite H. Qed.

(** The required count can be computed: the sufficiency threshold is a
    finite number, and neither it nor the target is beyond [2^53] in
    size (the float product [limit * threshold] of the code is then a
    finite float as well). *)
Definition threshold_valid (settings : Settings) (limit : nat) : Prop :=
  (Z.of_nat limit <= 2 ^ 53)%Z
  /\ exists s, data_sufficiency_threshold settings = Finite s
               /\ (Qabs s <= inject_Z (2 ^ 53))%Q.

Lemma required_bars_valid settings limit :
  threshold_valid settings limit ->
  exists required, required_bars settings limit = Ok required.
Proof.
  intros (_ & s & Hs & _). eexists. by apply required_bars_finite.
Qed.

(** The window of the provider tier can be extended: the safety margin is
    a finite number between 1 and 2, and [start] is a [datetime] that lies
    at least [days] days after the first one. *)
Definition fetch_window_valid (settings : Settings) (days : nat) (start : Z)
  : Prop :=
  (exists m, fetch_safety_margin settings = Finite m
             /\ (1 <= m)%Q /\ (m <= 2)%Q)
  /\ (datetime_min + Z.of_nat days * seconds_per_day <= start)%Z
  /\ (start <= datetime_max)%Z.

Lemma margin_days_range (days : nat) (m : Q) :
  (1 <= m)%Q -> (m <= 2)%Q ->
  (0 <= py_int (Q_of_nat days * (m - 1)) <= Z.of_nat days)%Z.
Proof.
  intros H1 H2.
  assert (Hd : (0 <= Q_of_nat days)%Q) by (unfold Q_of_nat, Qle; simpl; lia).
  assert (H0 : (0 <= Q_of_nat days * (m - 1))%Q) by nra.
  assert (Hle : (Q_of_nat days * (m - 1) <= Q_of_nat days)%Q) by nra.
  rewrite py_int_nonneg.
  - split.
    + apply Qfloor_resp_le in H0. exact H0.
    + apply Qfloor_resp_le in Hle. unfold Q_of_nat in Hle at 2.
      by rewrite Qfloor_Z in Hle.
  - revert H0. generalize (Q_of_nat days * (m - 1))%Q. intros [n d].
    unfold Qle. simpl. lia.
Qed.

Lemma timedelta_days_Ok (n : Z) :
  (Z.abs n <= 999999999)%Z -> timedelta_days n = Ok (n * seconds_per_day)%Z.
Proof.
  intros H. unfold timedelta_days.
  by destruct (Z.leb_spec (Z.abs n) 999999999); [|lia].
Qed.

Lemma datetime_sub_Ok (dt delta : Z) :
  (datetime_min <= dt - delta)%Z -> (dt - delta <= datetime_max)%Z ->
  datetime_sub dt delta = Ok (dt - delta)%Z.
Proof.
  intros H1 H2. unfold datetime_sub. cbv zeta.
  destruct (Z.leb_spec datetime_min (dt - delta)); [|lia].
  by destruct (Z.leb_spec (dt - delta) datetime_max); [|lia].
Qed.

Lemma extended_start_valid settings days start :
  fetch_window_valid settings days start ->
  exists ext,
    extended_start settings days start = Ok ext
    /\ (start - Z.of_nat days * seconds_per_day <= ext)%Z /\ (ext <= start)%Z.
Proof.
  intros [(m & Hm & H1 & H2) [Hlo Hhi]].
  pose proof (margin_days_range days m H1 H2) as Hn.
  unfold extended_start. rewrite Hm.
  cbn [float_sub float_of_nat float_mul int_of_float]. rewrite bind_Ok.
  unfold datetime_min, datetime_max, seconds_per_day in Hlo, Hhi.
  rewrite timedelta_days_Ok by lia. rewrite bind_Ok.
  rewrite datetime_sub_Ok
    by (unfold datetime_min, datetime_max, seconds_per_day; lia).
  eexists. split; [reflexivity|]. unfold seconds_per_day. lia.
Qed.

(** The start of a request that names none, when the window is valid for
    the start it computes. *)
Lemma request_start_valid settings (days : nat) (end_ : Z) (start : option Z) :
  fetch_window_valid settings days
    (from_option id (end_ - Z.of_nat days * seconds_per_day)%Z start) ->
  request_start days end_ start
  = Ok (from_option id (end_ - Z.of_nat days * seconds_per_day)%Z start).
Proof.
  intros (_ & Hlo & Hhi). destruct start as [start|]; [reflexivity|].
  cbn [from_option] in Hlo, Hhi. cbn [request_start from_option].
  unfold default_start.
  unfold datetime_min, datetime_max, seconds_per_day in Hlo, Hhi.
  rewrite timedelta_days_Ok by lia. rewrite bind_Ok.
  by rewrite datetime_sub_Ok
    by (unfold datetime_min, datetime_max, seconds_per_day; lia).
Qed.

Lemma bind_lift_Ok {A B} (a : A) (f : A -> IO B) tr :
  (lift (Ok a) ≫= f) tr = f a tr.
Proof. reflexivity. Qed.

Lemma bind_lift_Raise {A B} (e : string) (f : A -> IO B) tr :
  (lift (Raise e) ≫= f) tr = (Raise e, tr).
Proof. reflexivity. Qed.

(** ** Slices *)

Lemma reverse_take_reverse {A} (l : list A) (n : nat) :
  reverse (take n (reverse l)) = lastn n l.
Proof. unfold lastn. by rewrite take_reverse, reverse_involutive. Qed.

Lemma lastn_length {A} (n : nat) (l : list A) :
  length (lastn n l) = min n (length l).
Proof. unfold lastn. rewrite length_drop. lia. Qed.

Lemma lastn_lastn {A} (n m : nat) (l : list A) :
  (n <= m)%nat -> lastn n (lastn m l) = lastn n l.
Proof.
  intros H. unfold lastn. rewrite length_drop, drop_drop. f_equal. lia.
Qed.

Lemma lastn_all {A} (n : nat) (l : list A) :
  (length l <= n)%nat -> lastn n l = l.
Proof.
  intros H. unfold lastn. replace (length l - n)%nat with 0%nat by lia.
  apply drop_0.
Qed.

Lemma empty_false_length (df : DataFrame) :
  (0 < length df)%nat -> empty df = false.
Proof. destruct df; simpl; [lia|done]. Qed.

Lemma empty_true (df : DataFrame) : empty df = true -> df = [].
Proof. by destruct df. Qed.

(** ** The store tier *)

(** [_load_from_database] when the query answers: the most recent
    [fetch_limit] rows, oldest first. *)
Lemma load_from_database_ok self symbol limit start end_ rows tr :
  db_rows (world self) symbol start end_ = Ok rows ->
  _load_from_database self symbol limit start end_ tr
  = (Ok (lastn (Z.to_nat (py_int (Q_of_nat limit * (12 # 10)))) rows),
     tr ++ [DbQuery symbol (py_int (Q_of_nat limit * (12 # 10))) start end_]).
Proof.
  intros Hq. unfold _load_from_database, try_except, db_execute, perform.
  unfold mbind, IO_bind, mret, IO_ret. rewrite Hq.
  rewrite <- reverse_take_reverse.
  destruct (take _ (reverse rows)); reflexivity.
Qed.

Lemma load_from_database_raise self symbol limit start end_ e tr :
  db_rows (world self) symbol start end_ = Raise e ->
  _load_from_database self symbol limit start end_ tr
  = (Ok [],
     tr ++ [DbQuery symbol (py_int (Q_of_nat limit * (12 # 10))) start end_]).
Proof.
  intros Hq. unfold _load_from_database, try_except, db_execute, perform.
  unfold mbind, IO_bind, mret, IO_ret. by rewrite Hq.
Qed.


(** ** Traces only grow; computations that never raise *)

Definition grows {A} (m : IO A) : Prop :=
  forall tr, exists evs, snd (m tr) = tr ++ evs.

Definition begins_with {A} (ev : event) (m : IO A) : Prop :=
  forall tr, exists evs, snd (m tr) = tr ++ ev :: evs.

Definition never_raises {A} (m : IO A) : Prop :=
  forall tr, exists a tr', m tr = (Ok a, tr').

Lemma grows_ret {A} (a : A) : grows (mret a).
Proof. intros tr. exists []. by rewrite app_nil_r. Qed.

Lemma grows_perform {A} ev (r : result A) : grows (perform ev r).
Proof. intros tr. by exists [ev]. Qed.

Lemma grows_bind {A B} (m : IO A) (f : A -> IO B) :
  grows m -> (forall a, grows (f a)) -> grows (m ≫= f).
Proof.
  intros Hm Hf tr. unfold mbind, IO_bind. destruct (Hm tr) as [evs Hevs].
  destruct (m tr) as [[a|e] tr']; simpl in Hevs; subst tr'.
  - destruct (Hf a (tr ++ evs)) as [evs' ->]. exists (evs ++ evs').
    by rewrite app_assoc.
  - by exists evs.
Qed.

Lemma grows_try {A} (body : IO A) (handler : string -> IO A) :
  grows body -> (forall e, grows (handler e)) -> grows (try_except body handler).
Proof.
  intros Hb Hh tr. unfold try_except. destruct (Hb tr) as [evs Hevs].
  destruct (body tr) as [[a|e] tr']; simpl in Hevs; subst tr'.
  - by exists evs.
  - destruct (Hh e (tr ++ evs)) as [evs' ->]. exists (evs ++ evs').
    by rewrite app_assoc.
Qed.

Lemma begins_perform {A} ev (r : result A) : begins_with ev (perform ev r).
Proof. intros tr. by exists []. Qed.

Lemma begins_bind {A B} ev (m : IO A) (f : A -> IO B) :
  begins_with ev m -> (forall a, grows (f a)) -> begins_with ev (m ≫= f).
Proof.
  intros Hm Hf tr. unfold mbind, IO_bind. destruct (Hm tr) as [evs Hevs].
  destruct (m tr) as [[a|e] tr']; simpl in Hevs; subst tr'.
  - destruct (Hf a (tr ++ ev :: evs)) as [evs' ->]. exists (evs ++ evs').
    by rewrite <- app_assoc.
  - by exists evs.
Qed.

Lemma begins_try {A} ev (body : IO A) (handler : string -> IO A) :
  begins_with ev body -> (forall e, grows (handler e)) ->
  begins_with ev (try_except body handler).
Proof.
  intros Hb Hh tr. unfold try_except. destruct (Hb tr) as [evs Hevs].
  destruct (body tr) as [[a|e] tr']; simpl in Hevs; subst tr'.
  - by exists evs.
  - destruct (Hh e (tr ++ ev :: evs)) as [evs' ->]. exists (evs ++ evs').
    by rewrite <- app_assoc.
Qed.

Lemma never_raises_ret {A} (a : A) : never_raises (mret a).
Proof. intros tr. by exists a, tr. Qed.

Lemma never_raises_bind {A B} (m : IO A) (f : A -> IO B) :
  never_raises m -> (forall a, never_raises (f a)) -> never_raises (m ≫= f).
Proof.
  intros Hm Hf tr. unfold mbind, IO_bind.
  destruct (Hm tr) as (a & tr' & ->). apply Hf.
Qed.

(** A handler that never raises contains every failure of the body. *)
Lemma never_raises_try {A} (body : IO A) (handler : string -> IO A) :
  (forall e, never_raises (handler e)) -> never_raises (try_except body handler).
Proof.
  intros Hh tr. unfold try_except.
  destruct (body tr) as [[a|e] tr']; [by exists a, tr'|apply Hh].
Qed.

Create HintDb loader.
#[local] Hint Resolve grows_ret grows_perform never_raises_ret : loader.

Lemma load_from_database_never_raises self symbol limit start end_ :
  never_raises (_load_from_database self symbol limit start end_).
Proof. apply never_raises_try. auto with loader. Qed.

Lemma load_from_parquet_never_raises self symbol start end_ :
  never_raises (_load_from_parquet self symbol start end_).
Proof. apply never_raises_try. auto with loader. Qed.

Lemma fetch_from_provider_never_raises self symbol start end_ :
  never_raises (_fetch_from_provider self symbol start end_).
Proof. apply never_raises_try. auto with loader. Qed.

Lemma save_to_database_never_raises self symbol df :
  never_raises (_save_to_database self symbol df).
Proof.
  unfold _save_to_database. destruct (empty df); [auto with loader|].
  apply never_raises_try. auto with loader.
Qed.

Lemma save_to_parquet_never_raises self symbol df :
  never_raises (_save_to_parquet self symbol df).
Proof.
  unfold _save_to_parquet. destruct (empty df); [auto with loader|].
  apply never_raises_try. auto with loader.
Qed.

Lemma parquet_tier_never_raises self symbol limit start end_ required :
  never_raises (parquet_tier self symbol limit start end_ required).
Proof.
  unfold parquet_tier. destruct (loader_use_parquet_cache self);
    [|auto with loader].
  apply never_raises_bind; [apply load_from_parquet_never_raises|].
  intros df. destruct (sufficient df required); [|auto with loader].
  apply never_raises_bind; [apply save_to_database_never_raises|].
  auto with loader.
Qed.


Lemma never_raises_lift_bind {A B} (a : A) (f : A -> IO B) :
  never_raises (f a) -> never_raises (lift (Ok a) ≫= f).
Proof. intros H tr. apply H. Qed.

Lemma grows_lift {A} (r : result A) : grows (lift r).
Proof. intros tr. exists []. by rewrite app_nil_r. Qed.

Lemma provider_tier_never_raises settings self symbol limit days start end_ ext :
  extended_start settings days start = Ok ext ->
  never_raises (provider_tier settings self symbol limit days start end_).
Proof.
  intros He. unfold provider_tier. rewrite He.
  apply never_raises_lift_bind.
  apply never_raises_bind; [apply fetch_from_provider_never_raises|].
  intros df. destruct (empty df); [auto with loader|].
  apply never_raises_bind; [apply save_to_database_never_raises|]. intros _.
  apply never_raises_bind; [|auto with loader].
  destruct (loader_use_parquet_cache self);
    [apply save_to_parquet_never_raises|auto with loader].
Qed.

Lemma lower_tiers_never_raises settings self symbol limit days start end_
    required ext :
  extended_start settings days start = Ok ext ->
  never_raises (lower_tiers settings self symbol limit days start end_ required).
Proof.
  intros He. unfold lower_tiers.
  apply never_raises_bind; [apply parquet_tier_never_raises|].
  intros [df|]; [auto with loader|].
  by apply (provider_tier_never_raises _ _ _ _ _ _ _ ext).
Qed.

(** [load_bars] returns as soon as its three computations outside a [try]
    succeed: the start of the request, the required count and the start of
    the provider's window. *)
Lemma load_bars_returns settings self symbol limit start end_ days purpose
    st required ext :
  let limit' := from_option id (default_limit settings purpose) limit in
  let days' := from_option id (default_days settings purpose) days in
  let end' := from_option id (now (world self)) end_ in
  request_start days' end' start = Ok st ->
  required_bars settings limit' = Ok required ->
  extended_start settings days' st = Ok ext ->
  never_raises (load_bars settings self symbol limit start end_ days purpose).
Proof.
  intros limit' days' end' Hs Hr He. unfold load_bars. cbv zeta.
  fold limit' days' end'. rewrite Hs, Hr.
  apply never_raises_lift_bind.
  apply never_raises_bind; [apply load_from_database_never_raises|].
  intros df. apply never_raises_lift_bind.
  destruct (sufficient df _); [auto with loader|].
  by apply (lower_tiers_never_raises _ _ _ _ _ _ _ _ ext).
Qed.

(** The conditions of [load_bars_returns] in terms of the request: a
    valid threshold and a valid window. *)
Lemma load_bars_total settings self symbol limit start end_ days purpose :
  let limit' := from_option id (default_limit settings purpose) limit in
  let days' := from_option id (default_days settings purpose) days in
  let end' := from_option id (now (world self)) end_ in
  threshold_valid settings limit' ->
  fetch_window_valid settings days'
    (from_option id (end' - Z.of_nat days' * seconds_per_day)%Z start) ->
  never_raises (load_bars settings self symbol limit start end_ days purpose).
Proof.
  intros limit' days' end' Ht Hw.
  destruct (extended_start_valid _ _ _ Hw) as (ext & He & _).
  destruct (required_bars_valid _ _ Ht) as [required Hr].
  eapply load_bars_returns.
  - by apply (request_start_valid settings).
  - exact Hr.
  - exact He.
Qed.

(** ** What each tier logs *)

Lemma save_to_database_grows self symbol df :
  grows (_save_to_database self symbol df).
Proof.
  unfold _save_to_database. destruct (empty df); [auto with loader|].
  apply grows_try; auto with loader.
Qed.

Lemma save_to_parquet_grows self symbol df :
  grows (_save_to_parquet self symbol df).
Proof.
  unfold _save_to_parquet. destruct (empty df); [auto with loader|].
  apply grows_try; auto with loader.
Qed.

Lemma load_from_parquet_begins self symbol start end_ :
  begins_with (ParquetRead symbol) (_load_from_parquet self symbol start end_).
Proof.
  apply begins_try; [|auto with loader].
  apply begins_bind; [apply begins_perform|].
  intros [df|]; auto with loader.
Qed.

Lemma fetch_from_provider_begins self symbol start end_ :
  begins_with (ProviderFetch symbol start end_)
              (_fetch_from_provider self symbol start end_).
Proof. apply begins_try; [apply begins_perform|auto with loader]. Qed.

Lemma provider_tier_begins settings self symbol limit days start end_ ext :
  extended_start settings days start = Ok ext ->
  begins_with (ProviderFetch symbol ext end_)
              (provider_tier settings self symbol limit days start end_).
Proof.
  intros He. unfold provider_tier. rewrite He. intros tr.
  rewrite bind_lift_Ok. revert tr.
  apply begins_bind; [apply fetch_from_provider_begins|].
  intros df. destruct (empty df); [auto with loader|].
  apply grows_bind; [apply save_to_database_grows|]. intros _.
  apply grows_bind; [|auto with loader].
  destruct (loader_use_parquet_cache self);
    [apply save_to_parquet_grows|auto with loader].
Qed.

Lemma provider_tier_grows settings self symbol limit days start end_ :
  grows (provider_tier settings self symbol limit days start end_).
Proof.
  destruct (extended_start settings days start) as [ext|e] eqn:He.
  - intros tr.
    destruct (provider_tier_begins settings self symbol limit days start end_
                ext He tr) as [evs ->]. by eexists.
  - intros tr. unfold provider_tier. rewrite He, bind_lift_Raise.
    exists []. by rewrite app_nil_r.
Qed.

(** The tier consulted first once the store did not suffice. *)
Definition next_tier_event (symbol : string) (ev : event) : Prop :=
  ev = ParquetRead symbol \/ exists s e, ev = ProviderFetch symbol s e.

Lemma lower_tiers_begins settings self symbol limit days start end_ required ext :
  extended_start settings days start = Ok ext ->
  exists ev, next_tier_event symbol ev /\
    begins_with ev
      (lower_tiers settings self symbol limit days start end_ required).
Proof.
  intros He. unfold lower_tiers, parquet_tier.
  destruct (loader_use_parquet_cache self) eqn:Hc.
  - exists (ParquetRead symbol). split; [by left|].
    apply begins_bind.
    + apply begins_bind; [apply load_from_parquet_begins|].
      intros df. destruct (sufficient df required); [|auto with loader].
      apply grows_bind; [apply save_to_database_grows|]. auto with loader.
    + intros [df|]; [auto with loader|apply provider_tier_grows].
  - exists (ProviderFetch symbol ext end_). split; [right; eauto|].
    intros tr.
    destruct (provider_tier_begins settings self symbol limit days start end_
                ext He tr) as [evs Hevs].
    exists evs. unfold mbind, IO_bind, mret, IO_ret. exact Hevs.
Qed.


(** ** The sufficiency test of the store tier *)

Lemma sufficient_true (df : DataFrame) (required : Z) :
  (0 < length df)%nat -> (required <= Z.of_nat (length df))%Z ->
  sufficient df required = true.
Proof.
  intros Hne Hlen. unfold sufficient. rewrite empty_false_length by exact Hne.
  simpl. by apply Z.leb_le.
Qed.

Lemma sufficient_false (df : DataFrame) (required : Z) :
  (Z.of_nat (length df) < required)%Z -> sufficient df required = false.
Proof.
  intros H. unfold sufficient. apply andb_false_iff. right.
  by apply Z.leb_gt.
Qed.

Lemma load_bars_after_store settings self symbol limit st en days purpose
    rows required tr :
  db_rows (world self) symbol st en = Ok rows ->
  required_bars settings limit = Ok required ->
  load_bars settings self symbol (Some limit) (Some st) (Some en) days purpose tr
  = let fetch_limit := py_int (Q_of_nat limit * (12 # 10)) in
    let df := lastn (Z.to_nat fetch_limit) rows in
    let tr' := tr ++ [DbQuery symbol fetch_limit st en] in
    if sufficient df required then (Ok (iloc_from_neg df limit), tr')
    else lower_tiers settings self symbol limit
           (from_option id (default_days settings purpose) days) st en required tr'.
Proof.
  intros Hq Hr. unfold load_bars. cbn [from_option id request_start].
  rewrite bind_lift_Ok. run_first.
  rewrite (load_from_database_ok _ _ _ _ _ rows) by exact Hq.
  rewrite Hr, bind_lift_Ok.
  cbv zeta. destruct (sufficient _ _); reflexivity.
Qed.


(** A store of [n] one-minute bars, with no cache file and a provider
    that has nothing. *)
Definition minute_bars (n : nat) : DataFrame :=
  (fun i => {| ts := Z.of_nat i * 60; open := 1; high := 1; low := 1;
               close := 1; volume := 0 |}) <$> seq 0 n.

Definition store_only (rows : DataFrame) : World :=
  {| now := 6000;
     db_rows := fun _ _ _ => Ok rows;
     db_insert := fun _ _ => Ok tt;
     parquet_file := fun _ => Ok None;
     parquet_write := fun _ _ => Ok tt;
     historical_df := fun _ _ _ => Ok [] |}.


(** The first sentence of claim C5 for one request, as stated: with at
    least [ceil(T * s)] stored bars in range the call returns the most
    recent [T] of them and consults the store only. *)
Definition store_tier_claim (settings : Settings) (rows : DataFrame)
    (T : nat) : Prop :=
  forall s, data_sufficiency_threshold settings = Finite s ->
  (Qceiling (Q_of_nat T * s) <= Z.of_nat (length rows))%Z ->
  load_bars settings (new_loader settings (store_only rows) None)
            "QQQ" (Some T) (Some 0%Z) (Some 6000%Z) None "monitor" []
  = (Ok (lastn T rows), [DbQuery "QQQ" (py_int (Q_of_nat T * (12 # 10))) 0 6000]).


(** ** Failing tiers *)

(** A tier answer that carries no bar: an empty answer or an I/O failure. *)
Definition produced_nothing (r : result DataFrame) : Prop :=
  r = Ok [] \/ exists e, r = Raise e.

(** The cache produced nothing: no file, no row in range, or a failure. *)
Definition cache_nothing (r : result (option DataFrame)) (st en : Z) : Prop :=
  r = Ok None
  \/ (exists df, r = Ok (Some df) /\
        filter (fun b => (st <= ts b)%Z /\ (ts b <= en)%Z) df = [])
  \/ exists e, r = Raise e.

Lemma load_from_database_nothing self symbol limit st en tr :
  produced_nothing (db_rows (world self) symbol st en) ->
  _load_from_database self symbol limit st en tr
  = (Ok [], tr ++ [DbQuery symbol (py_int (Q_of_nat limit * (12 # 10))) st en]).
Proof.
  intros [H|[e H]].
  - rewrite (load_from_database_ok _ _ _ _ _ []) by exact H.
    by rewrite lastn_all by (simpl; lia).
  - by apply (load_from_database_raise _ _ _ _ _ e).
Qed.

Lemma load_from_parquet_nothing self symbol st en tr :
  cache_nothing (parquet_file (world self) symbol) st en ->
  _load_from_parquet self symbol st en tr = (Ok [], tr ++ [ParquetRead symbol]).
Proof.
  unfold _load_from_parquet, try_except, perform, mbind, IO_bind, mret, IO_ret.
  intros [H|[[df [H Hf]]|[e H]]]; rewrite H; [done| |done].
  by rewrite Hf.
Qed.

Lemma fetch_from_provider_nothing self symbol st en tr :
  produced_nothing (historical_df (world self) symbol st en) ->
  _fetch_from_provider self symbol st en tr
  = (Ok [], tr ++ [ProviderFetch symbol st en]).
Proof.
  unfold _fetch_from_provider, try_except, perform.
  intros [H|[e H]]; by rewrite H.
Qed.

Lemma provider_tier_nothing settings self symbol limit days st en ext tr :
  extended_start settings days st = Ok ext ->
  produced_nothing (historical_df (world self) symbol ext en) ->
  provider_tier settings self symbol limit days st en tr
  = (Ok [], tr ++ [ProviderFetch symbol ext en]).
Proof.
  intros He H. unfold provider_tier. rewrite He, bind_lift_Ok.
  run_first.
  rewrite fetch_from_provider_nothing by apply H. reflexivity.
Qed.


(** Every collaborator is down. *)
Definition all_down : World :=
  {| now := 6000;
     db_rows := fun _ _ _ => Raise "connection refused";
     db_insert := fun _ _ => Raise "connection refused";
     parquet_file := fun _ => Raise "permission denied";
     parquet_write := fun _ _ => Raise "permission denied";
     historical_df := fun _ _ _ => Raise "service unavailable" |}.


(** An ordinary store on 2025-11-03 (the instant 1762128000). *)
Definition store_today (rows : DataFrame) : World :=
  {| now := 1762128000;
     db_rows := fun _ _ _ => Ok rows;
     db_insert := fun _ _ => Ok tt;
     parquet_file := fun _ => Ok None;
     parquet_write := fun _ _ => Ok tt;
     historical_df := fun _ _ _ => Ok [] |}.

(** The settings with a float read from the text "inf" or "nan" as
    sufficiency threshold. *)
Definition with_float_threshold (x : pyfloat) (settings : Settings)
  : Settings := {|
  pivot_k := pivot_k settings;
  lookback_bars := lookback_bars settings;
  ema_period := ema_period settings;
  use_trend_filter := use_trend_filter settings;
  monitor_preload_bars := monitor_preload_bars settings;
  monitor_preload_days := monitor_preload_days settings;
  backfill_default_days := backfill_default_days settings;
  fetch_safety_margin := fetch_safety_margin settings;
  data_sufficiency_threshold := x;
  use_parquet_cache := use_parquet_cache settings;
  data_provider := data_provider settings
|}.


End LoaderFacts.

(* ===================================================================== *)
(** * Rolling buffers *)
(* ===================================================================== *)

Module MonitorFacts.
Import Pandas Config Monitor LoaderFacts.

(** ** One append *)

Lemma lastn_suffix {A} (n : nat) (l : list A) : lastn n l `suffix_of` l.
Proof. unfold lastn. apply suffix_drop. Qed.

Lemma append_and_trim_cases (buffer : list bar_dict) (b : bar_dict) :
  ((length buffer + 1 <= capacity_ceiling)%nat /\
   append_and_trim buffer b = buffer ++ [b])
  \/ ((capacity_ceiling < length buffer + 1)%nat /\
      append_and_trim buffer b = lastn retained_size (buffer ++ [b]) /\
      length (append_and_trim buffer b) = retained_size).
Proof.
  unfold append_and_trim.
  destruct (capacity_ceiling <? length (buffer ++ [b]))%nat eqn:E.
  - apply Nat.ltb_lt in E. rewrite length_app in E. simpl in E.
    right. split; [exact E|]. split; [reflexivity|].
    unfold lastn. rewrite length_drop, length_app. simpl.
    unfold capacity_ceiling, retained_size in *. lia.
  - apply Nat.ltb_ge in E. rewrite length_app in E. simpl in E.
    left. split; [exact E|reflexivity].
Qed.

Lemma append_and_trim_bounded (buffer : list bar_dict) (b : bar_dict) :
  (length (append_and_trim buffer b) <= capacity_ceiling)%nat.
Proof.
  destruct (append_and_trim_cases buffer b) as [[H ->]|[_ [_ ->]]].
  - rewrite length_app. simpl. exact H.
  - unfold capacity_ceiling, retained_size. lia.
Qed.

Lemma append_and_trim_suffix (buffer : list bar_dict) (b : bar_dict) :
  append_and_trim buffer b `suffix_of` buffer ++ [b].
Proof.
  destruct (append_and_trim_cases buffer b) as [[_ ->]|[_ [-> _]]].
  - reflexivity.
  - apply lastn_suffix.
Qed.

(** ** The effect of [_process_bar] on the buffers *)

Lemma instant_ensure_aware (ts : datetime) :
  instant (ensure_aware ts) = instant ts.
Proof.
  unfold ensure_aware, instant, replace_utc.
  destruct ts as [w [off|]]; simpl; lia.
Qed.

Section Service.
Context (settings : Settings) (self : MonitorService).

Lemma process_bar_buffers st bar :
  buffers (snd (_process_bar settings self st bar))
  = match buffers st !! symbol bar with
    | None => buffers st
    | Some buffer =>
        <[symbol bar :=
            append_and_trim buffer
              (make_bar_dict (ensure_aware (timestamp bar)) bar)]> (buffers st)
    end.
Proof.
  unfold _process_bar. cbv zeta. cbn [buffers].
  destruct (buffers st !! symbol bar) as [buffer|]; [|reflexivity].
  destruct (_ <? _)%nat; reflexivity.
Qed.

Lemma process_all_snoc st bars bar :
  process_all settings self st (bars ++ [bar])
  = snd (_process_bar settings self (process_all settings self st bars) bar).
Proof. unfold process_all. by rewrite foldl_app. Qed.

Lemma process_all_cons st bars bar :
  process_all settings self st (bar :: bars)
  = process_all settings self (snd (_process_bar settings self st bar)) bars.
Proof. reflexivity. Qed.

(** Every buffer is within the capacity ceiling. *)
Definition bounded (st : state) : Prop :=
  forall sym buffer, buffers st !! sym = Some buffer ->
                     (length buffer <= capacity_ceiling)%nat.

Lemma process_bar_own_buffer st bar buffer :
  buffers (snd (_process_bar settings self st bar)) !! symbol bar = Some buffer ->
  (length buffer <= capacity_ceiling)%nat
  \/ buffers st !! symbol bar = None.
Proof.
  rewrite process_bar_buffers.
  destruct (buffers st !! symbol bar) as [old|] eqn:E; [|by right].
  rewrite lookup_insert_eq. intros [= <-]. left. apply append_and_trim_bounded.
Qed.

Lemma process_bar_registered st bar sym :
  is_Some (buffers (snd (_process_bar settings self st bar)) !! sym)
  <-> is_Some (buffers st !! sym).
Proof.
  rewrite process_bar_buffers.
  destruct (buffers st !! symbol bar) as [old|] eqn:E; [|done].
  destruct (decide (symbol bar = sym)) as [<-|Hne].
  - rewrite lookup_insert_eq, E. split; eauto.
  - by rewrite lookup_insert_ne.
Qed.

Lemma process_bar_other_buffer st bar sym :
  symbol bar <> sym ->
  buffers (snd (_process_bar settings self st bar)) !! sym = buffers st !! sym.
Proof.
  intros Hne. rewrite process_bar_buffers.
  destruct (buffers st !! symbol bar); [|done]. by rewrite lookup_insert_ne.
Qed.

Lemma process_bar_bounded st bar :
  bounded st -> bounded (snd (_process_bar settings self st bar)).
Proof.
  intros Hb sym buffer. destruct (decide (symbol bar = sym)) as [<-|Hne].
  - intros H. pose proof H as H'.
    apply process_bar_own_buffer in H as [H|H]; [exact H|].
    assert (Hs : is_Some (buffers st !! symbol bar)).
    { apply (process_bar_registered st bar). eauto. }
    rewrite H in Hs. by destruct Hs.
  - rewrite process_bar_other_buffer by exact Hne. apply Hb.
Qed.


(** A buffer that is not the buffer of the symbol of any delivered bar is
    left as it is. *)
Lemma process_all_idle_buffer st bars sym :
  Forall (fun bar => symbol bar <> sym) bars ->
  buffers (process_all settings self st bars) !! sym = buffers st !! sym.
Proof.
  intros H. induction bars as [|bar bars IH] using rev_ind; [reflexivity|].
  apply Forall_app in H as [H1 H2]. rewrite Forall_singleton in H2.
  rewrite process_all_snoc, process_bar_other_buffer by exact H2.
  by apply IH.
Qed.

(** ** Order of the timestamps *)

Definition strictly_increasing (buffer : list bar_dict) : Prop :=
  StronglySorted Z.lt (buffer_instants buffer).

(** Every buffer is strictly increasing in timestamp. *)
Definition ordered (st : state) : Prop :=
  forall sym buffer, buffers st !! sym = Some buffer -> strictly_increasing buffer.

Lemma buffer_instants_app b1 b2 :
  buffer_instants (b1 ++ b2) = buffer_instants b1 ++ buffer_instants b2.
Proof. unfold buffer_instants. apply fmap_app. Qed.

Lemma buffer_instants_suffix b1 b2 :
  b1 `suffix_of` b2 -> buffer_instants b1 `suffix_of` buffer_instants b2.
Proof.
  intros [k ->]. rewrite buffer_instants_app. by exists (buffer_instants k).
Qed.

End Service.

(** Two deliveries of the same bar. *)
Definition qqq_bar : feed_bar :=
  {| symbol := "QQQ"; timestamp := {| wall := 60; tzinfo := Some 0%Z |};
     open := 1; high := 1; low := 1; close := 1; volume := 0 |}.

Definition rsi_hidden_bullish : MonitorService :=
  {| indicator_name := "rsi"; signal_type := "hidden_bullish_divergence";
     indicator := Indicators.compute Indicators.RSI_default;
     detector := Divergence.detect_hidden_bullish |}.

Definition fresh_qqq : state :=
  {| buffers := {[ "QQQ" := [] ]}; last_bar_time := ∅ |}.

(** Claim C8 as stated fails: the feed delivers the same bar twice, both
    deliveries are appended, and the buffer holds one timestamp twice. *)
Lemma duplicate_bar_breaks_order :
  ordered fresh_qqq
  /\ ~ ordered (process_all default_settings rsi_hidden_bullish fresh_qqq
                            [qqq_bar; qqq_bar]).
Proof.
  split.
  - intros sym buffer. unfold fresh_qqq. cbn [buffers].
    intros H. apply lookup_singleton_Some in H as [_ <-]. constructor.
  - intros H.
    specialize (H "QQQ"
      [make_bar_dict (timestamp qqq_bar) qqq_bar;
       make_bar_dict (timestamp qqq_bar) qqq_bar]).
    assert (Hl : buffers (process_all default_settings rsi_hidden_bullish
                            fresh_qqq [qqq_bar; qqq_bar]) !! "QQQ"
                 = Some [make_bar_dict (timestamp qqq_bar) qqq_bar;
                         make_bar_dict (timestamp qqq_bar) qqq_bar]).
    { by vm_compute. }
    specialize (H Hl). unfold strictly_increasing in H.
    apply StronglySorted_cons in H as [H _].
    apply Forall_cons in H as [H _]. vm_compute in H. discriminate.
Qed.

Definition later_bar : feed_bar :=
  {| symbol := "QQQ"; timestamp := {| wall := 120; tzinfo := None |};
     open := 1; high := 1; low := 1; close := 1; volume := 0 |}.

Definition empty_state : state := {| buffers := ∅; last_bar_time := ∅ |}.

Definition one_row : Loader.DataFrame :=
  [ {| Loader.ts := 0; Loader.open := 1; Loader.high := 1; Loader.low := 1;
       Loader.close := 1; Loader.volume := 0 |} ].

Definition full_buffer : list bar_dict :=
  replicate 3000 (make_bar_dict (timestamp qqq_bar) qqq_bar).

Definition full_qqq : state :=
  {| buffers := {[ "QQQ" := full_buffer ]}; last_bar_time := ∅ |}.


(** The settings with another preload target ([MONITOR_PRELOAD_BARS]). *)
Definition with_preload_bars (n : nat) (settings : Settings) : Settings := {|
  pivot_k := pivot_k settings;
  lookback_bars := lookback_bars settings;
  ema_period := ema_period settings;
  use_trend_filter := use_trend_filter settings;
  monitor_preload_bars := n;
  monitor_preload_days := monitor_preload_days settings;
  backfill_default_days := backfill_default_days settings;
  fetch_safety_margin := fetch_safety_margin settings;
  data_sufficiency_threshold := data_sufficiency_threshold settings;
  use_parquet_cache := use_parquet_cache settings;
  data_provider := data_provider settings
|}.

Definition preload_3500 : Settings :=
  with_preload_bars (Z.to_nat 3500) default_settings.

(** The state after the warm start of "QQQ" and "SPY" with 3500 rows
    each. *)
Definition preloaded_3500 : state :=
  let now := {| wall := 1762128000; tzinfo := Some 0%Z |} in
  warm_start
    (warm_start empty_state "QQQ" now (minute_bars (Z.to_nat 3500)))
    "SPY" now (minute_bars (Z.to_nat 3500)).


End MonitorFacts.

(* ===================================================================== *)
(** * The registry of monitors *)
(* ===================================================================== *)

Module ManagerFacts.
Import Pandas Config Manager.

(** The handles of the registry point into the task table. *)
Definition handles_valid (s : system) : Prop :=
  forall key info, monitors s !! key = Some info ->
                   (mi_task info < length (tasks s))%nat.

Lemma task_done_fresh (s : system) (t : task) :
  done t = false ->
  task_done {| monitors := monitors s; provider := provider s;
               tasks := tasks s ++ [t] |} (length (tasks s)) = false.
Proof.
  intros Ht. unfold task_done. cbn [tasks].
  by rewrite list_lookup_middle.
Qed.

(** [start_fresh] either fails on the provider, rejects the names, or
    registers a new running task under [key]. *)
Lemma start_fresh_started settings s key tickers indicator signal_type r s' :
  start_fresh settings s key tickers indicator signal_type = (Ok r, s') ->
  status r = "started" ->
  exists info t,
    monitors s' = <[key := info]> (monitors s)
    /\ tasks s' = tasks s ++ [t]
    /\ mi_task info = length (tasks s)
    /\ done t = false
    /\ task_tickers t = tickers
    /\ r = Started key tickers indicator signal_type.
Proof.
  unfold start_fresh.
  destruct (provider s) as [p|].
  - destruct (Monitor.new_service indicator signal_type) as [svc|e].
    + intros [= <- <-] _. do 2 eexists. cbn. repeat split; reflexivity.
    + intros [= <- <-]. discriminate.
  - destruct (get_provider settings) as [p|e]; cbn.
    + destruct (Monitor.new_service indicator signal_type) as [svc|e].
      * intros [= <- <-] _. do 2 eexists. cbn. repeat split; reflexivity.
      * intros [= <- <-]. discriminate.
    + discriminate.
Qed.

Lemma start_fresh_valid settings s key tickers indicator signal_type :
  is_Some (provider s) ->
  is_Some (Monitor.INDICATOR_MAP indicator) ->
  is_Some (Monitor.DETECTOR_MAP signal_type) ->
  exists svc,
    Monitor.new_service indicator signal_type = Ok svc /\
    start_fresh settings s key tickers indicator signal_type
    = (Ok (Started key tickers indicator signal_type),
       {| monitors :=
            <[key := {| mi_task := length (tasks s); mi_tickers := tickers;
                        mi_indicator := indicator;
                        mi_signal_type := signal_type |}]> (monitors s);
          provider := provider s;
          tasks := tasks s ++ [{| task_service := svc;
                                  task_tickers := tickers;
                                  done := false |}] |}).
Proof.
  intros [p Hp] [ind Hi] [det Hd]. unfold start_fresh, Monitor.new_service.
  rewrite Hi, Hd. eexists. split; [reflexivity|].
  rewrite Hp. cbn beta iota. by rewrite Hp.
Qed.

(** An active instance under the key: the call changes nothing. *)
Lemma start_monitor_active settings s tickers indicator signal_type info :
  monitors s !! _get_key tickers indicator signal_type = Some info ->
  task_done s (mi_task info) = false ->
  start_monitor settings s tickers indicator signal_type
  = (Ok (AlreadyRunning (_get_key tickers indicator signal_type) tickers), s).
Proof. intros Hk Hd. unfold start_monitor. by rewrite Hk, Hd. Qed.

(** After a call that answered "started", the key holds a running task. *)
Lemma start_monitor_started settings s tickers indicator signal_type r s' :
  start_monitor settings s tickers indicator signal_type = (Ok r, s') ->
  status r = "started" ->
  exists info t,
    monitors s' !! _get_key tickers indicator signal_type = Some info
    /\ task_done s' (mi_task info) = false
    /\ tasks s' = tasks s ++ [t]
    /\ mi_task info = length (tasks s).
Proof.
  unfold start_monitor.
  destruct (monitors s !! _get_key tickers indicator signal_type) as [old|] eqn:E.
  - destruct (negb (task_done s (mi_task old))).
    + intros [= <- <-]. discriminate.
    + intros H Hs.
      apply start_fresh_started in H as (info & t & Hm & Ht & Hid & Hdone & _);
        [|exact Hs].
      cbn [monitors tasks] in *. exists info, t.
      rewrite Hm, lookup_insert_eq. repeat split; try done.
      unfold task_done. rewrite Ht, Hid. by rewrite list_lookup_middle.
  - intros H Hs.
    apply start_fresh_started in H as (info & t & Hm & Ht & Hid & Hdone & _);
      [|exact Hs].
    exists info, t. rewrite Hm, lookup_insert_eq. repeat split; try done.
    unfold task_done. rewrite Ht, Hid. by rewrite list_lookup_middle.
Qed.

(** [n] further calls with the same configuration. *)
Fixpoint start_again (settings : Settings) (s : system) (tickers : list string)
    (indicator signal_type : string) (n : nat)
  : list (result response) * system :=
  match n with
  | O => ([], s)
  | S n =>
      let '(r, s1) := start_monitor settings s tickers indicator signal_type in
      let '(rs, s2) := start_again settings s1 tickers indicator signal_type n in
      (r :: rs, s2)
  end.

Lemma start_again_active settings s tickers indicator signal_type info n :
  monitors s !! _get_key tickers indicator signal_type = Some info ->
  task_done s (mi_task info) = false ->
  start_again settings s tickers indicator signal_type n
  = (replicate n
       (Ok (AlreadyRunning (_get_key tickers indicator signal_type) tickers)), s).
Proof.
  intros Hk Hd. induction n as [|n IH]; [reflexivity|].
  cbn [start_again]. rewrite (start_monitor_active _ _ _ _ _ info) by done.
  by rewrite IH.
Qed.

(** Claim C9.  After a call of [start_monitor] answered "started", every
    further call with the same configuration answers "already_running" and
    leaves the registry and the task table as they are, so no second task
    exists for the key; the same holds from any state in which the key
    holds a running task.  When the key holds a terminated task (and the
    names are valid), the call evicts it and registers a fresh running
    task under the key, leaving the other keys alone. *)
Theorem start_monitor_idempotent
    (settings : Settings) (s : system) (tickers : list string)
    (indicator signal_type : string) :
  let key := _get_key tickers indicator signal_type in
  (forall r s1,
      start_monitor settings s tickers indicator signal_type = (Ok r, s1) ->
      status r = "started" ->
      (forall n,
          start_again settings s1 tickers indicator signal_type n
          = (replicate n (Ok (AlreadyRunning key tickers)), s1))
      /\ length (tasks s1) = S (length (tasks s)))
  /\ (forall info,
        monitors s !! key = Some info -> task_done s (mi_task info) = false ->
        start_monitor settings s tickers indicator signal_type
        = (Ok (AlreadyRunning key tickers), s))
  /\ (forall info,
        monitors s !! key = Some info -> task_done s (mi_task info) = true ->
        handles_valid s -> is_Some (provider s) ->
        is_Some (Monitor.INDICATOR_MAP indicator) ->
        is_Some (Monitor.DETECTOR_MAP signal_type) ->
        exists s1 info1,
          start_monitor settings s tickers indicator signal_type
          = (Ok (Started key tickers indicator signal_type), s1)
          /\ monitors s1 !! key = Some info1
          /\ mi_task info1 <> mi_task info
          /\ tasks s !! mi_task info1 = None
          /\ task_done s1 (mi_task info1) = false
          /\ (forall other, other <> key ->
                monitors s1 !! other = monitors s !! other)).
Proof.
  intros key. split; [|split].
  - intros r s1 H Hs.
    destruct (start_monitor_started _ _ _ _ _ _ _ H Hs)
      as (info & t & Hk & Hd & Ht & _).
    split.
    + intros n. by apply (start_again_active _ _ _ _ _ info).
    + rewrite Ht, length_app. simpl. lia.
  - intros info Hk Hd. by apply (start_monitor_active _ _ _ _ _ info).
  - intros info Hk Hd Hv Hp Hi Hs. unfold start_monitor. fold key.
    rewrite Hk, Hd. cbn [negb].
    destruct (start_fresh_valid settings
                {| monitors := delete key (monitors s);
                   provider := provider s; tasks := tasks s |}
                key tickers indicator signal_type Hp Hi Hs) as [svc [_ ->]].
    cbn [monitors provider tasks].
    do 2 eexists. split; [reflexivity|]. cbn [monitors tasks mi_task].
    rewrite lookup_insert_eq. split; [reflexivity|]. cbn [mi_task].
    pose proof (Hv key info Hk) as Hlt.
    split; [lia|]. split; [by apply lookup_ge_None_2|].
    split.
    + unfold task_done. cbn [tasks]. by rewrite list_lookup_middle.
    + intros other Hne.
      by rewrite lookup_insert_ne, lookup_delete_ne.
Qed.

(** The first instance terminates and the same configuration is started
    again: the terminated instance is evicted, a second task is created
    and the key points to it. *)
Example restart_after_termination :
  let s1 := snd (start_monitor default_settings initial ["QQQ"] "rsi"
                               "hidden_bullish_divergence") in
  let '(r, s2) := start_monitor default_settings (finish_task s1 0) ["QQQ"]
                                "rsi" "hidden_bullish_divergence" in
  (status <$> (match r with Ok x => Some x | Raise _ => None end)
   = Some "started")
  /\ (mi_task <$> monitors s2 !! "QQQ:rsi:hidden_bullish_divergence" = Some 1%nat)
  /\ (done <$> tasks s2 = [true; false]).
Proof. by vm_compute. Qed.

Definition qqq_config_started : result response * system :=
  start_monitor default_settings initial ["QQQ"] "rsi"
                "hidden_bullish_divergence".

Lemma start_monitor_idempotent_witness :
  status (Started "QQQ:rsi:hidden_bullish_divergence" ["QQQ"] "rsi"
                  "hidden_bullish_divergence") = "started"
  /\ start_again default_settings (snd qqq_config_started) ["QQQ"] "rsi"
                 "hidden_bullish_divergence" 2
     = ([Ok (AlreadyRunning "QQQ:rsi:hidden_bullish_divergence" ["QQQ"]);
         Ok (AlreadyRunning "QQQ:rsi:hidden_bullish_divergence" ["QQQ"])],
        snd qqq_config_started).
Proof.
  split; [reflexivity|].
  destruct (start_monitor_idempotent default_settings initial ["QQQ"] "rsi"
              "hidden_bullish_divergence") as [H _].
  destruct (H (Started "QQQ:rsi:hidden_bullish_divergence" ["QQQ"] "rsi"
                       "hidden_bullish_divergence")
              (snd qqq_config_started)) as [Hn _].
  - by vm_compute.
  - reflexivity.
  - apply (Hn 2%nat).
Defined.

End ManagerFacts.

(* ===================================================================== *)
(** * Pivot highs, and the geometry of pivots *)
(* ===================================================================== *)

Module PivotFacts.
Import Pandas Config Divergence PandasFacts DivergenceFacts.

(** ** Pivot highs in the words of the docstring *)

Lemma pivot_high_at_nonstrict close k i :
  pivot_high_at close k false i = true <-> window_maximum close k i.
Proof.
  unfold pivot_high_at, window_maximum. cbv zeta.
  destruct (values close !! i) as [c|] eqn:Hc.
  - change (negb false) with true. rewrite orb_true_l, andb_true_r.
    rewrite feq_series_max.
    + split.
      * intros H. exists c. split; [reflexivity|]. intros j v Hj Hv.
        apply H. apply elem_of_iloc_slice. exists j. split; [lia|exact Hv].
      * intros [c' [[= <-] H]] v Hv.
        apply elem_of_iloc_slice in Hv as [j [Hj Hv]].
        apply (H j); [lia|exact Hv].
    + apply elem_of_iloc_slice. exists i. split; [lia|exact Hc].
  - split; [discriminate|]. intros [c [H _]]. discriminate.
Qed.

(** What the strict test of [find_pivot_lows] says about the side windows,
    whatever [k] is: both are non-empty and hold only larger values. *)
Lemma pivot_low_at_sides close k i c :
  pivot_low_at close k true i = true -> values close !! i = Some c ->
  (1 <= k)%nat /\ (1 <= i)%nat /\ (i + 1 < length close)%nat
  /\ (forall j v, (i - k <= j < i)%nat -> values close !! j = Some v -> (c < v)%Q)
  /\ (forall j v, (i < j <= i + k)%nat -> values close !! j = Some v -> (c < v)%Q).
Proof.
  unfold pivot_low_at. cbv zeta. intros H Hc. rewrite Hc in H.
  change (negb true) with false in H.
  rewrite orb_false_l, !andb_true_iff, !flt_series_min in H.
  destruct H as [_ [[Hln Hl] [Hrn Hr]]].
  rewrite iloc_slice_nil, values_length in Hln, Hrn.
  split; [lia|]. split; [lia|]. split; [lia|]. split.
  - intros j v Hj Hv. apply Hl. apply elem_of_iloc_slice. eauto.
  - intros j v Hj Hv. apply Hr. apply elem_of_iloc_slice.
    exists j. split; [lia|exact Hv].
Qed.

Lemma pivot_high_at_sides close k i c :
  pivot_high_at close k true i = true -> values close !! i = Some c ->
  (1 <= k)%nat /\ (1 <= i)%nat /\ (i + 1 < length close)%nat
  /\ (forall j v, (i - k <= j < i)%nat -> values close !! j = Some v -> (v < c)%Q)
  /\ (forall j v, (i < j <= i + k)%nat -> values close !! j = Some v -> (v < c)%Q).
Proof.
  unfold pivot_high_at. cbv zeta. intros H Hc. rewrite Hc in H.
  change (negb true) with false in H.
  rewrite orb_false_l, !andb_true_iff, !fgt_series_max in H.
  destruct H as [_ [[Hln Hl] [Hrn Hr]]].
  rewrite iloc_slice_nil, values_length in Hln, Hrn.
  split; [lia|]. split; [lia|]. split; [lia|]. split.
  - intros j v Hj Hv. apply Hl. apply elem_of_iloc_slice. eauto.
  - intros j v Hj Hv. apply Hr. apply elem_of_iloc_slice.
    exists j. split; [lia|exact Hv].
Qed.

Lemma pivot_high_at_strict close k i :
  (1 <= k)%nat -> (k <= i)%nat -> (i + k < length close)%nat ->
  pivot_high_at close k true i = true <-> strictly_highest close k i.
Proof.
  intros Hk Hik Hin. split.
  - intros H. unfold strictly_highest.
    destruct (values close !! i) as [c|] eqn:Hc.
    + destruct (pivot_high_at_sides close k i c H Hc) as (_ & _ & _ & Hl & Hr).
      exists c. auto.
    + unfold pivot_high_at in H. cbv zeta in H. by rewrite Hc in H.
  - intros [c [Hc [Hl Hr]]]. unfold pivot_high_at. cbv zeta. rewrite Hc.
    change (negb true) with false.
    rewrite orb_false_l, !andb_true_iff, !fgt_series_max.
    rewrite feq_series_max
      by (apply elem_of_iloc_slice; exists i; split; [lia|exact Hc]).
    split; [|split; split].
    + intros v Hv. apply elem_of_iloc_slice in Hv as [j [Hj Hv]].
      destruct (lt_eq_lt_dec j i) as [[Hlt|Heq]|Hgt].
      * apply Qlt_le_weak. apply (Hl j); [lia|exact Hv].
      * subst j. rewrite Hc in Hv. injection Hv as <-. apply Qle_refl.
      * apply Qlt_le_weak. apply (Hr j); [lia|exact Hv].
    + rewrite iloc_slice_nil, values_length. lia.
    + intros v Hv. apply elem_of_iloc_slice in Hv as [j [Hj Hv]]. eauto.
    + rewrite iloc_slice_nil, values_length. lia.
    + intros v Hv. apply elem_of_iloc_slice in Hv as [j [Hj Hv]].
      apply (Hr j); [lia|exact Hv].
Qed.

(** Position [i] is interior and satisfies the pivot-high condition. *)
Definition pivot_high_spec (close : Series Q) (k : nat) (strict : bool)
    (i : nat) : Prop :=
  (k <= i /\ i + k < length close)%nat /\
  if strict then strictly_highest close k i else window_maximum close k i.

(** [find_pivot_highs] returns the labels of the positions, in increasing
    order, that satisfy the condition. *)
Definition pivot_highs_exactly (close : Series Q) (k : nat) (strict : bool)
  : Prop :=
  exists ps : list nat,
    find_pivot_highs close k strict = label_at close <$> ps /\
    StronglySorted lt ps /\
    forall i, i ∈ ps <-> pivot_high_spec close k strict i.

(** [find_pivot_highs], for a window size of at least 1 in strict mode and
    any window size otherwise, returns exactly the labels of the interior
    positions [i] of [[k, n-k)], in increasing position, at which the value
    is the maximum of the window [[i-k, i+k]] (non-strict) or is strictly
    greater than every value of the [k] positions before and of the [k]
    positions after (strict). *)
Theorem find_pivot_highs_exact (close : Series Q) (k : nat) (strict : bool) :
  strict = false \/ (1 <= k)%nat ->
  pivot_highs_exactly close k strict.
Proof.
  intros Hdom. exists (pivot_high_positions close k strict). split; [|split].
  - apply find_pivot_highs_positions.
  - apply StronglySorted_filter_seq.
  - intros i. rewrite elem_of_pivot_high_positions. unfold pivot_high_spec.
    destruct strict.
    + destruct Hdom as [?|Hk]; [discriminate|].
      split; intros [Hi H]; (split; [exact Hi|]);
        apply pivot_high_at_strict; (lia || assumption).
    + by rewrite pivot_high_at_nonstrict.
Qed.

Definition peak_series : Series Q := [(0%Z, 3%Q); (1%Z, 5%Q); (2%Z, 4%Q)].

Lemma find_pivot_highs_exact_witness :
  (true = false \/ (1 <= 1)%nat) /\ pivot_highs_exactly peak_series 1 true.
Proof.
  split; [right; lia|].
  apply (find_pivot_highs_exact peak_series 1 true). right. lia.
Defined.

(** ** Pivots come from the interior of the index, in order *)

Lemma lookup_total_seq {A} `{!Inhabited A} (l : list A) (a m : nat) :
  (a + m <= length l)%nat ->
  (fun i => l !!! i) <$> seq a m = take m (drop a l).
Proof.
  revert a. induction m as [|m IH]; intros a Hlen; [reflexivity|].
  destruct (lookup_lt_is_Some_2 l a) as [x Hx]; [lia|].
  cbn [seq]. rewrite fmap_cons, IH by lia.
  rewrite (drop_S l x a Hx). cbn [take].
  by rewrite (list_lookup_total_correct l a x Hx).
Qed.

Lemma labels_of_interior (close : Series Q) (k : nat) :
  label_at close <$> seq k (length close - k - k)
  = iloc_slice (index close) k (length close - k).
Proof.
  unfold label_at, iloc_slice.
  destruct (le_lt_dec (k + k) (length close)) as [Hle|Hlt].
  - rewrite lookup_total_seq; [reflexivity|].
    unfold index. rewrite length_fmap. lia.
  - by replace (length close - k - k)%nat with 0%nat by lia.
Qed.

Lemma filter_sublist {A} (P : A -> Prop) `{!forall x, Decision (P x)}
    (l : list A) : sublist (filter P l) l.
Proof.
  induction l as [|x l IH]; [constructor|].
  rewrite filter_cons. destruct (decide (P x)); by constructor.
Qed.

(** Both pivot finders, in both modes, return a sub-sequence of the labels
    of the interior positions [[k, n-k)], in the order of the index: at
    most [n - 2k] labels, none of them among the first [k] or the last [k]
    rows, and no label twice when the index has no duplicate. *)
Theorem pivots_interior_subsequence
    (close : Series Q) (k : nat) (strict : bool) :
  let interior := iloc_slice (index close) k (length close - k) in
  let lows := find_pivot_lows close k strict in
  let highs := find_pivot_highs close k strict in
  (sublist lows interior /\ sublist highs interior)
  /\ ((length lows <= length close - 2 * k)%nat
      /\ (length highs <= length close - 2 * k)%nat)
  /\ (NoDup (index close) -> NoDup lows /\ NoDup highs).
Proof.
  intros interior lows highs.
  assert (Hl : sublist lows interior).
  { unfold lows, interior. rewrite find_pivot_lows_positions.
    rewrite <- labels_of_interior. apply fmap_sublist, filter_sublist. }
  assert (Hh : sublist highs interior).
  { unfold highs, interior. rewrite find_pivot_highs_positions.
    rewrite <- labels_of_interior. apply fmap_sublist, filter_sublist. }
  assert (Hlen : (length interior <= length close - 2 * k)%nat).
  { unfold interior, iloc_slice. rewrite length_take. lia. }
  split; [by split|]. split.
  - apply sublist_length in Hl, Hh. lia.
  - intros Hnd.
    assert (Hi : NoDup interior).
    { unfold interior, iloc_slice.
      apply (sublist_NoDup _ (index close)); [exact Hnd|].
      etrans; [apply sublist_take|apply sublist_drop]. }
    split; eapply sublist_NoDup; eauto.
Qed.

(** ** Strict pivots are more than [k] bars apart *)

Lemma strict_lows_spaced close k i j :
  i ∈ pivot_low_positions close k true ->
  j ∈ pivot_low_positions close k true ->
  (i < j)%nat -> (i + k < j)%nat.
Proof.
  intros Hi Hj Hlt.
  apply elem_of_pivot_low_positions in Hi as [Hri Hi].
  apply elem_of_pivot_low_positions in Hj as [Hrj Hj].
  destruct (lookup_lt_is_Some_2 (values close) i) as [ci Hci];
    [rewrite values_length; lia|].
  destruct (lookup_lt_is_Some_2 (values close) j) as [cj Hcj];
    [rewrite values_length; lia|].
  destruct (pivot_low_at_sides close k i ci Hi Hci) as (_ & _ & _ & _ & Hr).
  destruct (pivot_low_at_sides close k j cj Hj Hcj) as (_ & _ & _ & Hl & _).
  destruct (le_lt_dec j (i + k)) as [Hnear|Hfar]; [|exact Hfar].
  exfalso.
  assert (H1 : (ci < cj)%Q) by (apply (Hr j); [lia|exact Hcj]).
  assert (H2 : (cj < ci)%Q) by (apply (Hl i); [lia|exact Hci]).
  lra.
Qed.

Lemma strict_highs_spaced close k i j :
  i ∈ pivot_high_positions close k true ->
  j ∈ pivot_high_positions close k true ->
  (i < j)%nat -> (i + k < j)%nat.
Proof.
  intros Hi Hj Hlt.
  apply elem_of_pivot_high_positions in Hi as [Hri Hi].
  apply elem_of_pivot_high_positions in Hj as [Hrj Hj].
  destruct (lookup_lt_is_Some_2 (values close) i) as [ci Hci];
    [rewrite values_length; lia|].
  destruct (lookup_lt_is_Some_2 (values close) j) as [cj Hcj];
    [rewrite values_length; lia|].
  destruct (pivot_high_at_sides close k i ci Hi Hci) as (_ & _ & _ & _ & Hr).
  destruct (pivot_high_at_sides close k j cj Hj Hcj) as (_ & _ & _ & Hl & _).
  destruct (le_lt_dec j (i + k)) as [Hnear|Hfar]; [|exact Hfar].
  exfalso.
  assert (H1 : (cj < ci)%Q) by (apply (Hr j); [lia|exact Hcj]).
  assert (H2 : (ci < cj)%Q) by (apply (Hl i); [lia|exact Hci]).
  lra.
Qed.

(** A strict pivot needs a window size of at least 1. *)
Lemma strict_lows_k0 close : pivot_low_positions close 0 true = [].
Proof.
  apply elem_of_nil_inv. intros i Hi.
  apply elem_of_pivot_low_positions in Hi as [Hr Hi].
  destruct (lookup_lt_is_Some_2 (values close) i) as [c Hc];
    [rewrite values_length; lia|].
  destruct (pivot_low_at_sides close 0 i c Hi Hc) as (Hk & _). lia.
Qed.

Lemma strict_highs_k0 close : pivot_high_positions close 0 true = [].
Proof.
  apply elem_of_nil_inv. intros i Hi.
  apply elem_of_pivot_high_positions in Hi as [Hr Hi].
  destruct (lookup_lt_is_Some_2 (values close) i) as [c Hc];
    [rewrite values_length; lia|].
  destruct (pivot_high_at_sides close 0 i c Hi Hc) as (Hk & _). lia.
Qed.

(** Positions in increasing order that are pairwise more than [k] apart and
    lie in [[k, n-k)]: fewer than two of them when [n < 3k + 2]. *)
Lemma spaced_positions_few (ps : list nat) (k n : nat) :
  StronglySorted lt ps ->
  (forall i, i ∈ ps -> (k <= i /\ i + k < n)%nat) ->
  (forall i j, i ∈ ps -> j ∈ ps -> (i < j)%nat -> (i + k < j)%nat) ->
  (n < 3 * k + 2)%nat -> (length ps < 2)%nat.
Proof.
  intros Hs Hr Hsp Hn. destruct ps as [|i [|j ps]]; simpl; [lia|lia|].
  exfalso. apply StronglySorted_cons in Hs as [Hij _].
  apply Forall_cons in Hij as [Hij _].
  assert (Hi : i ∈ i :: j :: ps) by left.
  assert (Hj : j ∈ i :: j :: ps) by (right; left).
  pose proof (Hr i Hi). pose proof (Hr j Hj).
  pose proof (Hsp i j Hi Hj Hij). lia.
Qed.

Lemma strict_lows_few close k :
  (k = 0 \/ length close < 3 * k + 2)%nat ->
  (length (find_pivot_lows close k true) < 2)%nat.
Proof.
  intros H. rewrite find_pivot_lows_positions, length_fmap.
  destruct H as [->|H]; [rewrite strict_lows_k0; simpl; lia|].
  apply (spaced_positions_few _ k (length close)); [| | |exact H].
  - apply StronglySorted_filter_seq.
  - intros i Hi. apply elem_of_pivot_low_positions in Hi. lia.
  - apply strict_lows_spaced.
Qed.

Lemma strict_highs_few close k :
  (k = 0 \/ length close < 3 * k + 2)%nat ->
  (length (find_pivot_highs close k true) < 2)%nat.
Proof.
  intros H. rewrite find_pivot_highs_positions, length_fmap.
  destruct H as [->|H]; [rewrite strict_highs_k0; simpl; lia|].
  apply (spaced_positions_few _ k (length close)); [| | |exact H].
  - apply StronglySorted_filter_seq.
  - intros i Hi. apply elem_of_pivot_high_positions in Hi. lia.
  - apply strict_highs_spaced.
Qed.

(** In strict mode (the mode the detectors use) two pivots of the same
    kind are more than [k] positions apart; with [k = 0] there is no pivot
    at all, and a series of fewer than [3k + 2] rows has at most one pivot
    of each kind. *)
Theorem strict_pivots_spaced (close : Series Q) (k : nat) :
  (forall i j,
      i ∈ pivot_low_positions close k true ->
      j ∈ pivot_low_positions close k true ->
      (i < j)%nat -> (i + k < j)%nat)
  /\ (forall i j,
        i ∈ pivot_high_positions close k true ->
        j ∈ pivot_high_positions close k true ->
        (i < j)%nat -> (i + k < j)%nat)
  /\ (k = 0%nat ->
      find_pivot_lows close k true = [] /\ find_pivot_highs close k true = [])
  /\ ((length close < 3 * k + 2)%nat ->
      (length (find_pivot_lows close k true) < 2)%nat
      /\ (length (find_pivot_highs close k true) < 2)%nat).
Proof.
  split; [apply strict_lows_spaced|]. split; [apply strict_highs_spaced|].
  split.
  - intros ->. rewrite find_pivot_lows_positions, find_pivot_highs_positions.
    by rewrite strict_lows_k0, strict_highs_k0.
  - intros H. split; [apply strict_lows_few|apply strict_highs_few]; by right.
Qed.

Lemma strict_pivots_spaced_witness :
  (1%nat ∈ pivot_low_positions higher_low 1 true
   /\ 3%nat ∈ pivot_low_positions higher_low 1 true /\ (1 < 3)%nat)
  /\ (1 + 1 < 3)%nat.
Proof.
  assert (H1 : 1%nat ∈ pivot_low_positions higher_low 1 true).
  { apply (bool_decide_unpack _). by vm_compute. }
  assert (H3 : 3%nat ∈ pivot_low_positions higher_low 1 true).
  { apply (bool_decide_unpack _). by vm_compute. }
  assert (Hlt : (1 < 3)%nat) by lia.
  split; [by repeat split|].
  destruct (strict_pivots_spaced higher_low 1) as [H _].
  exact (H 1%nat 3%nat H1 H3 Hlt).
Defined.

End PivotFacts.

(* ===================================================================== *)
(** * The four detectors *)
(* ===================================================================== *)

Module DetectorFacts.
Import Pandas Config Divergence PandasFacts DivergenceFacts PivotFacts.

(** ** The common shape of the detectors *)

(** The four detectors of app/divergence.py differ in the pivot finder, in
    the comparison of the two prices, in the comparison of the two
    indicator values and in the trend gate; [detect_with] is their common
    body, with these four as parameters ([price_ok c1 c2] and
    [ind_ok i1 i2] take the value at [p1] first). *)
Definition detect_with
    (find : Series Q -> nat -> bool -> list label)
    (price_ok : Q -> Q -> bool) (ind_ok : fval -> fval -> bool)
    (gate : Settings -> Series Q -> result bool)
    (settings : Settings) (close ind : Series Q) (lookback k : nat)
  : result (option detection) :=
  let sub_close := tail close lookback in
  sub_ind ← reindex ind (index sub_close);
  let piv := find sub_close k true in
  match last_two piv with
  | None => Ok None
  | Some (p1, p2) =>
      c2 ← loc sub_close p2;
      c1 ← loc sub_close p1;
      if price_ok c1 c2 then
        i2 ← loc sub_ind p2;
        i1 ← loc sub_ind p1;
        if ind_ok i1 i2 then
          ok ← gate settings sub_close;
          if negb ok then Ok None
          else Ok (Some {| p1_ts := p1; p2_ts := p2;
                           price := c2; indicator_value := i2 |})
        else Ok None
      else Ok None
  end.

Lemma detect_hidden_bullish_shape :
  detect_hidden_bullish
  = detect_with find_pivot_lows (fun c1 c2 => Qltb c1 c2)
                (fun i1 i2 => flt i2 i1) _bull_trend_ok.
Proof. reflexivity. Qed.

Lemma detect_hidden_bearish_shape :
  detect_hidden_bearish
  = detect_with find_pivot_highs (fun c1 c2 => Qltb c2 c1)
                (fun i1 i2 => fgt i2 i1) _bear_trend_ok.
Proof. reflexivity. Qed.

Lemma detect_regular_bullish_shape :
  detect_regular_bullish
  = detect_with find_pivot_lows (fun c1 c2 => Qltb c2 c1)
                (fun i1 i2 => fgt i2 i1) _bull_trend_ok.
Proof. reflexivity. Qed.

Lemma detect_regular_bearish_shape :
  detect_regular_bearish
  = detect_with find_pivot_highs (fun c1 c2 => Qltb c1 c2)
                (fun i1 i2 => flt i2 i1) _bear_trend_ok.
Proof. reflexivity. Qed.

Section Shape.
Context (find : Series Q -> nat -> bool -> list label).
Context (price_ok : Q -> Q -> bool) (ind_ok : fval -> fval -> bool).
Context (gate : Settings -> Series Q -> result bool).
Context (settings : Settings) (close ind : Series Q) (lookback k : nat).

Let window : Series Q := tail close lookback.
Let detect := detect_with find price_ok ind_ok gate settings close ind lookback k.

(** What it takes for a detector to return a detection. *)
Lemma detect_with_Some (d : detection) :
  detect = Ok (Some d) <->
  exists sub_ind p1 p2 c1 c2 i1 i2,
    reindex ind (index window) = Ok sub_ind /\
    last_two (find window k true) = Some (p1, p2) /\
    loc window p2 = Ok c2 /\ loc window p1 = Ok c1 /\
    price_ok c1 c2 = true /\
    loc sub_ind p2 = Ok i2 /\ loc sub_ind p1 = Ok i1 /\
    ind_ok i1 i2 = true /\
    gate settings window = Ok true /\
    d = {| p1_ts := p1; p2_ts := p2; price := c2; indicator_value := i2 |}.
Proof.
  unfold detect, detect_with. fold window. cbv zeta. split.
  - destruct (reindex ind (index window)) as [sub_ind|] eqn:Hre;
      [|discriminate].
    rewrite bind_Ok.
    destruct (last_two (find window k true)) as [[p1 p2]|] eqn:Hl;
      [|discriminate].
    destruct (loc window p2) as [c2|] eqn:Hc2; [|discriminate].
    rewrite bind_Ok.
    destruct (loc window p1) as [c1|] eqn:Hc1; [|discriminate].
    rewrite bind_Ok.
    destruct (price_ok c1 c2) eqn:Hp; [|discriminate].
    destruct (loc sub_ind p2) as [i2|] eqn:Hi2; [|discriminate].
    rewrite bind_Ok.
    destruct (loc sub_ind p1) as [i1|] eqn:Hi1; [|discriminate].
    rewrite bind_Ok.
    destruct (ind_ok i1 i2) eqn:Hi; [|discriminate].
    destruct (gate settings window) as [[|]|] eqn:Hg; try discriminate.
    rewrite bind_Ok. cbn [negb]. intros [= <-].
    exists sub_ind, p1, p2, c1, c2, i1, i2.
    repeat split; first [assumption | reflexivity].
  - intros (sub_ind & p1 & p2 & c1 & c2 & i1 & i2 & Hre & Hl & Hc2 & Hc1 & Hp &
            Hi2 & Hi1 & Hi & Hg & ->).
    rewrite Hre, bind_Ok, Hl, Hc2, bind_Ok, Hc1, bind_Ok, Hp.
    by rewrite Hi2, bind_Ok, Hi1, bind_Ok, Hi, Hg.
Qed.

(** With fewer than two pivots a detector stops at once. *)
Lemma detect_with_few (d : detection) :
  (length (find window k true) < 2)%nat -> detect <> Ok (Some d).
Proof.
  intros Hlen H. apply detect_with_Some in H
    as (? & p1 & p2 & ? & ? & ? & ? & _ & Hl & _).
  apply last_two_None in Hlen. subst window. congruence.
Qed.

(** A detection passed the gate. *)
Lemma detect_with_gate (d : detection) :
  detect = Ok (Some d) -> gate settings window = Ok true.
Proof.
  intros H. by apply detect_with_Some in H
    as (? & ? & ? & ? & ? & ? & ? & _ & _ & _ & _ & _ & _ & _ & _ & Hg & _).
Qed.

(** Two detectors on the same pivots whose price tests exclude each other:
    when one returns a detection, the other returns nothing. *)
Lemma detect_with_price_exclusive price_ok' ind_ok' gate' (d : detection) :
  (forall c1 c2, price_ok c1 c2 = true -> price_ok' c1 c2 = false) ->
  detect = Ok (Some d) ->
  detect_with find price_ok' ind_ok' gate' settings close ind lookback k
  = Ok None.
Proof.
  intros Hex H. apply detect_with_Some in H
    as (sub_ind & p1 & p2 & c1 & c2 & ? & ? & Hre & Hl & Hc2 & Hc1 & Hp & _).
  unfold detect_with. fold window. cbv zeta.
  rewrite Hre, bind_Ok, Hl, Hc2, bind_Ok, Hc1, bind_Ok.
  by rewrite (Hex c1 c2 Hp).
Qed.

(** On series with unique labels the lookups of a detector succeed. *)
Hypothesis find_in_index :
  forall w p, p ∈ find w k true -> p ∈ index w.

Lemma detect_with_unique (d : detection) :
  NoDup (index close) -> NoDup (index ind) ->
  detect = Ok (Some d) <->
  exists earlier p1 p2 c1 c2,
    find window k true = earlier ++ [p1; p2] /\
    at_label window p1 = Some c1 /\ at_label window p2 = Some c2 /\
    price_ok c1 c2 = true /\
    ind_ok (at_label ind p1) (at_label ind p2) = true /\
    gate settings window = Ok true /\
    d = {| p1_ts := p1; p2_ts := p2; price := c2;
           indicator_value := at_label ind p2 |}.
Proof.
  intros Hc Hi.
  assert (Hw : NoDup (index window)).
  { unfold window. rewrite index_tail. by apply NoDup_lastn. }
  destruct (reindex_unique ind (index window) Hi Hw) as [sub_ind [Hre Hloc]].
  rewrite detect_with_Some. split.
  - intros (sub_ind' & p1 & p2 & c1 & c2 & i1 & i2 & Hre' & Hl & Hc2 & Hc1 &
            Hp & Hi2 & Hi1 & Hio & Hg & ->).
    rewrite Hre in Hre'. injection Hre' as <-.
    pose proof Hl as Hpiv. apply last_two_Some in Hpiv as [earlier Hpiv].
    assert (Hp1 : p1 ∈ index window).
    { apply find_in_index. rewrite Hpiv. apply elem_of_app. right. left. }
    assert (Hp2 : p2 ∈ index window).
    { apply find_in_index. rewrite Hpiv.
      apply elem_of_app. right. right. left. }
    destruct (loc_at_label window p1 Hw Hp1) as [c1' [Hl1 Ha1]].
    destruct (loc_at_label window p2 Hw Hp2) as [c2' [Hl2 Ha2]].
    rewrite Hl1 in Hc1. injection Hc1 as ->.
    rewrite Hl2 in Hc2. injection Hc2 as ->.
    rewrite (Hloc p1 Hp1) in Hi1. injection Hi1 as <-.
    rewrite (Hloc p2 Hp2) in Hi2. injection Hi2 as <-.
    exists earlier, p1, p2, c1, c2. repeat split; assumption.
  - intros (earlier & p1 & p2 & c1 & c2 & Hpiv & Ha1 & Ha2 & Hp & Hio & Hg & ->).
    assert (Hp1 : p1 ∈ index window).
    { apply find_in_index. rewrite Hpiv. apply elem_of_app. right. left. }
    assert (Hp2 : p2 ∈ index window).
    { apply find_in_index. rewrite Hpiv.
      apply elem_of_app. right. right. left. }
    destruct (loc_at_label window p1 Hw Hp1) as [c1' [Hl1 Ha1']].
    destruct (loc_at_label window p2 Hw Hp2) as [c2' [Hl2 Ha2']].
    rewrite Ha1 in Ha1'. injection Ha1' as <-.
    rewrite Ha2 in Ha2'. injection Ha2' as <-.
    exists sub_ind, p1, p2, c1, c2, (at_label ind p1), (at_label ind p2).
    repeat split; try assumption.
    + apply last_two_Some. by exists earlier.
    + by apply Hloc.
    + by apply Hloc.
Qed.

(** On series with unique labels a detector raises only if its gate does. *)
Lemma detect_with_total :
  NoDup (index close) -> NoDup (index ind) ->
  (exists b, gate settings window = Ok b) ->
  exists r, detect = Ok r.
Proof.
  intros Hc Hi [b Hb].
  assert (Hw : NoDup (index window)).
  { unfold window. rewrite index_tail. by apply NoDup_lastn. }
  destruct (reindex_unique ind (index window) Hi Hw) as [sub_ind [Hre Hloc]].
  unfold detect, detect_with. fold window. cbv zeta. rewrite Hre, bind_Ok.
  destruct (last_two (find window k true)) as [[p1 p2]|] eqn:Hl;
    [|by eexists].
  apply last_two_Some in Hl as [earlier Hpiv].
  assert (Hp1 : p1 ∈ index window).
  { apply find_in_index. rewrite Hpiv. apply elem_of_app. right. left. }
  assert (Hp2 : p2 ∈ index window).
  { apply find_in_index. rewrite Hpiv. apply elem_of_app. right. right. left. }
  destruct (loc_at_label window p1 Hw Hp1) as [c1 [-> _]].
  destruct (loc_at_label window p2 Hw Hp2) as [c2 [-> _]].
  rewrite !bind_Ok. destruct (price_ok c1 c2); [|by eexists].
  rewrite (Hloc p1 Hp1), (Hloc p2 Hp2), !bind_Ok.
  destruct (ind_ok _ _); [|by eexists].
  rewrite Hb, bind_Ok. destruct b; by eexists.
Qed.

End Shape.

Lemma find_pivot_highs_in_index close k strict p :
  p ∈ find_pivot_highs close k strict -> p ∈ index close.
Proof.
  rewrite find_pivot_highs_positions. intros H.
  apply list_elem_of_fmap in H as [i [-> Hi]].
  apply elem_of_pivot_high_positions in Hi. apply label_at_in_index. lia.
Qed.

(** ** The bearish gate *)

Lemma bear_trend_ok_short settings close :
  use_trend_filter settings = true ->
  (length close < ema_period settings + 5)%nat ->
  _bear_trend_ok settings close = Ok false.
Proof.
  intros H Hlen. unfold _bear_trend_ok, dropna. rewrite H. simpl.
  apply Nat.ltb_lt in Hlen. by rewrite Hlen.
Qed.

Lemma bear_trend_ok_total settings close :
  (use_trend_filter settings = true -> (1 <= ema_period settings)%nat) ->
  exists b, _bear_trend_ok settings close = Ok b.
Proof.
  intros Hp. unfold _bear_trend_ok, dropna.
  destruct (use_trend_filter settings); simpl; [|by eexists].
  destruct (length close <? ema_period settings + 5)%nat eqn:E; [by eexists|].
  apply Nat.ltb_ge in E. unfold _ema.
  destruct (ewm_mean_Ok (Z.of_nat (ema_period settings)) (Some <$> values close))
    as [e [-> He]]; [specialize (Hp eq_refl); lia|].
  rewrite length_fmap, values_length in He.
  destruct (iloc_last_Ok (values close)) as [x Hx];
    [rewrite values_length; lia|].
  destruct (iloc_last_Ok e) as [y Hy]; [lia|].
  simpl. rewrite Hx. simpl. rewrite Hy. simpl. by eexists.
Qed.

(** With the filter on, the last price cannot be both above and below the
    last value of the trend average. *)
Lemma trend_gates_disjoint settings close :
  use_trend_filter settings = true ->
  _bull_trend_ok settings close = Ok true ->
  _bear_trend_ok settings close = Ok true -> False.
Proof.
  intros Hon. unfold _bull_trend_ok, _bear_trend_ok. rewrite Hon. cbn [negb].
  destruct (_ <? _)%nat; [discriminate|].
  destruct (_ema (values (dropna close)) (ema_period settings)) as [e|];
    [|discriminate].
  rewrite !bind_Ok.
  destruct (iloc_last (values (dropna close))) as [s_last|]; [|discriminate].
  rewrite !bind_Ok.
  destruct (iloc_last e) as [e_last|]; [|discriminate].
  rewrite !bind_Ok. intros [= H1] [= H2].
  unfold fgt in H1. apply flt_true in H1 as (x & y & -> & [= <-] & Hxy).
  apply (Qltb_lt s_last x) in H2. lra.
Qed.

(** ** Exact behaviour of the other three detectors *)


(** Two pivot highs 7 and 6 at labels 1 and 3, with the indicator rising
    from 5 to 6 between them. *)
Definition lower_high : Series Q :=
  [(0%Z, 5%Q); (1%Z, 7%Q); (2%Z, 5%Q); (3%Z, 6%Q); (4%Z, 4%Q); (5%Z, 3%Q)].

Definition higher_high : Series Q :=
  [(0%Z, 3%Q); (1%Z, 5%Q); (2%Z, 3%Q); (3%Z, 6%Q); (4%Z, 2%Q); (5%Z, 1%Q)].






(** ** What the detectors never do *)

Lemma Qltb_asym (a b : Q) : Qltb a b = true -> Qltb b a = false.
Proof. rewrite Qltb_lt, Qltb_ge. apply Qlt_le_weak. Qed.

(** On the same inputs the hidden and the regular detector of one side
    never both report: they read the same two pivots and ask opposite
    things of the prices, so when one returns a detection the other
    returns [None]. *)
Theorem hidden_and_regular_exclusive
    (settings : Settings) (close ind : Series Q) (lookback k : nat) :
  (forall d,
      detect_hidden_bullish settings close ind lookback k = Ok (Some d) ->
      detect_regular_bullish settings close ind lookback k = Ok None)
  /\ (forall d,
        detect_regular_bullish settings close ind lookback k = Ok (Some d) ->
        detect_hidden_bullish settings close ind lookback k = Ok None)
  /\ (forall d,
        detect_hidden_bearish settings close ind lookback k = Ok (Some d) ->
        detect_regular_bearish settings close ind lookback k = Ok None)
  /\ (forall d,
        detect_regular_bearish settings close ind lookback k = Ok (Some d) ->
        detect_hidden_bearish settings close ind lookback k = Ok None).
Proof.
  rewrite detect_hidden_bullish_shape, detect_regular_bullish_shape,
    detect_hidden_bearish_shape, detect_regular_bearish_shape.
  repeat split; intros d H;
    (eapply detect_with_price_exclusive; [|exact H]);
    intros c1 c2; apply Qltb_asym.
Qed.

Lemma hidden_and_regular_exclusive_witness :
  detect_hidden_bullish filter_off higher_low lower_low 60 1
  = Ok (Some {| p1_ts := 1; p2_ts := 3; price := 4;
                indicator_value := Some 2%Q |})
  /\ detect_regular_bullish filter_off higher_low lower_low 60 1 = Ok None.
Proof.
  assert (H : detect_hidden_bullish filter_off higher_low lower_low 60 1
              = Ok (Some {| p1_ts := 1; p2_ts := 3; price := 4;
                            indicator_value := Some 2%Q |})) by reflexivity.
  split; [exact H|].
  destruct (hidden_and_regular_exclusive filter_off higher_low lower_low 60 1)
    as [Hx _].
  exact (Hx _ H).
Defined.

Lemma tail_length {A} (s : list A) (n : nat) :
  length (tail s n) = min n (length s).
Proof. unfold tail, lastn. rewrite length_drop. lia. Qed.

(** The detectors of [DETECTOR_MAP]. *)
Definition is_detector
    (det : Settings -> Series Q -> Series Q -> nat -> nat
           -> result (option detection)) : Prop :=
  det = detect_hidden_bullish \/ det = detect_hidden_bearish
  \/ det = detect_regular_bullish \/ det = detect_regular_bearish.

Lemma silent_without_room det settings close ind lookback k d :
  is_detector det ->
  (k = 0 \/ min lookback (length close) < 3 * k + 2)%nat ->
  det settings close ind lookback k <> Ok (Some d).
Proof.
  intros Hdet Hroom.
  assert (Hw : (k = 0 \/ length (tail close lookback) < 3 * k + 2)%nat)
    by (rewrite tail_length; exact Hroom).
  destruct Hdet as [-> | [-> | [-> | ->]]];
    rewrite ?detect_hidden_bullish_shape, ?detect_regular_bullish_shape,
      ?detect_hidden_bearish_shape, ?detect_regular_bearish_shape;
    apply detect_with_few;
    first [by apply strict_lows_few | by apply strict_highs_few].
Qed.

Lemma silent_without_history det settings close ind lookback k d :
  is_detector det ->
  use_trend_filter settings = true ->
  (min lookback (length close) < ema_period settings + 5)%nat ->
  det settings close ind lookback k <> Ok (Some d).
Proof.
  intros Hdet Hon Hlen. rewrite <- tail_length in Hlen.
  pose proof (bull_trend_ok_short settings _ Hon Hlen) as Hbull.
  pose proof (bear_trend_ok_short settings _ Hon Hlen) as Hbear.
  destruct Hdet as [-> | [-> | [-> | ->]]];
    rewrite ?detect_hidden_bullish_shape, ?detect_regular_bullish_shape,
      ?detect_hidden_bearish_shape, ?detect_regular_bearish_shape;
    intros H; apply detect_with_gate in H; congruence.
Qed.

Lemma detector_total det settings close ind lookback k :
  is_detector det ->
  NoDup (index close) -> NoDup (index ind) ->
  (use_trend_filter settings = true -> (1 <= ema_period settings)%nat) ->
  exists r, det settings close ind lookback k = Ok r.
Proof.
  intros Hdet Hc Hi Hp.
  destruct Hdet as [-> | [-> | [-> | ->]]];
    rewrite ?detect_hidden_bullish_shape, ?detect_regular_bullish_shape,
      ?detect_hidden_bearish_shape, ?detect_regular_bearish_shape;
    apply detect_with_total; try assumption;
    first [ intros w p; apply find_pivot_lows_in_index
          | intros w p; apply find_pivot_highs_in_index
          | by apply bull_trend_ok_total
          | by apply bear_trend_ok_total ].
Qed.

(** No detector ever reports a divergence when the pivot window [k] is 0,
    or when the analysed window (the last [lookback] bars of the series)
    has fewer than [3k + 2] bars: two strict pivots do not fit in it. *)
Theorem detectors_need_room
    (settings : Settings) (close ind : Series Q) (lookback k : nat) :
  (k = 0 \/ min lookback (length close) < 3 * k + 2)%nat ->
  forall d,
    detect_hidden_bullish settings close ind lookback k <> Ok (Some d)
    /\ detect_hidden_bearish settings close ind lookback k <> Ok (Some d)
    /\ detect_regular_bullish settings close ind lookback k <> Ok (Some d)
    /\ detect_regular_bearish settings close ind lookback k <> Ok (Some d).
Proof.
  intros Hroom d.
  repeat split; apply silent_without_room; try exact Hroom;
    unfold is_detector; tauto.
Qed.

Lemma detectors_need_room_witness :
  (1 = 0 \/ min 4 (length higher_low) < 3 * 1 + 2)%nat
  /\ detect_hidden_bullish filter_off higher_low lower_low 4 1
     <> Ok (Some {| p1_ts := 1; p2_ts := 3; price := 4;
                    indicator_value := Some 2%Q |}).
Proof.
  assert (H : (1 = 0 \/ min 4 (length higher_low) < 3 * 1 + 2)%nat)
    by (right; simpl; lia).
  split; [exact H|].
  destruct (detectors_need_room filter_off higher_low lower_low 4 1 H
              {| p1_ts := 1; p2_ts := 3; price := 4;
                 indicator_value := Some 2%Q |}) as [Hx _].
  exact Hx.
Defined.

(** With the trend filter on, a bullish detector (hidden or regular) and a
    bearish one never both report on the same inputs: the bullish gate
    wants the last price above the trend average, the bearish gate wants it
    below. *)
Theorem bullish_and_bearish_exclusive
    (settings : Settings) (close ind : Series Q) (lookback k : nat) :
  use_trend_filter settings = true ->
  let window := tail close lookback in
  ~ (_bull_trend_ok settings window = Ok true
     /\ _bear_trend_ok settings window = Ok true)
  /\ (forall d d',
        detect_hidden_bullish settings close ind lookback k = Ok (Some d)
        \/ detect_regular_bullish settings close ind lookback k = Ok (Some d) ->
        detect_hidden_bearish settings close ind lookback k <> Ok (Some d')
        /\ detect_regular_bearish settings close ind lookback k <> Ok (Some d')).
Proof.
  intros Hon window. split.
  - intros [H1 H2]. exact (trend_gates_disjoint settings window Hon H1 H2).
  - intros d d' Hbull.
    assert (Hg : _bull_trend_ok settings window = Ok true).
    { destruct Hbull as [H|H].
      - rewrite detect_hidden_bullish_shape in H.
        by apply detect_with_gate in H.
      - rewrite detect_regular_bullish_shape in H.
        by apply detect_with_gate in H. }
    split; intros H.
    + rewrite detect_hidden_bearish_shape in H. apply detect_with_gate in H.
      exact (trend_gates_disjoint settings window Hon Hg H).
    + rewrite detect_regular_bearish_shape in H. apply detect_with_gate in H.
      exact (trend_gates_disjoint settings window Hon Hg H).
Qed.

Lemma bullish_and_bearish_exclusive_witness :
  use_trend_filter default_settings = true
  /\ ~ (_bull_trend_ok default_settings (tail higher_low 60) = Ok true
        /\ _bear_trend_ok default_settings (tail higher_low 60) = Ok true).
Proof.
  split; [reflexivity|].
  destruct (bullish_and_bearish_exclusive default_settings higher_low
              lower_low 60 1) as [H _]; [reflexivity|].
  exact H.
Defined.

(** With the trend filter on, no detector reports anything while the
    analysed window has fewer than [ema_period + 5] bars: both gates fail
    closed.  In particular a [lookback] below [ema_period + 5] silences all
    four detectors. *)
Theorem trend_filter_needs_history
    (settings : Settings) (close ind : Series Q) (lookback k : nat) :
  use_trend_filter settings = true ->
  (min lookback (length close) < ema_period settings + 5)%nat ->
  forall d,
    detect_hidden_bullish settings close ind lookback k <> Ok (Some d)
    /\ detect_hidden_bearish settings close ind lookback k <> Ok (Some d)
    /\ detect_regular_bullish settings close ind lookback k <> Ok (Some d)
    /\ detect_regular_bearish settings close ind lookback k <> Ok (Some d).
Proof.
  intros Hon Hlen d.
  repeat split; apply silent_without_history; try assumption;
    unfold is_detector; tauto.
Qed.

Lemma trend_filter_needs_history_witness :
  (use_trend_filter default_settings = true
   /\ (min 60 (length higher_low) < ema_period default_settings + 5)%nat)
  /\ detect_hidden_bullish default_settings higher_low lower_low 60 1
     <> Ok (Some {| p1_ts := 1; p2_ts := 3; price := 4;
                    indicator_value := Some 2%Q |}).
Proof.
  assert (Hlen : (min 60 (length higher_low)
                  < ema_period default_settings + 5)%nat) by (simpl; lia).
  split; [by split|].
  destruct (trend_filter_needs_history default_settings higher_low lower_low
              60 1 eq_refl Hlen
              {| p1_ts := 1; p2_ts := 3; price := 4;
                 indicator_value := Some 2%Q |}) as [Hx _].
  exact Hx.
Defined.

End DetectorFacts.

(* ===================================================================== *)
(** * Exponential smoothing and the MACD *)
(* ===================================================================== *)

Module SmoothingFacts.
Import Pandas Config Divergence Indicators.
Import PandasFacts DivergenceFacts IndicatorFacts.

(** ** One step of the kernel *)

Lemma alpha_of_span_value (span : Z) :
  (1 <= span)%Z -> (alpha_of_span span == 2 / (inject_Z span + 1))%Q.
Proof.
  intros H. unfold alpha_of_span. rewrite Qmake_Qdiv.
  rewrite Z2Pos.id by lia. by rewrite inject_Z_plus.
Qed.

(** On two finite values the kernel stores the weighted mean of the old
    state and the new value, with weights [old_wt * (1 - alpha)] and
    [alpha], and resets the weight to 1. *)
Lemma ewm_step_value (alpha w ow c : Q) :
  (0 < alpha)%Q -> (alpha <= 1)%Q -> (0 <= ow)%Q ->
  exists w', ewm_step alpha (Some w, ow) (Some c) = (Some w', 1%Q)
    /\ (w' == (ow * (1 - alpha) * w + alpha * c)
               / (ow * (1 - alpha) + alpha))%Q.
Proof.
  intros Ha0 Ha1 Hw.
  assert (Hp : (0 <= ow * (1 - alpha))%Q) by (apply Qmult_le_0_compat; lra).
  assert (Hd : ~ (ow * (1 - alpha) + alpha == 0)%Q) by (intros H; lra).
  unfold ewm_step. destruct (Qeq_bool w c) eqn:E.
  - exists w. split; [reflexivity|]. apply Qeq_bool_iff in E.
    rewrite <- E. field. exact Hd.
  - eexists. split; reflexivity.
Qed.

(** With weight 1 this is the usual recursion:
    [alpha * value + (1 - alpha) * previous]. *)
Lemma ewm_step_unit (alpha w c : Q) :
  (0 < alpha)%Q -> (alpha <= 1)%Q ->
  exists w', ewm_step alpha (Some w, 1%Q) (Some c) = (Some w', 1%Q)
    /\ (w' == alpha * c + (1 - alpha) * w)%Q.
Proof.
  intros Ha0 Ha1.
  destruct (ewm_step_value alpha w 1 c Ha0 Ha1) as [w' [Hs Hw']]; [lra|].
  exists w'. split; [exact Hs|]. rewrite Hw'. field. lra.
Qed.

(** ** The recursion of the EMA *)

(** [es] follows [xs] from [prev]: every value is
    [alpha * price + (1 - alpha) * previous value]. *)
Fixpoint ema_follows (alpha prev : Q) (xs es : list Q) : Prop :=
  match xs, es with
  | [], [] => True
  | x :: xs, e :: es =>
      (e == alpha * x + (1 - alpha) * prev)%Q /\ ema_follows alpha e xs es
  | _, _ => False
  end.

Lemma ewm_loop_follows (alpha w : Q) (xs : list Q) :
  (0 < alpha)%Q -> (alpha <= 1)%Q ->
  exists es, ewm_loop alpha (Some w, 1%Q) (Some <$> xs) = Some <$> es
             /\ ema_follows alpha w xs es.
Proof.
  intros Ha0 Ha1. revert w. induction xs as [|x xs IH]; intros w.
  - by exists [].
  - destruct (ewm_step_unit alpha w x Ha0 Ha1) as [w' [Hs Hw']].
    destruct (IH w') as [es [He Hf]].
    exists (w' :: es). rewrite !fmap_cons. cbn [ewm_loop]. rewrite Hs.
    cbn [fst]. rewrite He. split; [reflexivity|]. by split.
Qed.

Lemma ema_follows_length alpha prev xs es :
  ema_follows alpha prev xs es -> length es = length xs.
Proof.
  revert prev es. induction xs as [|x xs IH]; intros prev [|e es]; simpl;
    try done.
  intros [_ H]. by rewrite (IH _ _ H).
Qed.

(** Smoothing finite values gives finite values. *)
Lemma ewm_mean_finite (span : Z) (l : list Q) :
  (1 <= span)%Z ->
  exists e, ewm_mean span (Some <$> l) = Ok (Some <$> e)
            /\ length e = length l.
Proof.
  intros Hs. destruct (alpha_range span Hs) as [Ha0 Ha1].
  unfold ewm_mean. destruct (span <? 1)%Z eqn:E; [apply Z.ltb_lt in E; lia|].
  destruct l as [|x l]; [by exists []|].
  destruct (ewm_loop_follows (alpha_of_span span) x l Ha0 Ha1) as [es [He Hf]].
  exists (x :: es). rewrite !fmap_cons. cbv iota beta. rewrite He.
  split; [reflexivity|]. simpl. by rewrite (ema_follows_length _ _ _ _ Hf).
Qed.

(** [_ema(series, period)], for a period of at least 1, starts at the first
    price and then follows the recursion
    [EMA = alpha * price + (1 - alpha) * previous EMA] with
    [alpha = 2 / (period + 1)] (up to equality of rationals); with a period
    of 0 pandas refuses the span and the call raises. *)
Theorem ema_textbook_recursion (series : list Q) (period : nat) :
  let alpha := alpha_of_span (Z.of_nat period) in
  ((1 <= period)%nat ->
   (alpha == 2 / (inject_Z (Z.of_nat period) + 1))%Q
   /\ match series with
      | [] => _ema series period = Ok []
      | x0 :: xs =>
          exists es, _ema series period = Ok (Some x0 :: (Some <$> es))
                     /\ ema_follows alpha x0 xs es
      end)
  /\ (period = 0%nat -> _ema series period = Raise "ValueError").
Proof.
  intros alpha. split.
  - intros Hp. assert (Hs : (1 <= Z.of_nat period)%Z) by lia.
    split; [by apply alpha_of_span_value|].
    destruct (alpha_range _ Hs) as [Ha0 Ha1].
    unfold _ema, ewm_mean.
    destruct (Z.of_nat period <? 1)%Z eqn:E; [apply Z.ltb_lt in E; lia|].
    destruct series as [|x0 xs]; [reflexivity|].
    destruct (ewm_loop_follows alpha x0 xs Ha0 Ha1) as [es [He Hf]].
    exists es. rewrite fmap_cons. cbv iota beta. fold alpha. by rewrite He.
  - intros ->. reflexivity.
Qed.

Lemma ema_textbook_recursion_witness :
  (1 <= 3)%nat
  /\ exists es, _ema [4; 8]%Q 3 = Ok (Some 4%Q :: (Some <$> es))
                /\ ema_follows (alpha_of_span 3) 4 [8%Q] es.
Proof.
  split; [lia|].
  destruct (ema_textbook_recursion [4; 8]%Q 3) as [H _].
  destruct H as [_ H]; [lia|]. exact H.
Defined.

(** ** Smoothing looks at the past only *)

Lemma ewm_loop_take alpha st (l : list fval) (n : nat) :
  ewm_loop alpha st (take n l) = take n (ewm_loop alpha st l).
Proof.
  revert st n. induction l as [|x l IH]; intros st [|n]; simpl; try done.
  by rewrite IH.
Qed.

Lemma ewm_mean_take (span : Z) (l : list fval) (n : nat) :
  ewm_mean span (take n l) = (e ← ewm_mean span l; Ok (take n e)).
Proof.
  unfold ewm_mean. destruct (span <? 1)%Z; [reflexivity|].
  destruct l as [|x l], n as [|n]; simpl; try reflexivity.
  by rewrite ewm_loop_take.
Qed.

(** ** The fills do nothing on finite values *)

Lemma bfill_finite (l : list Q) : bfill (Some <$> l) = Some <$> l.
Proof.
  induction l as [|x l IH]; [done|].
  rewrite fmap_cons. cbn [bfill]. by rewrite IH.
Qed.

Lemma fillna_finite (d : Q) (l : list Q) : fillna d (Some <$> l) = l.
Proof.
  unfold fillna. rewrite <- list_fmap_compose. apply list_fmap_id.
Qed.

Lemma zip_with_fsub_finite (a b : list Q) :
  zip_with fsub (Some <$> a) (Some <$> b) = Some <$> zip_with Qminus a b.
Proof.
  revert b. induction a as [|x a IH]; intros [|y b]; try done.
  rewrite !fmap_cons. cbn [zip_with]. by rewrite IH.
Qed.

(** ** The MACD line *)

Lemma macd_compute_value (fast slow : Z) (close : list Q) :
  (1 <= fast)%Z -> (1 <= slow)%Z ->
  exists ema_fast ema_slow,
    ewm_mean fast (Some <$> close) = Ok (Some <$> ema_fast)
    /\ ewm_mean slow (Some <$> close) = Ok (Some <$> ema_slow)
    /\ length ema_fast = length close /\ length ema_slow = length close
    /\ macd_compute fast slow close = Ok (zip_with Qminus ema_fast ema_slow).
Proof.
  intros Hf Hs.
  destruct (ewm_mean_finite fast close Hf) as [ef [Hef Hlf]].
  destruct (ewm_mean_finite slow close Hs) as [es [Hes Hls]].
  exists ef, es. repeat split; try assumption.
  unfold macd_compute. rewrite Hef, bind_Ok, Hes, bind_Ok. cbv beta.
  by rewrite zip_with_fsub_finite, bfill_finite, fillna_finite.
Qed.

(** [MACD.compute] has no look-ahead: the MACD line of the first [n] bars
    is the first [n] values of the MACD line of the whole series, so the
    slices [ind_values.iloc[:i+1]] of a backfill are what a live monitor
    computed at bar [i]. *)
Theorem macd_has_no_lookahead (fast slow : Z) (close : list Q) (n : nat) :
  macd_compute fast slow (take n close)
  = (macd_line ← macd_compute fast slow close; Ok (take n macd_line)).
Proof.
  destruct (Z_lt_le_dec fast 1) as [Hf|Hf].
  { unfold macd_compute, ewm_mean. apply Z.ltb_lt in Hf. by rewrite Hf. }
  destruct (Z_lt_le_dec slow 1) as [Hs|Hs].
  { unfold macd_compute.
    destruct (ewm_mean_finite fast (take n close) Hf) as [e1 [-> _]].
    destruct (ewm_mean_finite fast close Hf) as [e2 [-> _]].
    unfold ewm_mean. apply Z.ltb_lt in Hs. by rewrite Hs. }
  destruct (macd_compute_value fast slow close Hf Hs)
    as (ef & es & Hef & Hes & _ & _ & ->).
  rewrite bind_Ok. cbv beta. unfold macd_compute.
  rewrite fmap_take, !ewm_mean_take, Hef, Hes, !bind_Ok. cbv beta.
  rewrite <- !fmap_take, zip_with_fsub_finite, bfill_finite, fillna_finite.
  by rewrite zip_with_take.
Qed.

(** For periods of at least 1 the three components of the MACD agree
    across the four methods: [compute_full] returns the results of
    [compute], [compute_signal] and [compute_histogram]; the MACD line is
    the difference of the fast and the slow EMA, the histogram is the MACD
    line minus the signal line, position by position, and all have the
    length of the input.  The final [bfill().fillna(0)] of each method
    never changes a value. *)
Theorem macd_components_agree (fast slow signal : Z) (close : list Q) :
  (1 <= fast)%Z -> (1 <= slow)%Z -> (1 <= signal)%Z ->
  exists ema_fast ema_slow macd_line signal_line,
    ewm_mean fast (Some <$> close) = Ok (Some <$> ema_fast)
    /\ ewm_mean slow (Some <$> close) = Ok (Some <$> ema_slow)
    /\ macd_line = zip_with Qminus ema_fast ema_slow
    /\ ewm_mean signal (Some <$> macd_line) = Ok (Some <$> signal_line)
    /\ macd_compute fast slow close = Ok macd_line
    /\ macd_compute_signal fast slow signal close = Ok signal_line
    /\ macd_compute_histogram fast slow signal close
       = Ok (zip_with Qminus macd_line signal_line)
    /\ macd_compute_full fast slow signal close
       = Ok (macd_line, signal_line, zip_with Qminus macd_line signal_line)
    /\ length macd_line = length close
    /\ length signal_line = length close.
Proof.
  intros Hf Hs Hg.
  destruct (macd_compute_value fast slow close Hf Hs)
    as (ef & es & Hef & Hes & Hlf & Hls & Hm).
  destruct (ewm_mean_finite signal (zip_with Qminus ef es) Hg)
    as [sl [Hsl Hlen]].
  exists ef, es, (zip_with Qminus ef es), sl.
  assert (Hsig : macd_compute_signal fast slow signal close = Ok sl).
  { unfold macd_compute_signal.
    rewrite Hm, bind_Ok, Hsl, bind_Ok. cbv beta.
    by rewrite bfill_finite, fillna_finite. }
  repeat split; try assumption; try reflexivity.
  - unfold macd_compute_histogram. rewrite Hm, bind_Ok, Hsig, bind_Ok.
    cbv beta zeta.
    by rewrite zip_with_fsub_finite, bfill_finite, fillna_finite.
  - unfold macd_compute_full. rewrite Hm, bind_Ok, Hsl, bind_Ok.
    cbv beta zeta.
    by rewrite zip_with_fsub_finite, !bfill_finite, !fillna_finite.
  - rewrite length_zip_with. lia.
  - rewrite Hlen, length_zip_with. lia.
Qed.

Lemma macd_components_agree_witness :
  ((1 <= 12)%Z /\ (1 <= 26)%Z /\ (1 <= 9)%Z)
  /\ exists macd_line signal_line,
       macd_compute 12 26 [4; 8]%Q = Ok macd_line
       /\ macd_compute_full 12 26 9 [4; 8]%Q
          = Ok (macd_line, signal_line, zip_with Qminus macd_line signal_line).
Proof.
  split; [lia|].
  destruct (macd_components_agree 12 26 9 [4; 8]%Q)
    as (ef & es & m & s & _ & _ & _ & _ & Hm & _ & _ & Hfull & _);
    [lia|lia|lia|].
  exists m, s. by split.
Defined.

End SmoothingFacts.

(* ===================================================================== *)
(** * The oscillators: ranges and edge cases *)
(* ===================================================================== *)

Module OscillatorFacts.
Import Pandas Config Indicators PandasFacts IndicatorFacts SmoothingFacts.

(** ** Smoothing a series and its absolute value side by side *)

(** [a] dominates [m]: both are NaN, or both are finite and [|m| <= a]. *)
Definition dominated (m a : fval) : Prop :=
  match m, a with
  | Some x, Some y => (Qabs x <= y)%Q
  | None, None => True
  | _, _ => False
  end.

Lemma ewm_step_dominated (alpha ow : Q) (wm wa cm ca : fval) :
  (0 < alpha)%Q -> (alpha <= 1)%Q -> (0 <= ow)%Q ->
  dominated wm wa -> dominated cm ca ->
  exists wm' wa' ow',
    ewm_step alpha (wm, ow) cm = (wm', ow')
    /\ ewm_step alpha (wa, ow) ca = (wa', ow')
    /\ (0 <= ow')%Q /\ dominated wm' wa'.
Proof.
  intros Ha0 Ha1 Hw Hws Hcs.
  destruct wm as [x|], wa as [y|]; try done;
    destruct cm as [c|], ca as [d|]; try done.
  - destruct (ewm_step_value alpha x ow c Ha0 Ha1 Hw) as [x' [Hx Hx']].
    destruct (ewm_step_value alpha y ow d Ha0 Ha1 Hw) as [y' [Hy Hy']].
    exists (Some x'), (Some y'), 1%Q. repeat split; [exact Hx|exact Hy|lra|].
    simpl in *. apply Qabs_Qle_condition in Hws, Hcs.
    apply Qabs_Qle_condition. rewrite Hx', Hy'.
    assert (Hp : (0 <= ow * (1 - alpha))%Q) by (apply Qmult_le_0_compat; lra).
    set (p := (ow * (1 - alpha))%Q) in *.
    assert (Hd : (0 < p + alpha)%Q) by lra.
    assert (H1 : (0 <= p * (y - x))%Q) by (apply Qmult_le_0_compat; lra).
    assert (H2 : (0 <= p * (y + x))%Q) by (apply Qmult_le_0_compat; lra).
    assert (H3 : (0 <= alpha * (d - c))%Q) by (apply Qmult_le_0_compat; lra).
    assert (H4 : (0 <= alpha * (d + c))%Q) by (apply Qmult_le_0_compat; lra).
    assert (Hsum : ((p * y + alpha * d) / (p + alpha)
                    + (p * x + alpha * c) / (p + alpha)
                    == (p * (y + x) + alpha * (d + c)) / (p + alpha))%Q)
      by (field; lra).
    assert (Hdif : ((p * y + alpha * d) / (p + alpha)
                    - (p * x + alpha * c) / (p + alpha)
                    == (p * (y - x) + alpha * (d - c)) / (p + alpha))%Q)
      by (field; lra).
    assert (Hs0 : (0 <= (p * (y + x) + alpha * (d + c)) / (p + alpha))%Q)
      by (apply Qle_shift_div_l; lra).
    assert (Hd0 : (0 <= (p * (y - x) + alpha * (d - c)) / (p + alpha))%Q)
      by (apply Qle_shift_div_l; lra).
    split; lra.
  - exists (Some x), (Some y), (ow * (1 - alpha))%Q.
    repeat split; try reflexivity; [|exact Hws].
    apply Qmult_le_0_compat; lra.
  - by exists (Some c), (Some d), ow.
  - by exists NaN, NaN, ow.
Qed.

Lemma ewm_loop_dominated (alpha ow : Q) (wm wa : fval) (lm la : list fval) :
  (0 < alpha)%Q -> (alpha <= 1)%Q -> (0 <= ow)%Q ->
  dominated wm wa -> Forall2 dominated lm la ->
  Forall2 dominated (ewm_loop alpha (wm, ow) lm) (ewm_loop alpha (wa, ow) la).
Proof.
  intros Ha0 Ha1 Hw Hws Hl. revert ow wm wa Hw Hws.
  induction Hl as [|cm ca lm la Hc Hl IH]; intros ow wm wa Hw Hws;
    [constructor|].
  destruct (ewm_step_dominated alpha ow wm wa cm ca Ha0 Ha1 Hw Hws Hc)
    as (wm' & wa' & ow' & Hm & Ha & Hw' & Hd).
  cbn [ewm_loop]. rewrite Hm, Ha. cbn [fst].
  constructor; [exact Hd|]. by apply IH.
Qed.

Lemma ewm_mean_dominated (span : Z) (lm la : list fval) :
  (1 <= span)%Z -> Forall2 dominated lm la ->
  exists em ea,
    ewm_mean span lm = Ok em /\ ewm_mean span la = Ok ea
    /\ length em = length lm /\ Forall2 dominated em ea.
Proof.
  intros Hs Hl. destruct (alpha_range span Hs) as [Ha0 Ha1].
  unfold ewm_mean. destruct (span <? 1)%Z eqn:E; [apply Z.ltb_lt in E; lia|].
  destruct Hl as [|m a lm la Hma Hl]; [by exists [], []|].
  do 2 eexists. split; [reflexivity|]. split; [reflexivity|]. split.
  - simpl. by rewrite ewm_loop_length.
  - constructor; [exact Hma|]. by apply ewm_loop_dominated.
Qed.

Lemma momentum_dominated (l : list fval) : Forall2 dominated l (fabs <$> l).
Proof.
  induction l as [|[x|] l IH]; [constructor| |]; rewrite fmap_cons;
    (constructor; [|exact IH]); simpl; [apply Qle_refl|exact I].
Qed.

(** ** The range of the TSI *)

(** A raw TSI value: NaN, or a number of [[-100, 100]]. *)
Definition tsi_in_range (v : fval) : Prop :=
  forall x, v = Some x -> (-100 <= x)%Q /\ (x <= 100)%Q.

Lemma tsi_position_in_range (m a : fval) :
  dominated m a ->
  forall a', replace_zero_nan [a] = [a'] ->
  tsi_in_range (fmul (Some 100%Q) (fdiv m a')).
Proof.
  intros Hd a' Ha' x. destruct m as [p|], a as [q|]; try done.
  simpl in Hd, Ha'. destruct (Qeq_bool q 0) eqn:E.
  - injection Ha' as <-. discriminate.
  - injection Ha' as <-. simpl. rewrite E. intros [= <-].
    assert (Hq0 : ~ (q == 0)%Q) by (intros H; apply Qeq_bool_iff in H; congruence).
    pose proof (Qabs_nonneg p) as Hp.
    assert (Hq : (0 < q)%Q).
    { destruct (Qlt_le_dec 0 q); [done|]. exfalso. apply Hq0. lra. }
    apply Qabs_Qle_condition in Hd.
    assert (H1 : (-1 <= p / q)%Q) by (apply Qle_shift_div_l; lra).
    assert (H2 : (p / q <= 1)%Q) by (apply Qle_shift_div_r; lra).
    lra.
Qed.

Lemma tsi_positions_in_range (ms as_ : list fval) :
  Forall2 dominated ms as_ ->
  Forall tsi_in_range
    (fmul (Some 100%Q) <$> zip_with fdiv ms (replace_zero_nan as_)).
Proof.
  induction 1 as [|m a ms as_ Hma Hl IH]; [constructor|].
  unfold replace_zero_nan. rewrite fmap_cons. cbn [zip_with].
  rewrite fmap_cons. constructor; [|exact IH].
  by apply (tsi_position_in_range m a Hma).
Qed.

Lemma fillna_Forall (P : Q -> Prop) (d : Q) (l : list fval) :
  P d -> Forall (fun v => forall x, v = Some x -> P x) l ->
  Forall P (fillna d l).
Proof.
  intros Hd Hl. unfold fillna. apply Forall_fmap.
  eapply Forall_impl; [exact Hl|]. intros [x|] Hx; simpl; [by apply Hx|exact Hd].
Qed.

Lemma tsi_raw_in_range (long short : Z) (close : list Q) :
  (1 <= long)%Z -> (1 <= short)%Z ->
  exists raw, tsi_raw long short close = Ok raw
              /\ length raw = length close /\ Forall tsi_in_range raw.
Proof.
  intros Hl Hs. unfold tsi_raw, tsi_ema2_momentum, tsi_ema2_abs_momentum.
  cbv zeta.
  destruct (ewm_mean_dominated long (diff close) (fabs <$> diff close) Hl
              (momentum_dominated _)) as (m1 & a1 & Hm1 & Ha1 & Hl1 & Hd1).
  destruct (ewm_mean_dominated short m1 a1 Hs Hd1)
    as (m2 & a2 & Hm2 & Ha2 & Hl2 & Hd2).
  rewrite Hm1, bind_Ok, Hm2, bind_Ok, Ha1, bind_Ok, Ha2, bind_Ok.
  eexists. split; [reflexivity|]. split.
  - unfold replace_zero_nan.
    rewrite length_fmap, length_zip_with, length_fmap.
    rewrite <- (Forall2_length _ _ _ Hd2), Hl2, Hl1, diff_length. lia.
  - by apply tsi_positions_in_range.
Qed.

Lemma tsi_compute_in_range (long short : Z) (close : list Q) :
  (1 <= long)%Z -> (1 <= short)%Z ->
  exists r, tsi_compute long short close = Ok r
            /\ length r = length close
            /\ Forall (fun x => (-100 <= x)%Q /\ (x <= 100)%Q) r.
Proof.
  intros Hl Hs. unfold tsi_compute.
  destruct (tsi_raw_in_range long short close Hl Hs) as [raw [-> [Hlen Hr]]].
  rewrite bind_Ok. eexists. split; [reflexivity|]. split.
  - by rewrite fillna_length, bfill_length.
  - apply (fillna_Forall (fun x => (-100 <= x)%Q /\ (x <= 100)%Q)); [lra|].
    apply (bfill_Forall tsi_in_range); [|exact Hr]. intros x. discriminate.
Qed.

(** [TSI(long, short).compute(close)], for periods of at least 1, never
    raises, returns one value per bar, and every value is in
    [[-100, 100]] (exact arithmetic): the doubly-smoothed momentum never
    exceeds the doubly-smoothed absolute momentum in size.  A long period
    below 1 raises. *)
Theorem tsi_compute_bounded (long short : Z) (close : list Q) :
  ((1 <= long)%Z -> (1 <= short)%Z ->
   exists r, tsi_compute long short close = Ok r
             /\ length r = length close
             /\ Forall (fun x => (-100 <= x)%Q /\ (x <= 100)%Q) r)
  /\ ((long < 1)%Z -> tsi_compute long short close = Raise "ValueError").
Proof.
  split; [apply tsi_compute_in_range|].
  intros Hl. unfold tsi_compute, tsi_raw, tsi_ema2_momentum, ewm_mean.
  apply Z.ltb_lt in Hl. by rewrite Hl.
Qed.

Lemma tsi_compute_bounded_witness :
  ((1 <= 25)%Z /\ (1 <= 13)%Z)
  /\ exists r, tsi_compute 25 13 [3; 1; 2]%Q = Ok r
               /\ length r = 3%nat
               /\ Forall (fun x => (-100 <= x)%Q /\ (x <= 100)%Q) r.
Proof.
  split; [lia|].
  destruct (tsi_compute_bounded 25 13 [3; 1; 2]%Q) as [H _].
  apply H; lia.
Defined.

(** ** Flat prices *)

(** A value that is NaN or equal to 0. *)
Definition null (v : fval) : Prop := forall x, v = Some x -> (x == 0)%Q.

Lemma ewm_step_null (alpha ow : Q) (w c : fval) :
  (0 < alpha)%Q -> (alpha <= 1)%Q -> (0 <= ow)%Q -> null w -> null c ->
  null (fst (ewm_step alpha (w, ow) c))
  /\ (0 <= snd (ewm_step alpha (w, ow) c))%Q.
Proof.
  intros Ha0 Ha1 Hw Hnw Hnc. destruct w as [x|], c as [y|].
  - destruct (ewm_step_value alpha x ow y Ha0 Ha1 Hw) as [x' [-> Hx']].
    cbn [fst snd]. split; [|lra]. intros z [= <-].
    rewrite Hx', (Hnw x eq_refl), (Hnc y eq_refl).
    assert (Hp : (0 <= ow * (1 - alpha))%Q) by (apply Qmult_le_0_compat; lra).
    field. lra.
  - simpl. split; [exact Hnw|]. apply Qmult_le_0_compat; lra.
  - simpl. by split.
  - simpl. by split.
Qed.

Lemma ewm_loop_null (alpha ow : Q) (w : fval) (l : list fval) :
  (0 < alpha)%Q -> (alpha <= 1)%Q -> (0 <= ow)%Q -> null w ->
  Forall null l -> Forall null (ewm_loop alpha (w, ow) l).
Proof.
  intros Ha0 Ha1 Hw Hnw Hl. revert ow w Hw Hnw.
  induction Hl as [|c l Hc Hl IH]; intros ow w Hw Hnw; [constructor|].
  destruct (ewm_step_null alpha ow w c Ha0 Ha1 Hw Hnw Hc) as [H1 H2].
  cbn [ewm_loop]. constructor; [exact H1|].
  destruct (ewm_step alpha (w, ow) c) as [w' ow']. by apply IH.
Qed.

Lemma ewm_mean_null (span : Z) (l : list fval) :
  (1 <= span)%Z -> Forall null l ->
  exists e, ewm_mean span l = Ok e /\ length e = length l /\ Forall null e.
Proof.
  intros Hs Hl. destruct (alpha_range span Hs) as [Ha0 Ha1].
  unfold ewm_mean. destruct (span <? 1)%Z eqn:E; [apply Z.ltb_lt in E; lia|].
  destruct Hl as [|x l Hx Hl]; [by exists []|].
  eexists. split; [reflexivity|]. split.
  - simpl. by rewrite ewm_loop_length.
  - constructor; [exact Hx|]. by apply ewm_loop_null.
Qed.

Lemma replace_zero_nan_null (l : list fval) :
  Forall null l -> replace_zero_nan l = replicate (length l) NaN.
Proof.
  unfold replace_zero_nan.
  induction 1 as [|v l Hv Hl IH]; [reflexivity|].
  rewrite fmap_cons, IH. simpl. f_equal.
  destruct v as [x|]; [|reflexivity].
  assert (E : Qeq_bool x 0 = true) by (apply Qeq_bool_iff; by apply Hv).
  by rewrite E.
Qed.

(** Every price equals the first one. *)
Definition flat (close : list Q) : Prop :=
  forall c0, head close = Some c0 -> Forall (fun c => (c == c0)%Q) close.

Lemma diff_from_flat (c0 prev : Q) (l : list Q) :
  (prev == c0)%Q -> Forall (fun c => (c == c0)%Q) l ->
  Forall null (diff_from prev l).
Proof.
  intros Hp Hl. revert prev Hp.
  induction Hl as [|x l Hx Hl IH]; intros prev Hp; [constructor|].
  simpl. constructor; [|by apply IH].
  intros y [= <-]. rewrite Hx, Hp. ring.
Qed.

Lemma diff_flat (close : list Q) : flat close -> Forall null (diff close).
Proof.
  intros Hf. destruct close as [|c0 l]; [constructor|].
  specialize (Hf c0 eq_refl). apply Forall_cons in Hf as [_ Hl].
  simpl. constructor; [intros x; discriminate|].
  by apply (diff_from_flat c0).
Qed.

Lemma fabs_null (l : list fval) : Forall null l -> Forall null (fabs <$> l).
Proof.
  intros H. apply Forall_fmap. eapply Forall_impl; [exact H|].
  intros [x|] Hx y; simpl; [|discriminate]. intros [= <-].
  rewrite (Hx x eq_refl). reflexivity.
Qed.

(** On flat prices (no price differs from the first) [TSI.compute] returns
    0 at every position: the doubly-smoothed absolute momentum is 0
    everywhere, every ratio is NaN, nothing can be backfilled, and the
    final [fillna(0)] decides. *)
Theorem tsi_compute_flat (long short : Z) (close : list Q) :
  (1 <= long)%Z -> (1 <= short)%Z -> flat close ->
  tsi_compute long short close = Ok (replicate (length close) 0%Q).
Proof.
  intros Hl Hs Hf. pose proof (diff_flat close Hf) as Hd.
  unfold tsi_compute, tsi_raw, tsi_ema2_momentum, tsi_ema2_abs_momentum.
  cbv zeta.
  destruct (ewm_mean_null long (diff close) Hl Hd) as (m1 & -> & Hm1 & Hn1).
  rewrite bind_Ok.
  destruct (ewm_mean_null short m1 Hs Hn1) as (m2 & -> & Hm2 & _).
  rewrite bind_Ok.
  destruct (ewm_mean_null long (fabs <$> diff close) Hl (fabs_null _ Hd))
    as (a1 & -> & Ha1 & Hna1).
  rewrite bind_Ok.
  destruct (ewm_mean_null short a1 Hs Hna1) as (a2 & -> & Ha2 & Hna2).
  rewrite !bind_Ok. cbv beta.
  assert (Hlen2 : length a2 = length close).
  { by rewrite Ha2, Ha1, length_fmap, diff_length. }
  assert (Hlenm : length m2 = length close).
  { by rewrite Hm2, Hm1, diff_length. }
  rewrite (replace_zero_nan_null a2 Hna2), Hlen2.
  rewrite zip_with_fdiv_nan by exact Hlenm.
  by rewrite fmap_replicate, bfill_all_nan, fillna_nan.
Qed.

Lemma tsi_compute_flat_witness :
  ((1 <= 25)%Z /\ (1 <= 13)%Z /\ flat [7; 7; 7]%Q)
  /\ tsi_compute 25 13 [7; 7; 7]%Q = Ok [0; 0; 0]%Q.
Proof.
  assert (Hf : flat [7; 7; 7]%Q).
  { intros c0 [= <-]. repeat constructor. }
  split; [repeat split; [lia|lia|exact Hf]|].
  apply (tsi_compute_flat 25 13 [7; 7; 7]%Q); [lia|lia|exact Hf].
Defined.

End OscillatorFacts.

(* ===================================================================== *)
(** * The loader: how much it returns and which tiers it touches *)
(* ===================================================================== *)

Module LoaderPaths.
Import Pandas Config Loader PandasFacts LoaderFacts.

(** ** At most the requested number of bars *)

(** Computations that return a frame of at most [n] rows, when they
    return. *)
Definition at_most (n : nat) (m : IO DataFrame) : Prop :=
  forall tr df tr', m tr = (Ok df, tr') -> (length df <= n)%nat.

Lemma at_most_ret (n : nat) (df : DataFrame) :
  (length df <= n)%nat -> at_most n (mret df).
Proof. intros H tr df' tr' [= <- _]. exact H. Qed.

Lemma at_most_bind {A} (n : nat) (m : IO A) (f : A -> IO DataFrame) :
  (forall a, at_most n (f a)) -> at_most n (m ≫= f).
Proof.
  intros Hf tr df tr'. unfold mbind, IO_bind.
  destruct (m tr) as [[a|e] tr1]; [apply Hf|discriminate].
Qed.

Lemma iloc_from_neg_length {A} (df : list A) (limit : nat) :
  (1 <= limit)%nat -> (length (iloc_from_neg df limit) <= limit)%nat.
Proof.
  intros H. destruct limit as [|n]; [lia|]. cbn [iloc_from_neg].
  rewrite lastn_length. lia.
Qed.

Lemma provider_tier_at_most settings self symbol limit days start end_ :
  (1 <= limit)%nat ->
  at_most limit (provider_tier settings self symbol limit days start end_).
Proof.
  intros Hl. unfold provider_tier.
  apply at_most_bind. intros ext. apply at_most_bind.
  intros df. destruct (empty df) eqn:E.
  - apply empty_true in E. subst df. apply at_most_ret. simpl. lia.
  - apply at_most_bind. intros _. apply at_most_bind.
    intros _. apply at_most_ret.
    destruct (limit <? length df)%nat eqn:El.
    + by apply iloc_from_neg_length.
    + by apply Nat.ltb_ge in El.
Qed.

Lemma lower_tiers_at_most settings self symbol limit days start end_ required :
  (1 <= limit)%nat ->
  at_most limit
    (lower_tiers settings self symbol limit days start end_ required).
Proof.
  intros Hl. unfold lower_tiers. intros tr df tr'.
  unfold mbind at 1, IO_bind at 1.
  destruct (parquet_tier self symbol limit start end_ required tr)
    as [[[cached|]|e] tr1] eqn:Hp; [| |discriminate].
  - intros [= <- _]. revert Hp. unfold parquet_tier.
    destruct (loader_use_parquet_cache self); [|discriminate].
    unfold mbind at 1, IO_bind at 1.
    destruct (_load_from_parquet self symbol start end_ tr)
      as [[df0|e] tr2]; [|discriminate].
    destruct (sufficient df0 required); [|discriminate].
    unfold mbind, IO_bind.
    destruct (_save_to_database self symbol df0 tr2) as [[[]|e] tr3];
      [|discriminate].
    intros [= <- _]. by apply iloc_from_neg_length.
  - by apply provider_tier_at_most.
Qed.

Lemma load_bars_at_most settings self symbol limit start end_ days purpose :
  (1 <= from_option id (default_limit settings purpose) limit)%nat ->
  at_most (from_option id (default_limit settings purpose) limit)
          (load_bars settings self symbol limit start end_ days purpose).
Proof.
  intros Hl. unfold load_bars. cbv zeta.
  apply at_most_bind. intros st. apply at_most_bind. intros df.
  apply at_most_bind. intros required. destruct (sufficient df _).
  - apply at_most_ret. by apply iloc_from_neg_length.
  - by apply lower_tiers_at_most.
Qed.



(** ** The tiers touched on a cold start and on a cache hit *)

Lemma save_to_database_trace self symbol df tr :
  df <> [] ->
  _save_to_database self symbol df tr = (Ok tt, tr ++ [DbSave symbol df]).
Proof.
  intros Hne. unfold _save_to_database, try_except, perform.
  destruct df; [done|]. cbn [empty].
  by destruct (db_insert (world self) symbol _) as [[]|].
Qed.

Lemma save_to_parquet_trace self symbol df tr :
  df <> [] ->
  _save_to_parquet self symbol df tr = (Ok tt, tr ++ [ParquetSave symbol df]).
Proof.
  intros Hne. unfold _save_to_parquet, try_except, perform.
  destruct df; [done|]. cbn [empty].
  by destruct (parquet_write (world self) symbol _) as [[]|].
Qed.

Lemma fetch_from_provider_ok self symbol start end_ df tr :
  historical_df (world self) symbol start end_ = Ok df ->
  _fetch_from_provider self symbol start end_ tr
  = (Ok df, tr ++ [ProviderFetch symbol start end_]).
Proof. intros H. unfold _fetch_from_provider, try_except, perform. by rewrite H. Qed.

Lemma provider_tier_fresh settings self symbol limit days start end_ ext df tr :
  extended_start settings days start = Ok ext ->
  historical_df (world self) symbol ext end_ = Ok df ->
  df <> [] ->
  provider_tier settings self symbol limit days start end_ tr
  = (Ok (if (limit <? length df)%nat then iloc_from_neg df limit else df),
     tr ++ [ProviderFetch symbol ext end_; DbSave symbol df]
        ++ (if loader_use_parquet_cache self then [ParquetSave symbol df]
            else [])).
Proof.
  intros He Hp Hne. unfold provider_tier. rewrite He, bind_lift_Ok.
  run_first. rewrite (fetch_from_provider_ok _ _ _ _ df) by exact Hp.
  destruct df as [|b df']; [done|]. cbn [empty].
  run_first. rewrite save_to_database_trace by done.
  run_first. destruct (loader_use_parquet_cache self).
  - rewrite save_to_parquet_trace by done.
    unfold mret, IO_ret. f_equal. by rewrite <- !app_assoc.
  - unfold mret, IO_ret. f_equal. by rewrite <- !app_assoc.
Qed.


(** A provider that has 300 one-minute bars, an empty store that refuses
    every insert, no cache. *)
Definition provider_only : World :=
  {| now := 6000;
     db_rows := fun _ _ _ => Ok [];
     db_insert := fun _ _ => Raise "read-only";
     parquet_file := fun _ => Ok None;
     parquet_write := fun _ _ => Ok tt;
     historical_df := fun _ _ _ => Ok (minute_bars 300) |}.



(** An empty store and a cache file of 100 one-minute bars. *)
Definition cache_only : World :=
  {| now := 6000;
     db_rows := fun _ _ _ => Ok [];
     db_insert := fun _ _ => Ok tt;
     parquet_file := fun _ => Ok (Some (minute_bars 100));
     parquet_write := fun _ _ => Ok tt;
     historical_df := fun _ _ _ => Raise "service unavailable" |}.


End LoaderPaths.

(* ===================================================================== *)
(** * The merge into the cache file *)
(* ===================================================================== *)

Module CacheFacts.
Import Pandas Config Loader.

(** The row a frame holds for a timestamp: the last one, if any. *)
Definition row_at (df : DataFrame) (t : Z) : option Bar :=
  last (filter (fun b => ts b = t) df).

Lemma last_cons_cases {A} (x : A) (l : list A) :
  last (x :: l) = match last l with Some y => Some y | None => Some x end.
Proof.
  destruct l as [|y l]; [reflexivity|].
  change (last (x :: y :: l)) with (last (y :: l)).
  destruct (last (y :: l)) eqn:E; [reflexivity|].
  by apply last_None in E.
Qed.

Lemma row_at_cons (b : Bar) (df : DataFrame) (t : Z) :
  row_at (b :: df) t
  = if decide (ts b = t)
    then match row_at df t with Some r => Some r | None => Some b end
    else row_at df t.
Proof.
  unfold row_at. rewrite filter_cons.
  destruct (decide (ts b = t)); [apply last_cons_cases|reflexivity].
Qed.

Lemma row_at_None (df : DataFrame) (t : Z) :
  row_at df t = None <-> t ∉ ts <$> df.
Proof.
  induction df as [|b df IH]; [split; [intros _ H; inversion H|done]|].
  rewrite row_at_cons, fmap_cons, not_elem_of_cons.
  destruct (decide (ts b = t)) as [<-|Hne].
  - split; [by destruct (row_at df (ts b))|]. by intros [? _].
  - rewrite IH. split; [by split|by intros [_ ?]].
Qed.

Lemma row_at_Some (df : DataFrame) (t : Z) (r : Bar) :
  row_at df t = Some r -> r ∈ df /\ ts r = t.
Proof.
  unfold row_at. intros H.
  assert (Hin : r ∈ filter (fun b => ts b = t) df).
  { apply last_Some in H as [l' ->]. apply elem_of_app. right. left. }
  apply list_elem_of_filter in Hin. tauto.
Qed.

Lemma row_at_unique (df : DataFrame) (r : Bar) :
  NoDup (ts <$> df) -> r ∈ df -> row_at df (ts r) = Some r.
Proof.
  induction df as [|b df IH]; [intros _ H; inversion H|].
  rewrite fmap_cons, NoDup_cons, elem_of_cons, row_at_cons.
  intros [Hni Hnd] [->|Hin].
  - rewrite decide_True by reflexivity.
    apply row_at_None in Hni. by rewrite Hni.
  - rewrite decide_False; [by apply IH|].
    intros Heq. apply Hni. rewrite Heq. by apply list_elem_of_fmap_2.
Qed.

(** On frames without duplicated timestamps the row of a timestamp does
    not depend on the order of the rows. *)
Lemma row_at_Permutation (l1 l2 : DataFrame) (t : Z) :
  l1 ≡ₚ l2 -> NoDup (ts <$> l1) -> row_at l1 t = row_at l2 t.
Proof.
  intros Hp Hnd.
  assert (Hnd2 : NoDup (ts <$> l2)) by (by rewrite <- Hp).
  destruct (row_at l1 t) as [r|] eqn:E.
  - apply row_at_Some in E as [Hin <-]. symmetry.
    apply row_at_unique; [exact Hnd2|]. by rewrite <- Hp.
  - symmetry. apply row_at_None. apply row_at_None in E. by rewrite <- Hp.
Qed.

Lemma row_at_app (l1 l2 : DataFrame) (t : Z) :
  row_at (l1 ++ l2) t
  = match row_at l2 t with Some r => Some r | None => row_at l1 t end.
Proof.
  induction l1 as [|b l1 IH]; [simpl; by destruct (row_at l2 t)|].
  rewrite <- app_comm_cons, !row_at_cons, IH.
  destruct (decide (ts b = t)); [|reflexivity].
  by destruct (row_at l2 t).
Qed.

(** ** Dropping the duplicated timestamps *)

Lemma drop_duplicated_sublist (df : DataFrame) :
  sublist (drop_duplicated_keep_last df) df.
Proof.
  induction df as [|b df IH]; [constructor|]. simpl.
  destruct (decide (ts b ∈ ts <$> df)); by constructor.
Qed.

Lemma drop_duplicated_NoDup (df : DataFrame) :
  NoDup (ts <$> drop_duplicated_keep_last df).
Proof.
  induction df as [|b df IH]; [constructor|]. simpl.
  destruct (decide (ts b ∈ ts <$> df)) as [Hin|Hni]; [exact IH|].
  rewrite fmap_cons. constructor; [|exact IH].
  intros Hin. apply Hni.
  apply list_elem_of_fmap in Hin as [r [-> Hr]].
  apply list_elem_of_fmap_2.
  by apply (elem_of_sublist _ _ _ Hr (drop_duplicated_sublist df)).
Qed.

Lemma drop_duplicated_row_at (df : DataFrame) (t : Z) :
  row_at (drop_duplicated_keep_last df) t = row_at df t.
Proof.
  induction df as [|b df IH]; [reflexivity|]. simpl.
  destruct (decide (ts b ∈ ts <$> df)) as [Hin|Hni].
  - rewrite IH, row_at_cons. destruct (decide (ts b = t)) as [<-|]; [|done].
    destruct (row_at df (ts b)) eqn:E; [done|].
    by apply row_at_None in E.
  - by rewrite !row_at_cons, IH.
Qed.

(** ** Sorting *)

#[local] Instance ts_le_trans : Transitive ts_le.
Proof. intros a b c. unfold ts_le. lia. Qed.

#[local] Instance ts_le_total : Total ts_le.
Proof. intros a b. unfold ts_le. lia. Qed.

Lemma sorted_unique_strict (df : DataFrame) :
  StronglySorted ts_le df -> NoDup (ts <$> df) ->
  StronglySorted Z.lt (ts <$> df).
Proof.
  induction 1 as [|b df Hs IH Hb]; [constructor|].
  rewrite fmap_cons, NoDup_cons. intros [Hni Hnd].
  constructor; [by apply IH|].
  apply Forall_fmap, Forall_forall. intros r Hr.
  rewrite Forall_forall in Hb. specialize (Hb r Hr). unfold ts_le in Hb.
  assert (ts b <> ts r).
  { intros Heq. apply Hni. rewrite Heq. by apply list_elem_of_fmap_2. }
  simpl. lia.
Qed.

(** When the cache file exists, the content written back has strictly
    increasing timestamps (so no timestamp twice), holds a row for exactly
    the timestamps of the old content and of the new rows, and for each
    timestamp holds the last row that the old content followed by the new
    rows has for it: a new row replaces the cached row of its timestamp,
    and every other cached row is kept. *)
Theorem parquet_merge_keeps_latest (existing df : DataFrame) :
  let merged := parquet_content (Some existing) df in
  StronglySorted Z.lt (ts <$> merged)
  /\ (forall t, t ∈ ts <$> merged <-> t ∈ ts <$> existing \/ t ∈ ts <$> df)
  /\ (forall t, row_at merged t = row_at (existing ++ df) t)
  /\ (forall t, t ∈ ts <$> df -> row_at merged t = row_at df t)
  /\ (forall t, t ∉ ts <$> df -> row_at merged t = row_at existing t).
Proof.
  intros merged.
  set (d := drop_duplicated_keep_last (existing ++ df)).
  assert (Hperm : merged ≡ₚ d) by apply merge_sort_Permutation.
  assert (Hnd : NoDup (ts <$> d)) by apply drop_duplicated_NoDup.
  assert (Hrow : forall t, row_at merged t = row_at (existing ++ df) t).
  { intros t. rewrite <- (drop_duplicated_row_at (existing ++ df) t).
    apply row_at_Permutation; [exact Hperm|]. by rewrite Hperm. }
  split; [|split; [|split; [exact Hrow|split]]].
  - apply sorted_unique_strict.
    + apply (StronglySorted_merge_sort ts_le).
    + by rewrite Hperm.
  - intros t. rewrite <- elem_of_app, <- fmap_app.
    destruct (row_at merged t) eqn:E1; pose proof E1 as E2;
      rewrite Hrow in E2.
    + split; intros _.
      * apply row_at_Some in E2 as [Hin <-]. by apply list_elem_of_fmap_2.
      * apply row_at_Some in E1 as [Hin <-]. by apply list_elem_of_fmap_2.
    + apply row_at_None in E1, E2. tauto.
  - intros t Ht. rewrite Hrow, row_at_app.
    destruct (row_at df t) eqn:E; [reflexivity|].
    by apply row_at_None in E.
  - intros t Ht. rewrite Hrow, row_at_app.
    apply row_at_None in Ht. by rewrite Ht.
Qed.

End CacheFacts.

(* ===================================================================== *)
(** * The pipeline of the monitor *)
(* ===================================================================== *)

Module PipelineFacts.
Import Pandas Config Monitor.
Import PandasFacts DivergenceFacts IndicatorFacts LoaderFacts MonitorFacts.
Import PivotFacts DetectorFacts SmoothingFacts OscillatorFacts LoaderPaths.

(** ** The indicators of [INDICATOR_MAP] *)

(** An indicator that never raises and returns one value per bar. *)
Definition aligned (f : list Q -> result (list Q)) : Prop :=
  forall v, exists r, f v = Ok r /\ length r = length v.

Lemma on_series_aligned (f : list Q -> result (list Q)) (close : Series Q) :
  aligned f ->
  exists v, f (values close) = Ok v /\ length v = length close
            /\ Indicators.on_series f close = Ok (zip (index close) v)
            /\ index (zip (index close) v) = index close
            /\ values (zip (index close) v) = v.
Proof.
  intros Hf. destruct (Hf (values close)) as [v [Hv Hlen]].
  rewrite values_length in Hlen.
  exists v. split; [exact Hv|]. split; [exact Hlen|].
  unfold Indicators.on_series. rewrite Hv, bind_Ok.
  split; [reflexivity|]. unfold index, values. split.
  - apply fst_zip. rewrite length_fmap. lia.
  - apply snd_zip. rewrite length_fmap. lia.
Qed.

Lemma indicator_map_aligned (name : string) f :
  INDICATOR_MAP name = Some f -> aligned f.
Proof.
  unfold INDICATOR_MAP.
  destruct (String.eqb name "rsi"); [|destruct (String.eqb name "macd");
    [|destruct (String.eqb name "tsi"); [|discriminate]]];
    intros [= <-] v; cbn [Indicators.compute Indicators.RSI_Indicator
      Indicators.MACD_Indicator Indicators.TSI_Indicator
      Indicators.RSI_default Indicators.MACD_default Indicators.TSI_default
      Indicators.period Indicators.fast Indicators.slow
      Indicators.long Indicators.short].
  - destruct (rsi_compute_bounded 14 v) as (r & Hr & Hlen & _); [lia|]. eauto.
  - destruct (macd_compute_value 12 26 v) as (ef & es & _ & _ & Hlf & Hls & Hm);
      [lia|lia|].
    eexists. split; [exact Hm|]. rewrite length_zip_with. lia.
  - destruct (tsi_compute_in_range 25 13 v) as (r & Hr & Hlen & _);
      [lia|lia|]. eauto.
Qed.



(** ** The detectors of [DETECTOR_MAP] *)

Lemma detector_map_is_detector (name : string) det :
  DETECTOR_MAP name = Some det -> is_detector det.
Proof.
  unfold DETECTOR_MAP, is_detector.
  repeat (destruct (String.eqb name _); [intros [= <-]; tauto|]).
  discriminate.
Qed.

Lemma new_service_parts iname sname self :
  new_service iname sname = Ok self ->
  aligned (indicator self) /\ is_detector (detector self).
Proof.
  unfold new_service.
  destruct (INDICATOR_MAP iname) as [f|] eqn:Hi; [|discriminate].
  destruct (DETECTOR_MAP sname) as [det|] eqn:Hd; [|discriminate].
  intros [= <-]. cbn [indicator detector]. split.
  - by apply (indicator_map_aligned iname).
  - by apply (detector_map_is_detector sname).
Qed.

Lemma close_series_index (buffer : list bar_dict) :
  index (close_series buffer) = buffer_instants buffer.
Proof.
  unfold index, close_series, buffer_instants.
  rewrite <- list_fmap_compose. reflexivity.
Qed.

Lemma close_series_length (buffer : list bar_dict) :
  length (close_series buffer) = length buffer.
Proof. unfold close_series. apply length_fmap. Qed.

(** Every detector starts with [ind.reindex(sub_close.index)]: an
    indicator series that holds a label twice and whose index is not the
    index of the window makes it raise. *)
Lemma detector_duplicate_raises det settings close ind lookback k :
  is_detector det ->
  index ind <> index (tail close lookback) -> ~ NoDup (index ind) ->
  det settings close ind lookback k = Raise "ValueError".
Proof.
  intros Hdet Hne Hdup.
  assert (Hre : reindex ind (index (tail close lookback)) = Raise "ValueError").
  { unfold reindex. rewrite decide_False by exact Hne.
    by rewrite decide_False. }
  destruct Hdet as [-> | [-> | [-> | ->]]];
    unfold Divergence.detect_hidden_bullish, Divergence.detect_hidden_bearish,
      Divergence.detect_regular_bullish, Divergence.detect_regular_bearish;
    cbv zeta; by rewrite Hre.
Qed.

Lemma StronglySorted_lt_NoDup (l : list Z) : StronglySorted Z.lt l -> NoDup l.
Proof.
  induction 1 as [|x l _ IH Hx]; constructor; [|exact IH].
  intros Hin. rewrite Forall_forall in Hx. specialize (Hx x Hin). lia.
Qed.

(** ** What one bar does *)

Section OneBar.
Context (settings : Settings) (self : MonitorService).

(** The result of [_process_bar] on a symbol that has a buffer. *)
Lemma process_bar_result st bar buffer :
  buffers st !! symbol bar = Some buffer ->
  let buffer' :=
    append_and_trim buffer (make_bar_dict (ensure_aware (timestamp bar)) bar) in
  fst (_process_bar settings self st bar)
  = if (length buffer' <? lookback_bars settings)%nat then Ok Collecting
    else
      ind_values ← Indicators.on_series (indicator self) (close_series buffer');
      res ← detector self settings (close_series buffer') ind_values
              (lookback_bars settings) (pivot_k settings);
      match res with
      | Some d => Ok (SignalDetected d)
      | None => Ok NoSignal
      end.
Proof.
  intros Hb buffer'. unfold _process_bar. cbv zeta. cbn [buffers].
  rewrite Hb. fold buffer'. by destruct (_ <? _)%nat.
Qed.

Lemma process_bar_unknown st bar :
  buffers st !! symbol bar = None ->
  _process_bar settings self st bar
  = (Raise "KeyError",
     {| buffers := buffers st;
        last_bar_time :=
          <[symbol bar := ensure_aware (timestamp bar)]> (last_bar_time st) |}).
Proof. intros Hb. unfold _process_bar. cbv zeta. cbn [buffers]. by rewrite Hb. Qed.

Lemma process_all_buffers_ext st1 st2 bars :
  buffers st1 = buffers st2 ->
  buffers (process_all settings self st1 bars)
  = buffers (process_all settings self st2 bars).
Proof.
  revert st1 st2. induction bars as [|bar bars IH]; intros st1 st2 H; [exact H|].
  rewrite !process_all_cons. apply IH.
  by rewrite !process_bar_buffers, H.
Qed.

Lemma process_all_registered st bars sym :
  is_Some (buffers (process_all settings self st bars) !! sym)
  <-> is_Some (buffers st !! sym).
Proof.
  revert st. induction bars as [|bar bars IH]; intros st; [done|].
  rewrite process_all_cons, IH. apply process_bar_registered.
Qed.

(** Bars of symbols that have no buffer (symbols the monitor was not
    started for) never create or change a buffer: processing a feed gives
    the same buffers as processing only its bars of known symbols, and the
    set of symbols with a buffer never changes.  Such a bar raises
    [KeyError] (which [on_bar] logs), after its time was recorded as the
    last bar time of its symbol. *)
Theorem unknown_symbols_ignored (st : state) (bars : list feed_bar) :
  let known bar := is_Some (buffers st !! symbol bar) in
  buffers (process_all settings self st bars)
  = buffers (process_all settings self st (filter known bars))
  /\ (forall sym,
         is_Some (buffers (process_all settings self st bars) !! sym)
         <-> is_Some (buffers st !! sym))
  /\ (forall bar,
         buffers st !! symbol bar = None ->
         fst (_process_bar settings self st bar) = Raise "KeyError"
         /\ buffers (snd (_process_bar settings self st bar)) = buffers st
         /\ last_bar_time (snd (_process_bar settings self st bar))
              !! symbol bar
            = Some (ensure_aware (timestamp bar))).
Proof.
  intros known. split; [|split].
  - assert (H : forall st',
        (forall sym, is_Some (buffers st' !! sym)
                     <-> is_Some (buffers st !! sym)) ->
        buffers (process_all settings self st' bars)
        = buffers (process_all settings self st' (filter known bars))).
    { induction bars as [|bar bars IH]; intros st' Hreg; [reflexivity|].
      rewrite filter_cons. destruct (decide (known bar)) as [Hk|Hk].
      - rewrite !process_all_cons. apply IH. intros sym.
        rewrite process_bar_registered. apply Hreg.
      - rewrite process_all_cons. rewrite <- IH by exact Hreg.
        apply process_all_buffers_ext. rewrite process_bar_buffers.
        destruct (buffers st' !! symbol bar) as [b|] eqn:E; [|reflexivity].
        exfalso. apply Hk. apply Hreg. rewrite E. by eexists. }
    by apply H.
  - intros sym. apply process_all_registered.
  - intros bar Hb. rewrite process_bar_unknown by exact Hb.
    cbn [fst snd buffers last_bar_time]. by rewrite lookup_insert_eq.
Qed.

(** ** When a bar cannot raise, and when it cannot signal *)

Lemma NoDup_suffix {A} (l1 l2 : list A) :
  l1 `suffix_of` l2 -> NoDup l2 -> NoDup l1.
Proof. intros [k ->] H. by apply NoDup_app in H as (_ & _ & ?). Qed.


(** Claim C8 fails, and the failure stops the detection.  [_process_bar]
    appends a bar whose timestamp the buffer already holds, so the buffer
    holds that timestamp twice and is no longer strictly increasing.  From
    then on, for every bar of the symbol that leaves a timestamp twice in
    a buffer longer than the detection window, the detector raises
    [ValueError] ([ind.reindex] refuses the duplicated index), whatever
    indicator and signal type the service was created with. *)
Theorem duplicate_timestamp_breaks_detection
    (indicator_name signal_type : string) (st : state) (bar : feed_bar)
    (buffer : list bar_dict) :
  new_service indicator_name signal_type = Ok self ->
  buffers st !! symbol bar = Some buffer ->
  let entry := make_bar_dict (ensure_aware (timestamp bar)) bar in
  let st' := snd (_process_bar settings self st bar) in
  (instant (timestamp bar) ∈ buffer_instants buffer ->
   (length buffer < 3000)%nat ->
   buffers st' !! symbol bar = Some (buffer ++ [entry])
   /\ ~ NoDup (buffer_instants (buffer ++ [entry]))
   /\ ~ strictly_increasing (buffer ++ [entry]))
  /\ (forall buffer',
        buffers st' !! symbol bar = Some buffer' ->
        ~ NoDup (buffer_instants buffer') ->
        (lookback_bars settings < length buffer')%nat ->
        fst (_process_bar settings self st bar) = Raise "ValueError").
Proof.
  intros Hnew Hb entry st'. split.
  - intros Hin Hlen.
    assert (Hdup : ~ NoDup (buffer_instants (buffer ++ [entry]))).
    { rewrite buffer_instants_app. intros Hnd.
      apply NoDup_app in Hnd as (_ & Hnd & _).
      apply (Hnd (instant (timestamp bar)) Hin).
      unfold buffer_instants, entry. simpl. rewrite instant_ensure_aware.
      left. }
    split; [|split; [exact Hdup|]].
    + unfold st'. rewrite process_bar_buffers, Hb, lookup_insert_eq.
      destruct (append_and_trim_cases buffer entry) as [[_ Heq]|[H _]];
        [f_equal; exact Heq|].
      unfold capacity_ceiling in H. lia.
    + intros Hs. apply Hdup. by apply StronglySorted_lt_NoDup.
  - intros buffer' Hb' Hdup Hlen.
    assert (Heq : buffer' = append_and_trim buffer entry).
    { unfold st' in Hb'. rewrite process_bar_buffers, Hb, lookup_insert_eq in Hb'.
      by injection Hb' as <-. }
    destruct (new_service_parts _ _ _ Hnew) as [Hind Hdet].
    rewrite (process_bar_result st bar buffer Hb). cbv zeta.
    fold entry. rewrite <- Heq.
    destruct (Nat.ltb_spec (length buffer') (lookback_bars settings)); [lia|].
    destruct (on_series_aligned (indicator self) (close_series buffer') Hind)
      as (v & _ & _ & -> & Hi & _).
    rewrite bind_Ok.
    rewrite (detector_duplicate_raises (detector self)); [reflexivity|exact Hdet| |].
    + rewrite Hi. intros Hidx.
      apply (f_equal length) in Hidx.
      unfold index in Hidx. rewrite !length_fmap, tail_length in Hidx.
      rewrite close_series_length in Hidx. lia.
    + by rewrite Hi, close_series_index.
Qed.


End OneBar.

Definition short_lookback : Settings :=
  {| pivot_k := 3; lookback_bars := 10; ema_period := 50;
     use_trend_filter := false; monitor_preload_bars := 200;
     monitor_preload_days := 5; backfill_default_days := 30;
     fetch_safety_margin := Finite (13 # 10);
     data_sufficiency_threshold := Finite (8 # 10);
     use_parquet_cache := false; data_provider := "alpaca" |}.


(** A detection window of two bars, pivots of one bar on each side, no
    trend filter. *)
Definition tiny_window : Settings :=
  {| pivot_k := 1; lookback_bars := 2; ema_period := 50;
     use_trend_filter := false; monitor_preload_bars := 200;
     monitor_preload_days := 5; backfill_default_days := 30;
     fetch_safety_margin := Finite (13 # 10);
     data_sufficiency_threshold := Finite (8 # 10);
     use_parquet_cache := false; data_provider := "alpaca" |}.

(** The buffer of "QQQ" after the bar of instant 60 was delivered once,
    and after it was delivered twice. *)
Definition qqq_once : state :=
  process_all tiny_window rsi_hidden_bullish fresh_qqq [qqq_bar].

Definition qqq_twice : state :=
  process_all tiny_window rsi_hidden_bullish fresh_qqq [qqq_bar; qqq_bar].


Lemma duplicate_timestamp_breaks_detection_witness :
  (new_service "rsi" "hidden_bullish_divergence" = Ok rsi_hidden_bullish
   /\ buffers qqq_twice !! symbol later_bar
      = Some [make_bar_dict (timestamp qqq_bar) qqq_bar;
              make_bar_dict (timestamp qqq_bar) qqq_bar])
  /\ fst (_process_bar tiny_window rsi_hidden_bullish qqq_twice later_bar)
     = Raise "ValueError".
Proof.
  assert (Hb : buffers qqq_twice !! symbol later_bar
               = Some [make_bar_dict (timestamp qqq_bar) qqq_bar;
                       make_bar_dict (timestamp qqq_bar) qqq_bar])
    by (by vm_compute).
  split; [split; [reflexivity|exact Hb]|].
  destruct (duplicate_timestamp_breaks_detection tiny_window rsi_hidden_bullish
              "rsi" "hidden_bullish_divergence" qqq_twice later_bar
              [make_bar_dict (timestamp qqq_bar) qqq_bar;
               make_bar_dict (timestamp qqq_bar) qqq_bar] eq_refl Hb)
    as [_ H].
  apply (H [make_bar_dict (timestamp qqq_bar) qqq_bar;
            make_bar_dict (timestamp qqq_bar) qqq_bar;
            make_bar_dict (replace_utc (timestamp later_bar)) later_bar]).
  - by vm_compute.
  - intros Hnd. apply NoDup_cons in Hnd as [Hnd _]. apply Hnd. left.
  - simpl. lia.
Defined.

Lemma unknown_symbols_ignored_witness :
  buffers empty_state !! symbol qqq_bar = None
  /\ fst (_process_bar default_settings rsi_hidden_bullish empty_state qqq_bar)
     = Raise "KeyError".
Proof.
  split; [reflexivity|].
  destruct (unknown_symbols_ignored default_settings rsi_hidden_bullish
              empty_state []) as (_ & _ & H).
  by destruct (H qqq_bar eq_refl) as [? _].
Defined.

(** ** The warm start *)

Section Preload.
Context (settings : Settings) (historical_loader : Loader.HistoricalDataLoader).

(** The request of the warm start is valid: a valid sufficiency
    threshold for [MONITOR_PRELOAD_BARS], and a valid window for the start
    [now - MONITOR_PRELOAD_DAYS] that [load_bars] computes. *)
Definition preload_valid : Prop :=
  threshold_valid settings (monitor_preload_bars settings)
  /\ fetch_window_valid settings (monitor_preload_days settings)
       (Loader.now (Loader.world historical_loader)
        - Z.of_nat (monitor_preload_days settings) * Loader.seconds_per_day)%Z.

Lemma preload_symbol_result st symbol tr :
  preload_valid ->
  exists df tr',
    preload_symbol settings historical_loader st symbol tr
    = (Ok (warm_start st symbol
             {| wall := Loader.now (Loader.world historical_loader);
                tzinfo := Some 0%Z |} df), tr')
    /\ ((1 <= monitor_preload_bars settings)%nat ->
        (length df <= monitor_preload_bars settings)%nat).
Proof.
  intros [Hs Hw]. unfold preload_symbol. cbv zeta.
  destruct (load_bars_total settings historical_loader symbol None None None
              None "monitor" Hs Hw tr) as (df & tr' & Hl).
  exists df, tr'. unfold mbind, Loader.IO_bind. rewrite Hl. split; [reflexivity|].
  intros Hp.
  exact (load_bars_at_most settings historical_loader symbol None None None
           None "monitor" Hp tr df tr' Hl).
Qed.


End Preload.


End PipelineFacts.

(* ===================================================================== *)
(** * The registry: keys, stopping, reachable states *)
(* ===================================================================== *)

Module RegistryFacts.
Import Pandas Config Manager ManagerFacts.

(** ** The order of the tickers does not matter *)

Lemma ascii_compare_le_trans (a b c : Ascii.ascii) :
  Ascii.compare a b <> Gt -> Ascii.compare b c <> Gt ->
  Ascii.compare a c <> Gt.
Proof.
  unfold Ascii.compare. rewrite !N.compare_le_iff. lia.
Qed.

Lemma string_compare_le_trans (s1 s2 s3 : string) :
  String.compare s1 s2 <> Gt -> String.compare s2 s3 <> Gt ->
  String.compare s1 s3 <> Gt.
Proof.
  revert s2 s3. induction s1 as [|c1 s1 IH]; intros [|c2 s2] [|c3 s3];
    simpl; try done.
  destruct (Ascii.compare c1 c2) eqn:E12; [|intros _|done].
  - apply Ascii.compare_eq_iff in E12 as ->.
    destruct (Ascii.compare c2 c3); [apply IH|done|done].
  - destruct (Ascii.compare c2 c3) eqn:E23; [|intros _|done].
    + apply Ascii.compare_eq_iff in E23 as <-. by rewrite E12.
    + assert (H : Ascii.compare c1 c3 = Lt).
      { revert E12 E23. unfold Ascii.compare.
        rewrite !N.compare_lt_iff. lia. }
      by rewrite H.
Qed.

Lemma str_le_compare (a b : string) : str_le a b <-> String.compare a b <> Gt.
Proof.
  unfold str_le, String.leb. destruct (String.compare a b); split; done.
Qed.

#[local] Instance str_le_trans : Transitive str_le.
Proof.
  intros a b c. rewrite !str_le_compare. apply string_compare_le_trans.
Qed.

#[local] Instance str_le_total : Total str_le.
Proof. intros a b. apply String.leb_total. Qed.

#[local] Instance str_le_antisym : AntiSymm eq str_le.
Proof. intros a b. apply String.leb_antisym. Qed.

Lemma sorted_Permutation (l1 l2 : list string) :
  l1 ≡ₚ l2 -> sorted l1 = sorted l2.
Proof.
  intros Hp. unfold sorted.
  apply (StronglySorted_unique str_le);
    try apply (StronglySorted_merge_sort str_le).
  by rewrite !merge_sort_Permutation.
Qed.

(** The key of a configuration does not depend on the order in which the
    tickers are given: [sorted] gives permutations of one list the same
    key.  So a second [start_monitor] with the same tickers in another
    order finds the running instance and answers "already_running". *)
Theorem tickers_order_irrelevant
    (settings : Settings) (s : system) (tickers tickers' : list string)
    (indicator signal_type : string) :
  tickers ≡ₚ tickers' ->
  _get_key tickers indicator signal_type
  = _get_key tickers' indicator signal_type
  /\ (forall r s1,
        start_monitor settings s tickers indicator signal_type = (Ok r, s1) ->
        status r = "started" ->
        start_monitor settings s1 tickers' indicator signal_type
        = (Ok (AlreadyRunning (_get_key tickers indicator signal_type)
                              tickers'), s1)).
Proof.
  intros Hp.
  assert (Hkey : _get_key tickers indicator signal_type
                 = _get_key tickers' indicator signal_type).
  { unfold _get_key. by rewrite (sorted_Permutation _ _ Hp). }
  split; [exact Hkey|]. intros r s1 H Hs.
  destruct (start_monitor_started _ _ _ _ _ _ _ H Hs)
    as (info & t & Hk & Hd & _).
  rewrite Hkey in Hk |- *.
  by apply (start_monitor_active _ _ _ _ _ info).
Qed.

Lemma tickers_order_irrelevant_witness :
  ["QQQ"; "AAPL"] ≡ₚ ["AAPL"; "QQQ"]
  /\ _get_key ["QQQ"; "AAPL"] "rsi" "hidden_bullish_divergence"
     = _get_key ["AAPL"; "QQQ"] "rsi" "hidden_bullish_divergence".
Proof.
  assert (Hp : ["QQQ"; "AAPL"] ≡ₚ ["AAPL"; "QQQ"]) by apply Permutation_swap.
  split; [exact Hp|].
  by destruct (tickers_order_irrelevant default_settings initial
                 ["QQQ"; "AAPL"] ["AAPL"; "QQQ"] "rsi"
                 "hidden_bullish_divergence" Hp) as [H _].
Defined.

(** ** Stopping *)

(** [stop_monitor] on a key the registry does not have answers
    "not_found" and does nothing.  On a registered key it answers
    "stopped", removes that key and no other, cancels the task if it is
    still running, unsubscribes the tickers the monitor was started with,
    and leaves the task table alone.  Stopping right after a start that
    created the key gives back the registry of before the start, and the
    task of the stopped monitor stays in the task table. *)
Theorem stop_monitor_undoes_start
    (settings : Settings) (s : system) (tickers : list string)
    (indicator signal_type : string) :
  let key := _get_key tickers indicator signal_type in
  (monitors s !! key = None ->
   stop_monitor s tickers indicator signal_type = (NotFound key, s, []))
  /\ (forall info,
        monitors s !! key = Some info ->
        exists s1 effects,
          stop_monitor s tickers indicator signal_type
          = (Stopped key tickers, s1, effects)
          /\ monitors s1 !! key = None
          /\ (forall other, other <> key ->
                monitors s1 !! other = monitors s !! other)
          /\ tasks s1 = tasks s /\ provider s1 = provider s
          /\ (CancelTask (mi_task info) ∈ effects
              <-> task_done s (mi_task info) = false)
          /\ (UnsubscribeBars (mi_tickers info) ∈ effects
              <-> is_Some (provider s)))
  /\ (forall r s1,
        monitors s !! key = None ->
        start_monitor settings s tickers indicator signal_type = (Ok r, s1) ->
        status r = "started" ->
        exists s2,
          stop_monitor s1 tickers indicator signal_type
          = (Stopped key tickers, s2,
             [CancelTask (length (tasks s)); UnsubscribeBars tickers])
          /\ monitors s2 = monitors s
          /\ length (tasks s2) = S (length (tasks s))).
Proof.
  intros key. split; [|split].
  - intros Hk. unfold stop_monitor. fold key. by rewrite Hk.
  - intros info Hk. unfold stop_monitor. fold key. rewrite Hk. cbv zeta.
    do 2 eexists. split; [reflexivity|]. cbn [monitors tasks provider].
    split; [apply lookup_delete_eq|].
    split; [intros other Hne; by apply lookup_delete_ne|].
    split; [reflexivity|]. split; [reflexivity|]. split.
    + destruct (task_done s (mi_task info)), (provider s); cbn [negb app];
        rewrite ?elem_of_cons, ?elem_of_nil; unfold is_Some;
        (split; intros H);
        repeat match goal with
               | H : _ ∨ _ |- _ => destruct H
               | H : ∃ _, _ |- _ => destruct H
               | H : False |- _ => destruct H
               end; try discriminate; eauto.
    + destruct (task_done s (mi_task info)), (provider s); cbn [negb app];
        rewrite ?elem_of_cons, ?elem_of_nil; unfold is_Some;
        (split; intros H);
        repeat match goal with
               | H : _ ∨ _ |- _ => destruct H
               | H : ∃ _, _ |- _ => destruct H
               | H : False |- _ => destruct H
               end; try discriminate; eauto.
  - intros r s1 Hk H Hs. unfold start_monitor in H. fold key in H.
    rewrite Hk in H.
    pose proof H as H'.
    apply start_fresh_started in H as (info & t & Hm & Ht & Hid & Hdone & Htk & _);
      [|exact Hs].
    assert (Hprov : is_Some (provider s1)).
    { revert H'. unfold start_fresh. destruct (provider s) as [p|] eqn:Hp.
      - destruct (Monitor.new_service _ _); intros [= <- <-];
          cbn [provider]; rewrite Hp; by eexists.
      - destruct (get_provider settings) as [p|]; cbn; [|discriminate].
        destruct (Monitor.new_service _ _); intros [= <- <-];
          cbn [provider]; by eexists. }
    assert (Hinfo : mi_tickers info = tickers).
    { revert H'. unfold start_fresh.
      destruct (provider s) as [p|].
      - destruct (Monitor.new_service _ _); intros [= <- Hs1]; [|discriminate Hs].
        subst s1. cbn [monitors] in Hm.
        apply (f_equal (fun m => m !! key)) in Hm.
        rewrite !lookup_insert_eq in Hm. by injection Hm as <-.
      - destruct (get_provider settings) as [p|]; cbn; [|discriminate].
        destruct (Monitor.new_service _ _); intros [= <- Hs1]; [|discriminate Hs].
        subst s1. cbn [monitors] in Hm.
        apply (f_equal (fun m => m !! key)) in Hm.
        rewrite !lookup_insert_eq in Hm. by injection Hm as <-. }
    unfold stop_monitor. fold key. rewrite Hm, lookup_insert_eq. cbv zeta.
    assert (Hnd : task_done s1 (mi_task info) = false).
    { unfold task_done. rewrite Ht, Hid. by rewrite list_lookup_middle. }
    rewrite Hnd. destruct Hprov as [p ->]. cbn [negb app].
    eexists. rewrite Hid, Hinfo. split; [reflexivity|].
    cbn [monitors tasks]. split.
    + by apply delete_insert_id.
    + rewrite Ht, length_app. simpl. lia.
Qed.

(** The manager after one monitor was started. *)
Definition one_monitor : result response * system :=
  start_monitor default_settings initial ["QQQ"] "rsi"
                "hidden_bullish_divergence".

Lemma stop_monitor_undoes_start_witness :
  exists s2,
    stop_monitor (snd one_monitor) ["QQQ"] "rsi" "hidden_bullish_divergence"
    = (Stopped "QQQ:rsi:hidden_bullish_divergence" ["QQQ"], s2,
       [CancelTask 0; UnsubscribeBars ["QQQ"]])
    /\ monitors s2 = ∅
    /\ length (tasks s2) = 1%nat.
Proof.
  destruct (stop_monitor_undoes_start default_settings initial ["QQQ"] "rsi"
              "hidden_bullish_divergence") as (_ & _ & H).
  apply (H (Started "QQQ:rsi:hidden_bullish_divergence" ["QQQ"] "rsi"
                    "hidden_bullish_divergence") (snd one_monitor)).
  - reflexivity.
  - by vm_compute.
  - reflexivity.
Defined.

(** ** Reachable states *)

(** One call on the manager, or one task ending in the event loop. *)
Inductive step (settings : Settings) : system -> system -> Prop :=
| step_start s tickers indicator signal_type r s' :
    start_monitor settings s tickers indicator signal_type = (r, s') ->
    step settings s s'
| step_stop s tickers indicator signal_type r s' effects :
    stop_monitor s tickers indicator signal_type = (r, s', effects) ->
    step settings s s'
| step_finish s id :
    step settings s (finish_task s id).

Definition reachable (settings : Settings) (s : system) : Prop :=
  rtc (step settings) initial s.

(** What every registered entry satisfies. *)
Definition entry_ok (s : system) (key : string) (info : monitor_info) : Prop :=
  key = _get_key (mi_tickers info) (mi_indicator info) (mi_signal_type info)
  /\ is_Some (Monitor.INDICATOR_MAP (mi_indicator info))
  /\ is_Some (Monitor.DETECTOR_MAP (mi_signal_type info))
  /\ exists t, tasks s !! mi_task info = Some t
               /\ task_tickers t = mi_tickers info.

Definition well_formed (s : system) : Prop :=
  (forall key info, monitors s !! key = Some info ->
      is_Some (provider s) /\ entry_ok s key info)
  /\ (forall k1 k2 i1 i2,
         monitors s !! k1 = Some i1 -> monitors s !! k2 = Some i2 ->
         mi_task i1 = mi_task i2 -> k1 = k2).

Lemma well_formed_handles_valid s : well_formed s -> handles_valid s.
Proof.
  intros [Hw _] key info Hk.
  destruct (Hw key info Hk) as (_ & _ & _ & _ & t & Ht & _).
  by apply lookup_lt_Some in Ht.
Qed.

Lemma well_formed_delete s key :
  well_formed s ->
  well_formed {| monitors := delete key (monitors s);
                 provider := provider s; tasks := tasks s |}.
Proof.
  intros [Hw Hinj]. split.
  - intros k info. cbn [monitors provider].
    intros Hk. apply lookup_delete_Some in Hk as [_ Hk]. by apply Hw.
  - intros k1 k2 i1 i2. cbn [monitors]. intros H1 H2.
    apply lookup_delete_Some in H1 as [_ H1].
    apply lookup_delete_Some in H2 as [_ H2]. by apply Hinj.
Qed.

Lemma new_service_names indicator signal_type svc :
  Monitor.new_service indicator signal_type = Ok svc ->
  is_Some (Monitor.INDICATOR_MAP indicator)
  /\ is_Some (Monitor.DETECTOR_MAP signal_type).
Proof.
  unfold Monitor.new_service.
  destruct (Monitor.INDICATOR_MAP indicator); [|discriminate].
  destruct (Monitor.DETECTOR_MAP signal_type); [|discriminate].
  intros _. split; by eexists.
Qed.

Lemma well_formed_provider s p :
  well_formed s ->
  well_formed {| monitors := monitors s; provider := Some p;
                 tasks := tasks s |}.
Proof.
  intros [Hw Hinj]. split; [|exact Hinj].
  intros k info Hk. destruct (Hw k info Hk) as [_ He].
  split; [by eexists|exact He].
Qed.

Lemma well_formed_register s tickers indicator signal_type svc :
  well_formed s -> is_Some (provider s) ->
  Monitor.new_service indicator signal_type = Ok svc ->
  well_formed
    {| monitors :=
         <[_get_key tickers indicator signal_type :=
             {| mi_task := length (tasks s); mi_tickers := tickers;
                mi_indicator := indicator;
                mi_signal_type := signal_type |}]> (monitors s);
       provider := provider s;
       tasks := tasks s ++ [{| task_service := svc; task_tickers := tickers;
                               done := false |}] |}.
Proof.
  intros Hwf Hp Hsvc. pose proof (well_formed_handles_valid s Hwf) as Hv.
  destruct Hwf as [Hw Hinj].
  destruct (new_service_names _ _ _ Hsvc) as [Hi Hd]. split.
  - intros k info. cbn [monitors provider tasks].
    destruct (decide (_get_key tickers indicator signal_type = k)) as [<-|Hne].
    + rewrite lookup_insert_eq. intros [= <-]. split; [exact Hp|].
      unfold entry_ok. cbn [mi_tickers mi_indicator mi_signal_type mi_task tasks].
      repeat split; try assumption.
      eexists. split; [apply list_lookup_middle; reflexivity|reflexivity].
    + rewrite lookup_insert_ne by exact Hne. intros Hk.
      destruct (Hw k info Hk) as (_ & Hkey & Hi' & Hd' & t & Ht & Htk).
      split; [exact Hp|]. unfold entry_ok. cbn [tasks].
      repeat split; try assumption.
      exists t. split; [|exact Htk].
      rewrite lookup_app_l; [exact Ht|]. by apply lookup_lt_Some in Ht.
  - intros k1 k2 i1 i2. cbn [monitors].
    destruct (decide (_get_key tickers indicator signal_type = k1)) as [<-|H1];
      destruct (decide (_get_key tickers indicator signal_type = k2)) as [<-|H2];
      rewrite ?lookup_insert_eq, ?lookup_insert_ne by assumption.
    + done.
    + intros [= <-] Hk2 Heq. cbn [mi_task] in Heq.
      pose proof (Hv k2 i2 Hk2). lia.
    + intros Hk1 [= <-] Heq. cbn [mi_task] in Heq.
      pose proof (Hv k1 i1 Hk1). lia.
    + apply Hinj.
Qed.

Lemma well_formed_start_fresh settings s tickers indicator signal_type r s' :
  well_formed s ->
  start_fresh settings s (_get_key tickers indicator signal_type)
              tickers indicator signal_type = (r, s') ->
  well_formed s'.
Proof.
  intros Hwf. unfold start_fresh.
  destruct (provider s) as [p|] eqn:Hp.
  - destruct (Monitor.new_service indicator signal_type) as [svc|e] eqn:Hs.
    + intros [= <- <-]. by apply well_formed_register.
    + by intros [= <- <-].
  - destruct (get_provider settings) as [p|e]; cbn.
    + destruct (Monitor.new_service indicator signal_type) as [svc|e] eqn:Hs.
      * intros [= <- <-].
        apply (well_formed_register
                 {| monitors := monitors s; provider := Some p;
                    tasks := tasks s |}); try done.
        by apply well_formed_provider.
      * intros [= <- <-]. by apply well_formed_provider.
    + by intros [= <- <-].
Qed.

Lemma well_formed_step settings s s' :
  well_formed s -> step settings s s' -> well_formed s'.
Proof.
  intros Hwf Hstep. destruct Hstep as
    [s tickers indicator signal_type r s' H
    |s tickers indicator signal_type r s' effects H
    |s id].
  - unfold start_monitor in H.
    destruct (monitors s !! _get_key tickers indicator signal_type) as [info|].
    + destruct (negb (task_done s (mi_task info))).
      * by injection H as <- <-.
      * apply well_formed_start_fresh in H; [exact H|].
        by apply well_formed_delete.
    + by apply well_formed_start_fresh in H.
  - unfold stop_monitor in H.
    destruct (monitors s !! _get_key tickers indicator signal_type) as [info|].
    + injection H as <- <- <-. by apply well_formed_delete.
    + by injection H as <- <- <-.
  - destruct Hwf as [Hw Hinj]. split; [|exact Hinj].
    intros k info Hk. cbn [monitors provider] in *.
    destruct (Hw k info Hk) as (Hp & Hkey & Hi & Hd & t & Ht & Htk).
    split; [exact Hp|]. unfold entry_ok, finish_task. cbn [tasks].
    repeat split; try assumption.
    destruct (decide (id = mi_task info)) as [->|Hne].
    + eexists. split; [by rewrite list_lookup_alter_eq, Ht|]. exact Htk.
    + exists t. split; [|exact Htk].
      by rewrite list_lookup_alter_ne.
Qed.

(** In every state the manager can reach from its initial state by calls
    of [start_monitor] and [stop_monitor] and by tasks ending, every
    registered entry sits under the key of its own configuration, names a
    known indicator and signal type, points to a task of the task table
    that was created for its tickers, and no two entries share a task; the
    provider is initialised as soon as the registry is not empty. *)
Theorem reachable_well_formed (settings : Settings) (s : system) :
  reachable settings s ->
  well_formed s /\ handles_valid s
  /\ (monitors s <> ∅ -> is_Some (provider s)).
Proof.
  intros Hr.
  assert (Hwf : well_formed s).
  { revert s Hr. refine (rtc_ind_r _ _ _ _).
    - split; [intros k info H|intros k1 k2 i1 i2 H];
        cbn [initial monitors] in H; by rewrite lookup_empty in H.
    - intros s1 s2 _ Hstep IH. by apply (well_formed_step settings s1). }
  split; [exact Hwf|]. split; [by apply well_formed_handles_valid|].
  intros Hne. apply map_choose in Hne as (k & info & Hk).
  destruct Hwf as [Hw _]. by destruct (Hw k info Hk).
Qed.

Lemma reachable_well_formed_witness :
  reachable default_settings (snd one_monitor)
  /\ handles_valid (snd one_monitor).
Proof.
  assert (Hr : reachable default_settings (snd one_monitor)).
  { eapply rtc_l; [|apply rtc_refl].
    apply (step_start default_settings initial ["QQQ"] "rsi"
             "hidden_bullish_divergence" (fst one_monitor)).
    unfold one_monitor. by destruct (start_monitor _ _ _ _ _). }
  split; [exact Hr|].
  by destruct (reachable_well_formed default_settings _ Hr) as (_ & H & _).
Defined.

End RegistryFacts.

(* ===================================================================== *)
(** * The frame of a tracker *)
(* ===================================================================== *)

Module TrackerFacts.
Import Pandas Config Monitor Streamer.
Import PandasFacts DivergenceFacts MonitorFacts DetectorFacts PipelineFacts.

Lemma loc_set_index_present (df : Series row) (ts : label) (r : row) :
  ts ∈ index df -> index (loc_set df ts r) = index df.
Proof.
  intros Hin. unfold loc_set. rewrite decide_True by exact Hin.
  unfold index. rewrite <- list_fmap_compose. apply list_fmap_ext.
  intros i [t old] _. simpl. by destruct (decide (t = ts)).
Qed.

Lemma loc_set_index_absent (df : Series row) (ts : label) (r : row) :
  ts ∉ index df -> index (loc_set df ts r) = index df ++ [ts].
Proof.
  intros Hni. unfold loc_set. rewrite decide_False by exact Hni.
  unfold index. by rewrite fmap_app.
Qed.

Lemma loc_set_NoDup (df : Series row) (ts : label) (r : row) :
  NoDup (index df) -> NoDup (index (loc_set df ts r)).
Proof.
  intros Hnd. destruct (decide (ts ∈ index df)) as [Hin|Hni].
  - by rewrite loc_set_index_present.
  - rewrite loc_set_index_absent by exact Hni.
    apply NoDup_app. split; [exact Hnd|]. split; [|apply NoDup_singleton].
    intros x Hx Hx'. apply list_elem_of_singleton in Hx'. by subst.
Qed.

Lemma loc_set_length (df : Series row) (ts : label) (r : row) :
  (length (loc_set df ts r) <= S (length df))%nat.
Proof.
  unfold loc_set. destruct (decide (ts ∈ index df)).
  - rewrite length_fmap. lia.
  - rewrite length_app. simpl. lia.
Qed.

Lemma store_bar_invariant (df : Series row) (bar : feed_bar) :
  NoDup (index df) -> (length df <= 3000)%nat ->
  NoDup (index (store_bar df bar)) /\ (length (store_bar df bar) <= 3000)%nat.
Proof.
  intros Hnd Hlen. unfold store_bar. cbv zeta.
  set (df' := loc_set df _ _).
  assert (Hnd' : NoDup (index df')) by (by apply loc_set_NoDup).
  assert (Hlen' : (length df' <= 3001)%nat).
  { pose proof (loc_set_length df (instant (ensure_aware (timestamp bar)))
                  (row_of_bar bar)). fold df' in H. lia. }
  destruct (3000 <? length df')%nat eqn:E.
  - split.
    + change (lastn 2200 df') with (tail df' 2200).
      rewrite index_tail. by apply NoDup_lastn.
    + unfold lastn. rewrite length_drop. lia.
  - apply Nat.ltb_ge in E. by split.
Qed.

Lemma frame_after_snoc df bars bar :
  frame_after df (bars ++ [bar]) = store_bar (frame_after df bars) bar.
Proof. unfold frame_after. by rewrite foldl_app. Qed.

Lemma frame_after_invariant (bars : list feed_bar) :
  NoDup (index (frame_after [] bars))
  /\ (length (frame_after [] bars) <= 3000)%nat.
Proof.
  induction bars as [|bar bars IH] using rev_ind.
  - split; [constructor|simpl; lia].
  - rewrite frame_after_snoc. destruct IH. by apply store_bar_invariant.
Qed.

Lemma close_column_index (df : Series row) :
  index (close_column df) = index df.
Proof.
  unfold index, close_column. rewrite <- list_fmap_compose. reflexivity.
Qed.



End TrackerFacts.
